(** * dask-awkward: lazy partitioned collections, graph builders and the
      column-projection optimizer

    A shallow embedding of [dask_awkward/utils.py], [dask_awkward/core.py],
    [dask_awkward/io.py], [dask_awkward/reducers.py] and
    [dask_awkward/lib/optimize.py].

    Python integers are [Z]; tuples and lists are [list]; [None] is the
    [None] of [option]; a raised exception is the [Raise] of [result]. *)

From stdpp Require Import gmap strings list fin_maps pretty.
From Stdlib Require Import ZArith Lia.

Local Open Scope Z_scope.

(* naive_solver and set_solver clear hypotheses that may already be gone *)
#[local] Set Warnings "-clear-no-such-hyp".

(** ** Python values and exceptions *)

Module Py.

Inductive Exn : Type :=
| ValueError
| TypeError
| IndexError
| KeyError
| AttributeError
| AssertionError
| NotImplementedError
| ZeroDivisionError
| RuntimeError.

Inductive result (A : Type) : Type :=
| Ok (a : A)
| Raise (e : Exn).
Arguments Ok {A} a.
Arguments Raise {A} e.

Definition bind {A B} (m : result A) (k : A → result B) : result B :=
  match m with
  | Ok a => k a
  | Raise e => Raise e
  end.

Definition is_ok {A} (m : result A) : bool :=
  match m with Ok _ => true | Raise _ => false end.

(** [len(xs)] *)
Definition len {A} (xs : list A) : Z := Z.of_nat (length xs).

(** [xs[i]] on a tuple or list: a negative index counts from the end,
    anything outside [-len, len) raises IndexError. *)
Definition getitem {A} (xs : list A) (i : Z) : result A :=
  let j := if i <? 0 then i + len xs else i in
  if (j <? 0) || (len xs <=? j) then Raise IndexError
  else match xs !! Z.to_nat j with
       | Some x => Ok x
       | None => Raise IndexError
       end.

(** [range(start, stop, step)] as a list; a zero step raises ValueError. *)
Definition range (start stop step : Z) : result (list Z) :=
  if step =? 0 then Raise ValueError
  else if 0 <? step then
    Ok ((λ k, start + k * step) <$> seqZ 0 ((stop - start + step - 1) `div` step))
  else
    Ok ((λ k, start + k * step) <$> seqZ 0 ((start - stop - step - 1) `div` (- step))).

(** [int(math.ceil(a / b))] for integers [a] and [b <> 0], taken exactly:
    the float quotient [a / b] is close enough for that as long as the
    operands stay below 2^53. *)
Definition ceil_div (a b : Z) : Z := - ((- a) `div` b).

End Py.

Export Py.

#[global] Instance result_bind : MBind result := λ A B k m, Py.bind m k.
#[global] Instance result_ret : MRet result := @Py.Ok.

(** ** numpy: [np.digitize] on integer bins

    [np.digitize(x, bins)] (with the default [right=False]) checks that the
    bins are monotonic and then runs a binary search with [side='right']. *)

Module Numpy.

Fixpoint nondecreasing (l : list Z) : bool :=
  match l with
  | a :: ((b :: _) as t) => (a <=? b) && nondecreasing t
  | _ => true
  end.

Fixpoint nonincreasing (l : list Z) : bool :=
  match l with
  | a :: ((b :: _) as t) => (b <=? a) && nonincreasing t
  | _ => true
  end.

(** 1 for increasing bins (equal neighbours allowed, also when all bins
    are equal), -1 for decreasing ones, 0 otherwise. *)
Definition monotonicity (bins : list Z) : Z :=
  if nondecreasing bins then 1
  else if nonincreasing bins then -1
  else 0.

(** The loop of the binary search with [side='right']: the interval
    [lo, hi) is halved while it is not empty; [arr[mid] <= key] moves the
    lower end past [mid]. *)
Fixpoint binsearch_right (fuel : nat) (arr : list Z) (key : Z) (lo hi : nat) : nat :=
  match fuel with
  | O => lo
  | S fuel' =>
      if (lo <? hi)%nat then
        let mid := (lo + (hi - lo) / 2)%nat in
        if nth mid arr 0 <=? key
        then binsearch_right fuel' arr key (S mid) hi
        else binsearch_right fuel' arr key lo mid
      else lo
  end.

Definition searchsorted_right (arr : list Z) (key : Z) : Z :=
  Z.of_nat (binsearch_right (S (length arr)) arr key 0 (length arr)).

Definition digitize (x : Z) (bins : list Z) : result Z :=
  let mono := monotonicity bins in
  if mono =? 0 then Raise ValueError
  else if mono =? -1 then Ok (len bins - searchsorted_right (rev bins) x)
  else Ok (searchsorted_right bins x).

End Numpy.

(** ** utils.py *)

(** [normalize_single_outer_inner_index(divisions, index)]: the value
    returned. *)
Definition normalize_single_outer_inner_index
    (divisions : list Z) (index : Z) : result (Z * Z) :=
  index ← (if index <? 0
           then (total ← getitem divisions (-1); Ok (total + index))
           else Ok index);
  if len divisions =? 2 then Ok (0, index)
  else
    d ← Numpy.digitize index divisions;
    let partition_index := d - 1 in
    start ← getitem divisions partition_index;
    let new_index := index - start in
    Ok (partition_index, new_index).

(** What the function writes to standard output: the shifted index, when
    the index was negative. *)
Definition normalize_single_outer_inner_index_stdout
    (divisions : list Z) (index : Z) : list Z :=
  if index <? 0 then
    match getitem divisions (-1) with
    | Ok total => [total + index]
    | Raise _ => []
    end
  else [].

(** ** Task graphs (the part of dask this package builds on) *)

(** A graph key is a string (scalar collections) or a tuple [(name, i)]
    (partition [i] of an array collection). *)
Inductive Key : Type :=
| KStr (name : string)
| KPart (name : string) (i : Z).

#[global] Instance Key_eq_dec : EqDecision Key.
Proof. solve_decision. Defined.

(** An item of a list. [bool] is a subclass of [int]: a boolean item is an
    [ItemInt]. An item that is neither an integer nor a string is kept by
    its [repr]: [ItemOther] when it can be hashed, [ItemUnhashable] when it
    cannot (a list, a dict, a slice, ...). *)
Inductive ListItem : Type :=
| ItemInt (n : Z)
| ItemStr (s : string)
| ItemOther (repr : string)
| ItemUnhashable (repr : string).

(** Plain Python values that end up inside tasks: a string, a list of
    strings, a list with some other item, and what is not a list, kept by
    its [repr]: [VOther] when it can be hashed (an integer, [None],
    [Ellipsis], ...), [VUnhashable] when it cannot (a slice, a dict, an
    array, ...). Values kept by their [repr] are the same value when
    their [repr] is the same. *)
Inductive Value : Type :=
| VStr (s : string)
| VStrs (l : list string)
| VList (items : list ListItem)
| VOther (repr : string)
| VUnhashable (repr : string).

(** A function object; [fn_name] is its [__name__]. *)
Record Function : Type := { fn_name : string }.

Inductive Callable : Type :=
| operator_getitem
| lambda_getitem
| dask_apply
| Fn (f : Function)
| Partial (f : Function) (kwargs : list (string * Value)).

Definition is_operator_getitem (c : Callable) : bool :=
  match c with operator_getitem => true | _ => false end.

Inductive TaskArg : Type :=
| AKey (k : Key)
| AKeys (ks : list Key)
| AVal (v : Value).

(** A task descriptor: a call [(func, arg, ...)], a bare key (an alias of
    another task's result), or a piece of data held in the graph, here the
    row range [source[start:stop]]. *)
Inductive Task : Type :=
| TCall (f : Callable) (args : list TaskArg)
| TAlias (k : Key)
| TSlice (start stop : Z).

(** A Python [dict] from keys to tasks, in insertion order. *)
Definition TaskDict : Type := list (Key * Task).

(** [d[k] = t]: an existing key keeps its place, a new one goes last. *)
Fixpoint dict_set (d : TaskDict) (k : Key) (t : Task) : TaskDict :=
  match d with
  | [] => [(k, t)]
  | (k', t') :: d' =>
      if decide (k' = k) then (k, t) :: d' else (k', t') :: dict_set d' k t
  end.

(** [{k: t for k, t in items}] *)
Definition dict_comprehension (items : list (Key * Task)) : TaskDict :=
  foldl (λ d kt, dict_set d kt.1 kt.2) [] items.

Definition dict_keys (d : TaskDict) : list Key := d.*1.

(** [enumerate(xs)] *)
Definition enumerate {A} (xs : list A) : list (Z * A) :=
  imap (λ i x, (Z.of_nat i, x)) xs.

(** An argument of a blockwise layer: the name of a collection's layer
    (indexed by ["i"]) or a literal (index [None]). *)
Inductive BwArg : Type :=
| BwLayer (name : string)
| BwLit (v : Value).

(** [dask.blockwise.Blockwise]: [bw_head] is [layer.dsk[layer.output][0]],
    the callable at the head of the layer's single task. *)
Record Blockwise : Type := {
  bw_output : string;
  bw_head : Callable;
  bw_func : Callable;
  bw_indices : list (BwArg * option string);
  bw_numblocks : gmap string Z;
  bw_kwargs : list (string * BwArg)
}.

(** Modelled from the spec: [dask_awkward.layers.AwkwardIOLayer], the layer
    a source reader produces, is not among the source files. The spec
    describes a source layer that declares a set of fields and whose reader
    optionally has a rebuild narrowing it to a given field set. [io_func] is
    the reader, [io_projectable] is [hasattr(io_func, "project_columns")]. *)
Record AwkwardIOLayer : Type := {
  io_name : string;
  io_columns : gset string;
  io_inputs : list string;
  io_func : string;
  io_projectable : bool
}.

(** Modelled from the spec: [AwkwardIOLayer.project_columns(columns)], the
    collaborator's rebuild narrowed to exactly the given fields; the
    narrowed reader is a reader of the same kind. *)
Definition project_columns (l : AwkwardIOLayer) (columns : list string) : AwkwardIOLayer :=
  {| io_name := io_name l;
     io_columns := list_to_set columns;
     io_inputs := io_inputs l;
     io_func := io_func l;
     io_projectable := io_projectable l |}.

Inductive Layer : Type :=
| MaterializedLayer (d : TaskDict)
| BlockwiseLayer (b : Blockwise)
| IOLayer (l : AwkwardIOLayer).

Record HighLevelGraph : Type := {
  layers : gmap string Layer;
  dependencies : gmap string (gset string)
}.

(** What [HighLevelGraph.from_collections] reads of a dependency: its graph
    ([__dask_graph__()]) and its layer names ([__dask_layers__()]). *)
Record Collection : Type := {
  c_graph : HighLevelGraph;
  c_layers : gset string
}.

(** [HighLevelGraph.from_collections(name, layer, dependencies)]. With one
    dependency the new layer is written over a copy of the dependency's
    layers; otherwise the dependencies' layers are merged over the new one
    ([dict.update], the later entry wins). *)
Definition from_collections (name : string) (layer : Layer)
    (deps : list Collection) : HighLevelGraph :=
  match deps with
  | [c] =>
      {| layers := <[name := layer]> (layers (c_graph c));
         dependencies := <[name := c_layers c]> (dependencies (c_graph c)) |}
  | _ =>
      foldl (λ g c,
               {| layers := layers (c_graph c) ∪ layers g;
                  dependencies :=
                    alter (λ s, s ∪ c_layers c) name
                      (dependencies (c_graph c) ∪ dependencies g) |})
            {| layers := {[name := layer]}; dependencies := {[name := ∅]} |}
            deps
  end.

(** [HighLevelGraph.dependents]: the reversed dependency relation. It has an
    entry for every layer name that occurs in [dependencies], as a key or
    as a dependency. *)
Definition dependents (g : HighLevelGraph) : gmap string (gset string) :=
  let deps := dependencies g in
  let names := dom deps ∪ map_fold (λ _ vs acc, vs ∪ acc) ∅ deps in
  set_to_map (λ n, (n, dom (filter (λ kv, n ∈ kv.2) deps))) names.

(** ** Collaborators outside the package *)

(** A metadata placeholder (typetracer array), identified by its form. *)
Definition Meta : Type := string.

(** What the scheduler hands back for one key. *)
Inductive Computed : Type :=
| AkArray (typetracer : Meta)
| NotAkArray.

(** The external collaborators: [dask.base.tokenize], the scheduler
    ([__dask_scheduler__ = threaded_get]), the value engine's operations
    on placeholders ([operator.getitem] on two typetracer arrays and
    [forget_length]), and what [dask.blockwise.blockwise] makes of a layer
    when keywords set its own options [new_axes] and [dependencies]. *)
Class Engine : Type := {
  tokenize : ∀ A : Type, A → string;
  scheduler_get : HighLevelGraph → Key → result Computed;
  ak_getitem : Meta → Meta → result Meta;
  forget_length : Meta → Meta;
  blockwise_options : list (string * BwArg) → Blockwise → result Blockwise
}.
Arguments tokenize {_ _} _.

(** A computation that may ask the scheduler for keys: the requests made,
    in order, and the value returned or the exception raised. *)
Record Run (A : Type) : Type := MkRun {
  requests : list (HighLevelGraph * Key);
  outcome : result A
}.
Arguments MkRun {A} _ _.
Arguments requests {A} _.
Arguments outcome {A} _.

#[global] Instance Run_ret : MRet Run := λ A a, MkRun [] (Ok a).
#[global] Instance Run_bind : MBind Run := λ A B k m,
  match outcome m with
  | Ok a => MkRun (requests m ++ requests (k a)) (outcome (k a))
  | Raise e => MkRun (requests m) (Raise e)
  end.

(** The value returned, if any. *)
Definition outcome_value {A} (r : Run A) : option A :=
  match outcome r with Ok a => Some a | Raise _ => None end.

(** A step without scheduler requests. *)
Definition pure {A} (r : result A) : Run A := MkRun [] r.

(** ** core.py: the collection types *)

Record Scalar : Type := {
  s_dask : HighLevelGraph;
  s_name : string;
  s_meta : option Meta
}.

Definition Scalar_dask_keys (s : Scalar) : list Key := [KStr (s_name s)].

Definition new_scalar_object (dsk : HighLevelGraph) (name : string)
    (meta : option Meta) : Scalar :=
  {| s_dask := dsk; s_name := name; s_meta := meta |}.

Record Array : Type := {
  a_dask : HighLevelGraph;
  a_name : string;
  a_meta : option Meta;
  divisions : list (option Z)
}.

(** [len(self.divisions) > 0 and None not in self.divisions] *)
Definition known_divisions (a : Array) : bool :=
  (0 <? len (divisions a)) && forallb (λ d, bool_decide (is_Some d)) (divisions a).

Definition npartitions (a : Array) : Z := len (divisions a) - 1.

(** [[(self.name, i) for i in range(self.npartitions)]] *)
Definition Array_dask_keys (a : Array) : list Key :=
  KPart (a_name a) <$> seqZ 0 (npartitions a).

Definition Array_collection (a : Array) : Collection :=
  {| c_graph := a_dask a; c_layers := {[a_name a]} |}.

Definition with_meta (a : Array) (m : option Meta) : Array :=
  {| a_dask := a_dask a; a_name := a_name a; a_meta := m; divisions := divisions a |}.

Section core.
Context `{Engine}.

(** [_first_partition(array)] *)
Definition _first_partition (array : Array) : Run Computed :=
  key ← pure (getitem (Array_dask_keys array) 0);
  MkRun [(a_dask array, key)] (scheduler_get (a_dask array) key).

(** [_get_typetracer(array)] *)
Definition _get_typetracer (array : Array) : Run Meta :=
  match a_meta array with
  | Some m => mret m
  | None =>
      first_part ← _first_partition array;
      match first_part with
      | AkArray tracer => mret tracer
      | NotAkArray => pure (Raise TypeError)
      end
  end.

(** [new_array_object(dsk, name, meta, npartitions, divisions)] *)
Definition new_array_object (dsk : HighLevelGraph) (name : string)
    (meta : option Meta) (npartitions : option Z)
    (divisions : option (list (option Z))) : Run Array :=
  divisions ← pure (match divisions, npartitions with
                    | None, Some n => Ok (replicate (Z.to_nat (n + 1)) None)
                    | Some _, Some _ => Raise ValueError
                    | None, None => Raise ValueError
                    | Some d, None => Ok d
                    end);
  let array := {| a_dask := dsk; a_name := name; a_meta := meta;
                  divisions := divisions |} in
  match meta with
  | Some _ => mret array
  | None =>
      let attempt := _get_typetracer array in
      match outcome attempt with
      | Ok m => MkRun (requests attempt) (Ok (with_meta array (Some m)))
      | Raise AttributeError | Raise AssertionError | Raise TypeError =>
          MkRun (requests attempt) (Ok (with_meta array None))
      | Raise e => MkRun (requests attempt) (Raise e)
      end
  end.

End core.

(** ** Partition selectors (the part of [dask.array.slicing] and numpy
       that [Array._partitions] relies on) *)

Inductive Selector : Type :=
| SelInt (i : Z)
| SelSlice (start stop step : option Z)
| SelList (l : list Z).

(** The selector after [normalize_index(index, (npartitions,))]: an integer
    in range, a slice resolved against the length, or an array of
    positions. *)
Inductive RawIndex : Type :=
| RawInt (k : Z)
| RawSlice (start stop step : Z)
| RawArray (ks : list Z).

(** [slice(start, stop, step).indices(length)] *)
Definition slice_indices (start stop step : option Z) (length : Z) : result (Z * Z * Z) :=
  let step := default 1 step in
  if step =? 0 then Raise ValueError
  else
    let lower := if step <? 0 then -1 else 0 in
    let upper := if step <? 0 then length - 1 else length in
    let clip v := if v <? 0 then Z.max (v + length) lower else Z.min v upper in
    let start := match start with
                 | None => if step <? 0 then upper else lower
                 | Some v => clip v
                 end in
    let stop := match stop with
                | None => if step <? 0 then lower else upper
                | Some v => clip v
                end in
    Ok (start, stop, step).

(** [normalize_index] on a one-dimensional shape: integers (alone or in a
    list) outside [-n, n) raise IndexError and negative ones are shifted
    by [n]; a slice is resolved against [n] (its canonical rewriting selects
    the same positions). *)
Definition normalize_index (index : Selector) (n : Z) : result RawIndex :=
  let in_range i := (- n <=? i) && (i <? n) in
  let posify i := if i <? 0 then i + n else i in
  match index with
  | SelInt i =>
      if in_range i then Ok (RawInt (posify i)) else Raise IndexError
  | SelList l =>
      if forallb in_range l then Ok (RawArray (posify <$> l)) else Raise IndexError
  | SelSlice start stop step =>
      '(start, stop, step) ← slice_indices start stop step n;
      Ok (RawSlice start stop step)
  end.

(** The positions a normalized selector picks; an integer [k] is used as
    [slice(k, k + 1)]. *)
Definition positions (raw : RawIndex) : list Z :=
  match raw with
  | RawInt k => [k]
  | RawSlice start stop step =>
      match range start stop step with Ok ps => ps | Raise _ => [] end
  | RawArray ks => ks
  end.

(** [keys_array[index].tolist()] *)
Definition take_keys (keys : list Key) (raw : RawIndex) : list Key :=
  omap (λ p, if p <? 0 then None else keys !! Z.to_nat p) (positions raw).

(** ** core.py: graph builders *)

(** Positional and keyword arguments of [map_partitions]: an [Array], some
    other dask collection, or a plain value. *)
Inductive PyArg : Type :=
| ArgArray (a : Array)
| ArgScalar (s : Scalar)
| ArgValue (v : Value).

Definition is_dask_collection (a : PyArg) : bool :=
  match a with ArgValue _ => false | _ => true end.

(** [Scalar.__dask_layers__] *)
Definition Scalar_collection (s : Scalar) : Collection :=
  {| c_graph := s_dask s;
     c_layers := if decide (size (layers (s_dask s)) = 1%nat)
                 then dom (layers (s_dask s)) else {[s_name s]} |}.

Definition arg_collection (a : PyArg) : option Collection :=
  match a with
  | ArgArray a => Some (Array_collection a)
  | ArgScalar s => Some (Scalar_collection s)
  | ArgValue _ => None
  end.

Definition arg_bw (a : PyArg) : BwArg :=
  match a with
  | ArgArray a => BwLayer (a_name a)
  | ArgScalar s => BwLayer (s_name s)
  | ArgValue v => BwLit v
  end.

(** [arg.divisions]: only an [Array] has the attribute. *)
Definition arg_divisions (a : PyArg) : result (list (option Z)) :=
  match a with
  | ArgArray a => Ok (divisions a)
  | _ => Raise AttributeError
  end.

(** [dask.utils.funcname] *)
Definition funcname (c : Callable) : string :=
  match c with
  | operator_getitem => "getitem"
  | lambda_getitem => "lambda"
  | dask_apply => "apply"
  | Fn f => fn_name f
  | Partial f _ => fn_name f
  end.

(** [x - y] on division entries: [None] is not a number. *)
Definition py_sub (x y : option Z) : result Z :=
  match x, y with
  | Some a, Some b => Ok (a - b)
  | _, _ => Raise TypeError
  end.

(** The loop of [partitionwise_layer] over the positional arguments: the
    [(argument, index)] pairs and the dict [numblocks], which has one
    entry for every name of an [Array] argument. *)
Fixpoint partitionwise_pairs (args : list PyArg)
    (pairs : list (BwArg * option string)) (numblocks : gmap string Z)
    : result (list (BwArg * option string) * gmap string Z) :=
  match args with
  | [] => Ok (pairs, numblocks)
  | ArgArray a :: rest =>
      partitionwise_pairs rest (pairs ++ [(BwLayer (a_name a), Some "i")])
        (<[a_name a := npartitions a]> numblocks)
  | ArgScalar _ :: _ => Raise NotImplementedError
  | ArgValue v :: rest =>
      partitionwise_pairs rest (pairs ++ [(BwLit v, None)]) numblocks
  end.

(** How Python binds the keywords [**kwargs] of a call that gives the
    parameters [given] itself, by position or by keyword: a keyword named
    like one of them is a second value for that parameter, and the call
    raises TypeError before the function runs. *)
Definition given_twice {A} (given : list string) (kwargs : list (string * A)) : bool :=
  existsb (λ kv, bool_decide (kv.1 ∈ given)) kwargs.

(** [dask.blockwise.blockwise(func, output, output_indices, *arrind_pairs,
    numblocks=None, concatenate=None, new_axes=None, dependencies=(),
    **kwargs)]: the parameters the call in [partitionwise_layer] gives, and
    the two options it leaves to the keywords. *)
Definition blockwise_given : list string :=
  ["func"; "output"; "output_indices"; "numblocks"; "concatenate"].

Definition blockwise_own : list string := ["new_axes"; "dependencies"].

(** The layer [blockwise] builds for the keywords it hands to [func]: with
    keyword arguments the layer's task is [(apply, func, args, kwargs)]. *)
Definition blockwise_layer (func : Callable) (name : string)
    (pairs : list (BwArg * option string)) (numblocks : gmap string Z)
    (kwargs : list (string * PyArg)) : Blockwise :=
  {| bw_output := name;
     bw_head := match kwargs with [] => func | _ => dask_apply end;
     bw_func := func;
     bw_indices := pairs;
     bw_numblocks := numblocks;
     bw_kwargs := (λ kv, (kv.1, arg_bw kv.2)) <$> kwargs |}.

(** A concrete Awkward array: its length and its typetracer. *)
Record AkSource : Type := {
  src_len : Z;
  src_typetracer : Meta
}.

(** The divisions [Array._partitions] gives its result: for a single
    requested partition of an array with known divisions they are
    [(0, divisions[k + 1] - divisions[k])], otherwise one [None] more than
    there are selected keys. *)
Definition partitions_new_divisions (self : Array) (raw : RawIndex)
    (new_keys : list Key) : result (list (option Z)) :=
  match raw with
  | RawInt k =>
      if known_divisions self then
        hi ← getitem (divisions self) (k + 1);
        lo ← getitem (divisions self) k;
        width ← py_sub hi lo;
        Ok [Some 0; Some width]
      else Ok (replicate (length new_keys + 1) None)
  | _ => Ok (replicate (length new_keys + 1) None)
  end.

Section builders.
Context `{Engine}.

(** [upstream_blockwise(func, name, "i", *pairs, numblocks=numblocks,
    concatenate=True, **kwargs)], the call at the end of
    [partitionwise_layer]: a keyword named like a parameter the call gives
    is a TypeError; [new_axes] and [dependencies] are options of
    [blockwise], not keywords of [func]. *)
Definition upstream_blockwise (func : Callable) (name : string)
    (pairs : list (BwArg * option string)) (numblocks : gmap string Z)
    (kwargs : list (string * PyArg)) : result Blockwise :=
  if given_twice blockwise_given kwargs then Raise TypeError
  else
    let own := filter (λ kv, kv.1 ∈ blockwise_own) kwargs in
    let layer := blockwise_layer func name pairs numblocks
                   (filter (λ kv, kv.1 ∉ blockwise_own) kwargs) in
    match own with
    | [] => Ok layer
    | _ => blockwise_options ((λ kv, (kv.1, arg_bw kv.2)) <$> own) layer
    end.

(** [partitionwise_layer(func, name, *args, **kwargs)] *)
Definition partitionwise_layer (func : Callable) (name : string)
    (args : list PyArg) (kwargs : list (string * PyArg)) : result Blockwise :=
  if given_twice ["func"; "name"] kwargs then Raise TypeError
  else
    '(pairs, numblocks) ← partitionwise_pairs args [] ∅;
    upstream_blockwise func name pairs numblocks kwargs.

(** [Array._partitions(index)] *)
Definition _partitions (self : Array) (index : Selector) : Run Array :=
  let token := tokenize (a_name self, index) in
  raw ← pure (normalize_index index (npartitions self));
  let name := "partitions-" +:+ token in
  let new_keys := take_keys (Array_dask_keys self) raw in
  let dsk := dict_comprehension
               ((λ ik, (KPart name ik.1, TAlias ik.2)) <$> enumerate new_keys) in
  let graph := from_collections name (MaterializedLayer dsk) [Array_collection self] in
  new_divisions ← pure (partitions_new_divisions self raw new_keys);
  new_array_object graph name None None (Some new_divisions).

(** [Array._getitem_boolean_lazy_array(key)] *)
Definition _getitem_boolean_lazy_array (self key : Array) : Run Array :=
  _ ← pure (if known_divisions key && known_divisions self then
              if bool_decide (divisions key ≠ divisions self)
              then Raise ValueError else Ok ()
            else
              if bool_decide (npartitions key ≠ npartitions self)
              then Raise ValueError else Ok ());
  new_meta ← pure (match a_meta key with
                   | Some key_meta =>
                       match a_meta self with
                       | Some self_meta =>
                           m ← ak_getitem self_meta key_meta; Ok (Some m)
                       | None => Raise TypeError
                       end
                   | None => Ok None
                   end);
  let s_keys := Array_dask_keys self in
  let k_keys := Array_dask_keys key in
  let name := "getitem-" +:+ tokenize (a_name self, a_name key) in
  let dsk := dict_comprehension
               ((λ ikk, (KPart name ikk.1,
                         TCall operator_getitem [AKey ikk.2.1; AKey ikk.2.2]))
                  <$> enumerate (zip s_keys k_keys)) in
  let hlg := from_collections name (MaterializedLayer dsk)
               [Array_collection self; Array_collection key] in
  new_array_object hlg name new_meta None (Some (divisions self)).

(** [map_partitions(func, *args, name=None, meta=None, **kwargs)]; [name]
    and [meta] are the parameters of these names, [kwargs] the other
    keywords of the call. *)
Definition map_partitions (func : Callable) (args : list PyArg)
    (name : option string) (meta : option Meta)
    (kwargs : list (string * PyArg)) : Run Array :=
  if given_twice ["func"; "name"; "meta"] kwargs then pure (Raise TypeError)
  else
    let token := tokenize (func, args, kwargs) in
    let name := match name with
                | Some n => if decide (n = "") then funcname func else n
                | None => funcname func
                end in
    let name := name +:+ "-" +:+ token in
    lay ← pure (partitionwise_layer func name args kwargs);
    let deps := omap arg_collection args ++ omap (λ kv, arg_collection kv.2) kwargs in
    let hlg := from_collections name (BlockwiseLayer lay) deps in
    first ← pure (getitem args 0);
    divisions ← pure (arg_divisions first);
    new_array_object hlg name meta None (Some divisions).

(** [pw_reduction_with_agg_to_scalar(array, func, agg, name=None, **kwargs)] *)
Definition pw_reduction_with_agg_to_scalar (array : Array)
    (func agg : Function) (name : option string)
    (kwargs : list (string * Value)) : Scalar :=
  let token := tokenize (a_name array) in
  let name := match name with None => fn_name func | Some n => n end in
  let name := name +:+ "-" +:+ token in
  let func := Partial func kwargs in
  let dsk := dict_comprehension
               ((λ ik, (KPart name ik.1, TCall func [AKey ik.2]))
                  <$> enumerate (Array_dask_keys array)) in
  let dsk := dict_set dsk (KStr name) (TCall (Fn agg) [AKeys (dict_keys dsk)]) in
  let hlg := from_collections name (MaterializedLayer dsk) [Array_collection array] in
  new_scalar_object hlg name None.

(** The divisions of both [from_awkward] definitions:
    [locs = list(range(0, nrows, chunksize)) + [nrows]]. *)
Definition from_awkward_locs (nrows npartitions : Z) : result (list Z) :=
  chunksize ← (if npartitions =? 0 then Raise ZeroDivisionError
               else Ok (ceil_div nrows npartitions));
  starts ← range 0 nrows chunksize;
  Ok (starts ++ [nrows]).

Definition from_awkward_with (meta : Meta) (source : AkSource)
    (npartitions : Z) (name : option string) : Run Array :=
  let name := match name with
              | None => "from-awkward-" +:+ tokenize (source, npartitions)
              | Some n => n
              end in
  let nrows := src_len source in
  locs ← pure (from_awkward_locs nrows npartitions);
  let llg := dict_comprehension
               ((λ iss, (KPart name iss.1, TSlice iss.2.1 iss.2.2))
                  <$> enumerate (zip (removelast locs) (drop 1 locs))) in
  let hlg := from_collections name (MaterializedLayer llg) [] in
  new_array_object hlg name (Some meta) None (Some (Some <$> locs)).

(** io.py: [from_awkward]; the metadata forgets the length. *)
Definition from_awkward (source : AkSource) (npartitions : Z)
    (name : option string) : Run Array :=
  from_awkward_with (forget_length (src_typetracer source)) source npartitions name.

(** core.py: [from_awkward] *)
Definition core_from_awkward (source : AkSource) (npartitions : Z)
    (name : option string) : Run Array :=
  from_awkward_with (src_typetracer source) source npartitions name.

End builders.

(** ** lib/optimize.py: the column-projection optimizer *)

Definition NEW_METHOD : Z := 1.

(** [_is_getitem(layer)]: only a [Blockwise] layer whose task starts with
    [operator.getitem]. A source layer's task starts with its reader. *)
Definition _is_getitem (layer : Layer) : bool :=
  match layer with
  | BlockwiseLayer b => is_operator_getitem (bw_head b)
  | _ => false
  end.

(** An item as an element of a set: a string is itself, another item
    that can be hashed stands by its [repr]. *)
Definition item_hash (i : ListItem) : option string :=
  match i with
  | ItemInt n => Some (pretty n)
  | ItemStr s => Some s
  | ItemOther r => Some r
  | ItemUnhashable _ => None
  end.

(** [set(items)]: TypeError when an item cannot be hashed. *)
Definition set_of_items (items : list ListItem) : result (gset string) :=
  if forallb (λ i, bool_decide (is_Some (item_hash i))) items
  then Ok (list_to_set (omap item_hash items))
  else Raise TypeError.

(** [_requested_columns(layer)]: [fn_arg = layer.indices[1][0]], a list
    gives [set(fn_arg)], anything else [{fn_arg}]; an argument that is a
    collection stands in [indices] by the name of its layer, a string.
    Building the set hashes its elements: TypeError for what cannot be
    hashed. *)
Definition _requested_columns (layer : Layer) : result (gset string) :=
  match layer with
  | BlockwiseLayer b =>
      second ← getitem (bw_indices b) 1;
      match second.1 with
      | BwLit (VStrs l) => Ok (list_to_set l)
      | BwLit (VList items) => set_of_items items
      | BwLit (VStr s) => Ok {[s]}
      | BwLit (VOther r) => Ok {[r]}
      | BwLit (VUnhashable _) => Raise TypeError
      | BwLayer n => Ok {[n]}
      end
  | _ => Raise AttributeError
  end.

(** [isinstance(v, AwkwardIOLayer) and hasattr(v.io_func, "project_columns")] *)
Definition is_pio (v : Layer) : bool :=
  match v with
  | IOLayer l => io_projectable l
  | _ => false
  end.

Definition pio_layer_names (dsk : HighLevelGraph) : list string :=
  (filter (λ nv, is_pio nv.2 = true) (map_to_list (layers dsk))).*1.

(** [d[k]] on a dict of layers *)
Definition lookup_layer (d : gmap string Layer) (k : string) : result Layer :=
  match d !! k with
  | Some v => Ok v
  | None => Raise KeyError
  end.

(** [[k for k in these_deps if _is_getitem(dsk.layers[k])]] *)
Fixpoint getitem_dependents (dsk : HighLevelGraph) (these_deps : list string)
    : result (list string) :=
  match these_deps with
  | [] => Ok []
  | k :: rest =>
      layer ← lookup_layer (layers dsk) k;
      more ← getitem_dependents dsk rest;
      Ok (if _is_getitem layer then k :: more else more)
  end.

(** [for gid in getitem_dependents: seed_columns |= _requested_columns(dsk.layers[gid])] *)
Fixpoint union_requested (dsk : HighLevelGraph) (gids : list string)
    (seed_columns : gset string) : result (gset string) :=
  match gids with
  | [] => Ok seed_columns
  | gid :: rest =>
      layer ← lookup_layer (layers dsk) gid;
      cols ← _requested_columns layer;
      union_requested dsk rest (seed_columns ∪ cols)
  end.

(** The seed set of one source layer. *)
Definition seed_columns (dsk : HighLevelGraph) (pio_layer_name : string)
    : result (gset string) :=
  match dependents dsk !! pio_layer_name with
  | None => Raise KeyError
  | Some these_deps =>
      gids ← getitem_dependents dsk (elements these_deps);
      union_requested dsk gids ∅
  end.

(** The loop over [pio_layer_names], updating the copy [layers]. *)
Fixpoint project_layers (dsk : HighLevelGraph) (names : list string)
    (layers : gmap string Layer) : result (gmap string Layer) :=
  match names with
  | [] => Ok layers
  | pio_layer_name :: rest =>
      seed ← seed_columns dsk pio_layer_name;
      if decide (seed = ∅) then project_layers dsk rest layers
      else
        layer ← lookup_layer layers pio_layer_name;
        match layer with
        | IOLayer l =>
            let new_layer := IOLayer (project_columns l (elements seed)) in
            project_layers dsk rest (<[pio_layer_name := new_layer]> layers)
        | _ => Raise AttributeError
        end
  end.

(** [optimize_iolayer_columns(dsk)], the branch taken for [NEW_METHOD = 1]. *)
Definition optimize_iolayer_columns (dsk : HighLevelGraph) : result HighLevelGraph :=
  let names := pio_layer_names dsk in
  match names with
  | [] => Ok dsk
  | _ =>
      layers' ← project_layers dsk names (layers dsk);
      Ok {| layers := layers'; dependencies := dependencies dsk |}
  end.

(** What the code collects for the source layer [n]: [c] is in what
    [_requested_columns] returns for a direct dependent of [n] that
    [_is_getitem] accepts. *)
Definition seeded_by (dsk : HighLevelGraph) (n c : string) : Prop :=
  ∃ k vs b cols,
    dependencies dsk !! k = Some vs ∧ n ∈ vs ∧
    layers dsk !! k = Some (BlockwiseLayer b) ∧
    is_operator_getitem (bw_head b) = true ∧
    _requested_columns (BlockwiseLayer b) = Ok cols ∧ c ∈ cols.

(** Following the spec, not the code: a field selection indexes by a field
    name or by a list of field names, and the fields it requests are that
    name, or the names of the list. A key of any other shape is not the key
    of a field selection. *)
Definition requested_fields (key : Value) : option (gset string) :=
  match key with
  | VStr name => Some {[name]}
  | VStrs names => Some (list_to_set names)
  | _ => None
  end.

(** Following the spec, not the code: the layer [b] is a field selection
    with the key [key], the second argument of its [operator.getitem]. *)
Definition field_selection (b : Blockwise) (key : Value) : Prop :=
  bw_head b = operator_getitem ∧
  ∃ index, bw_indices b !! 1%nat = Some (BwLit key, index).



(** The graphs of [hlg_wf], but that a layer applying [operator.getitem]
    may also have a key that cannot be hashed. *)
Definition hlg_wf_or_unhashable (g : HighLevelGraph) : Prop :=
  dom (layers g) = dom (dependencies g) ∧
  ∀ k b, layers g !! k = Some (BlockwiseLayer b) →
         bw_head b = operator_getitem →
         ∃ key, field_selection b key ∧
                (is_Some (requested_fields key) ∨ ∃ repr, key = VUnhashable repr).

(** ** core.py: further methods of [Array] *)

(** [Array.clear_divisions()]: the array afterwards. *)
Definition clear_divisions (self : Array) : Array :=
  {| a_dask := a_dask self; a_name := a_name self; a_meta := a_meta self;
     divisions := replicate (Z.to_nat (npartitions self + 1)) None |}.

(** The [(argument, index)] pair [partitionwise_layer] makes of one
    positional argument that is not some other dask collection. *)
Definition blockwise_pair (arg : PyArg) : BwArg * option string :=
  match arg with
  | ArgArray a => (BwLayer (a_name a), Some "i")
  | ArgScalar s => (BwLayer (s_name s), Some "i")
  | ArgValue v => (BwLit v, None)
  end.

(** [numblocks] after the positional arguments [args]. *)
Definition numblocks_from (numblocks : gmap string Z) (args : list PyArg) : gmap string Z :=
  foldl (λ nb arg, match arg with
                   | ArgArray a => <[a_name a := npartitions a]> nb
                   | _ => nb
                   end) numblocks args.

(** The names a keyword must not have to reach the function that
    [map_partitions] maps: the parameters of [map_partitions] and of
    [partitionwise_layer], and those of [dask.blockwise.blockwise]. *)
Definition reserved_keywords : list string :=
  ["func"; "name"; "meta"] ++ blockwise_given ++ blockwise_own.

Definition function_keywords {A} (kwargs : list (string * A)) : bool :=
  negb (given_twice reserved_keywords kwargs).

Definition is_other_collection (arg : PyArg) : bool :=
  match arg with ArgScalar _ => true | _ => false end.

(** ** core.py: [TrivialPartitionwiseOp] *)

(** A value passed by keyword: an Awkward array (by its placeholder) or any
    other argument. [None] is the plain value whose [repr] is ["None"]. *)
Inductive KwValue : Type :=
| KwAk (m : Meta)
| KwArg (a : PyArg).

Definition py_None : Value := VOther "None".
Definition py_bool (b : bool) : Value := VOther (if b then "True" else "False").
Definition py_int (n : Z) : Value := VOther (pretty n).
Definition kw (v : Value) : KwValue := KwArg (ArgValue v).

Definition is_None (a : PyArg) : bool :=
  match a with
  | ArgValue (VOther r) => bool_decide (r = "None")
  | _ => false
  end.

(** The keyword value as the function of the layer receives it. *)
Definition kw_arg (v : KwValue) : PyArg :=
  match v with
  | KwAk m => ArgValue (VUnhashable m)
  | KwArg a => a
  end.

(** A keyword [dict], in insertion order. *)
Definition Kwargs : Type := list (string * KwValue).

(** [d[k] = v]: an existing key keeps its place, a new one goes last. *)
Fixpoint kwargs_set (d : Kwargs) (k : string) (v : KwValue) : Kwargs :=
  match d with
  | [] => [(k, v)]
  | (k', v') :: d' =>
      if decide (k' = k) then (k, v) :: d' else (k', v') :: kwargs_set d' k v
  end.

(** The keys after [d[k] = v]. *)
Definition add_key (ks : list string) (k : string) : list string :=
  if decide (k ∈ ks) then ks else ks ++ [k].

(** [d.get(k)] *)
Fixpoint kwargs_get (d : Kwargs) (k : string) : option KwValue :=
  match d with
  | [] => None
  | (k', v') :: d' => if decide (k' = k) then Some v' else kwargs_get d' k
  end.

(** [for k, v in kwargs.items(): d[k] = v] *)
Definition kwargs_update (d kwargs : Kwargs) : Kwargs :=
  foldl (λ d kv, kwargs_set d kv.1 kv.2) d kwargs.

Record TrivialPartitionwiseOp : Type := {
  op_func : Function;
  op_name : string;
  op_kwargs : Kwargs
}.

(** The object [TrivialPartitionwiseOp.__init__] makes of its arguments. *)
Definition TrivialPartitionwiseOp_new (func : Function) (name : option string)
    (kwargs : Kwargs) : TrivialPartitionwiseOp :=
  {| op_func := func;
     op_name := match name with None => fn_name func | Some n => n end;
     op_kwargs := kwargs_update [] kwargs |}.

(** [TrivialPartitionwiseOp(func, name=name, **kwargs)]: a keyword named
    [self], [func] or [name] is a second value for that parameter. *)
Definition TrivialPartitionwiseOp_init (func : Function) (name : option string)
    (kwargs : Kwargs) : result TrivialPartitionwiseOp :=
  if given_twice ["self"; "func"; "name"] kwargs then Raise TypeError
  else Ok (TrivialPartitionwiseOp_new func name kwargs).

Section trivial_op.
Context `{Engine}.

(** The call [map_partitions(func, collection, name=name, **kwargs)] as
    Python binds it: a keyword [func] or [name] is a second value for that
    parameter (TypeError); a keyword [meta] is the parameter [meta], and
    what is neither [None] nor an Awkward array is refused by the setter of
    [Array.meta] (TypeError) when the result is constructed, which is the
    last step: what raises before that, raises; every other keyword is one
    of the [kwargs] of [map_partitions]. *)
Definition map_partitions_keywords (func : Callable) (collection : Array)
    (name : string) (kwargs : Kwargs) : Run Array :=
  if bool_decide ("func" ∈ kwargs.*1 ∨ "name" ∈ kwargs.*1) then pure (Raise TypeError)
  else
    let rest := (λ kv, (kv.1, kw_arg kv.2)) <$> filter (λ kv, kv.1 ≠ "meta") kwargs in
    match kwargs_get kwargs "meta" with
    | None => map_partitions func [ArgArray collection] (Some name) None rest
    | Some (KwAk m) => map_partitions func [ArgArray collection] (Some name) (Some m) rest
    | Some (KwArg a) =>
        if is_None a
        then map_partitions func [ArgArray collection] (Some name) None rest
        else
          (* up to the construction of the result the metadata is not
             looked at: the steps are those of a call with a placeholder *)
          _ ← map_partitions func [ArgArray collection] (Some name) (Some "") rest;
          pure (Raise TypeError)
    end.

(** [TrivialPartitionwiseOp.__call__(collection, **kwargs)]: the operator
    afterwards, and the collection built. A keyword named [self] or
    [collection] is a second value for that parameter: the call raises
    TypeError before the operator stores anything. *)
Definition TrivialPartitionwiseOp_call (self : TrivialPartitionwiseOp)
    (collection : Array) (kwargs : Kwargs) : TrivialPartitionwiseOp * Run Array :=
  if given_twice ["self"; "collection"] kwargs then (self, pure (Raise TypeError))
  else
    let self' := {| op_func := op_func self; op_name := op_name self;
                    op_kwargs := kwargs_update (op_kwargs self) kwargs |} in
    (self', map_partitions_keywords (Fn (op_func self')) collection (op_name self')
              (op_kwargs self')).

(** The calls whose keywords Python binds. *)
Definition bound_call (call : Array * Kwargs) : bool :=
  negb (given_twice ["self"; "collection"] call.2).

(** The operator after a sequence of calls. *)
Definition TrivialPartitionwiseOp_calls (self : TrivialPartitionwiseOp)
    (calls : list (Array * Kwargs)) : TrivialPartitionwiseOp :=
  foldl (λ op c, (TrivialPartitionwiseOp_call op c.1 c.2).1) self calls.

End trivial_op.

(** ** The value engine on placeholders *)

(** What indexing a placeholder gives: an array, a record, one of the
    scalar placeholders of the typetracer, or something else. *)
Inductive MetaValue : Type :=
| MetaArray (m : Meta)
| MetaRecord (m : Meta)
| MetaUnknownScalar
| MetaOneOf
| MetaMaybeNone
| MetaOther.

(** The keys [Array.__getitem__] tells apart. *)
Inductive GetitemKey : Type :=
| KeyStr (s : string)
| KeyList (items : list ListItem)
| KeySlice (start stop step : option Z)
| KeyEllipsis
| KeyInt (i : Z)
| KeyArray (a : Array)
| KeyTuple (repr : string)
| KeyOther (repr : string).

(** The operations of Awkward Array on metadata placeholders: [meta.ndim],
    [meta[key]], and whether [meta.layout.content.dtype.type] is a boolean
    type (a layout without [content] has no such attribute). *)
Class Awkward : Type := {
  meta_ndim : Meta → Z;
  meta_getitem : Meta → GetitemKey → result MetaValue;
  boolean_content : Meta → result bool
}.

(** ** reducers.py *)

Definition ak_count : Function := {| fn_name := "count" |}.
Definition ak_count_nonzero : Function := {| fn_name := "count_nonzero" |}.
Definition ak_min : Function := {| fn_name := "min" |}.
Definition ak_max : Function := {| fn_name := "max" |}.
Definition ak_sum : Function := {| fn_name := "sum" |}.
Definition ak_std : Function := {| fn_name := "std" |}.

#[global] Instance Function_eq_dec : EqDecision Function.
Proof. solve_decision. Defined.

(** The module-level operators; every call of a reducer works on them. *)
Record Reducers : Type := {
  _count_trivial : TrivialPartitionwiseOp;
  _count_nonzero_trivial : TrivialPartitionwiseOp;
  _min_trivial : TrivialPartitionwiseOp;
  _max_trivial : TrivialPartitionwiseOp;
  _sum_trivial : TrivialPartitionwiseOp;
  _std_trivial : TrivialPartitionwiseOp
}.

(** The operators as the module defines them: each
    [TrivialPartitionwiseOp(f, axis=1)]. *)
Definition reducers_module : Reducers :=
  let op f := TrivialPartitionwiseOp_new f None [("axis", kw (py_int 1))] in
  {| _count_trivial := op ak_count;
     _count_nonzero_trivial := op ak_count_nonzero;
     _min_trivial := op ak_min;
     _max_trivial := op ak_max;
     _sum_trivial := op ak_sum;
     _std_trivial := op ak_std |}.

Definition set_count_trivial (st : Reducers) (op : TrivialPartitionwiseOp) : Reducers :=
  {| _count_trivial := op;
     _count_nonzero_trivial := _count_nonzero_trivial st;
     _min_trivial := _min_trivial st; _max_trivial := _max_trivial st;
     _sum_trivial := _sum_trivial st; _std_trivial := _std_trivial st |}.

Definition set_count_nonzero_trivial (st : Reducers) (op : TrivialPartitionwiseOp) : Reducers :=
  {| _count_trivial := _count_trivial st;
     _count_nonzero_trivial := op;
     _min_trivial := _min_trivial st; _max_trivial := _max_trivial st;
     _sum_trivial := _sum_trivial st; _std_trivial := _std_trivial st |}.

Definition set_min_trivial (st : Reducers) (op : TrivialPartitionwiseOp) : Reducers :=
  {| _count_trivial := _count_trivial st;
     _count_nonzero_trivial := _count_nonzero_trivial st;
     _min_trivial := op; _max_trivial := _max_trivial st;
     _sum_trivial := _sum_trivial st; _std_trivial := _std_trivial st |}.

Definition set_max_trivial (st : Reducers) (op : TrivialPartitionwiseOp) : Reducers :=
  {| _count_trivial := _count_trivial st;
     _count_nonzero_trivial := _count_nonzero_trivial st;
     _min_trivial := _min_trivial st; _max_trivial := op;
     _sum_trivial := _sum_trivial st; _std_trivial := _std_trivial st |}.

Definition set_sum_trivial (st : Reducers) (op : TrivialPartitionwiseOp) : Reducers :=
  {| _count_trivial := _count_trivial st;
     _count_nonzero_trivial := _count_nonzero_trivial st;
     _min_trivial := _min_trivial st; _max_trivial := _max_trivial st;
     _sum_trivial := op; _std_trivial := _std_trivial st |}.

Definition set_std_trivial (st : Reducers) (op : TrivialPartitionwiseOp) : Reducers :=
  {| _count_trivial := _count_trivial st;
     _count_nonzero_trivial := _count_nonzero_trivial st;
     _min_trivial := _min_trivial st; _max_trivial := _max_trivial st;
     _sum_trivial := _sum_trivial st; _std_trivial := op |}.

(** What a reducer returns: an [Array] or a [Scalar]. *)
Inductive LazyResult : Type :=
| LazyArray (a : Array)
| LazyScalar (s : Scalar).

(** Modelled from the spec: [DaskAwkwardNotImplemented], which reducers.py
    imports from core.py, is not defined in the source files; the spec has
    what is unsupported rejected as unsupported, and the exception is taken
    to be a [NotImplementedError]. *)
Definition DaskAwkwardNotImplemented : Exn := NotImplementedError.

Module reducers.
Section reducers.
Context `{Engine} `{Awkward}.

(** [Array.ndim] *)
Definition Array_ndim (array : Array) : option Z := meta_ndim <$> a_meta array.

Definition run_map {A B} (f : A → B) (r : Run A) : Run B :=
  a ← r; mret (f a).

(** The keywords [keepdims], [mask_identity], [flatten_records]. *)
Definition reducer_flags (keepdims mask_identity flatten_records : bool)
    : list (string * Value) :=
  [("keepdims", py_bool keepdims); ("mask_identity", py_bool mask_identity);
   ("flatten_records", py_bool flatten_records)].

Definition as_kwargs (kwargs : list (string * Value)) : Kwargs :=
  (λ kv, (kv.1, kw kv.2)) <$> kwargs.

(** [count(array, axis, keepdims, mask_identity, flatten_records)] *)
Definition count (st : Reducers) (array : Array) (axis : option Z)
    (keepdims mask_identity flatten_records : bool) : Reducers * Run LazyResult :=
  let trivial ax :=
    TrivialPartitionwiseOp_call (_count_trivial st) array
      (as_kwargs (("axis", py_int ax)
                  :: reducer_flags keepdims mask_identity flatten_records)) in
  match axis with
  | None =>
      let '(op, trivial_result) := trivial 1 in
      (set_count_trivial st op,
       run_map (λ r, LazyScalar (pw_reduction_with_agg_to_scalar r ak_sum ak_sum None []))
         trivial_result)
  | Some a =>
      if a =? 1 then
        let '(op, r) := trivial a in (set_count_trivial st op, run_map LazyArray r)
      else if a =? 0 then (st, pure (Raise DaskAwkwardNotImplemented))
      else match Array_ndim array with
           | None => (st, pure (Raise TypeError))
           | Some nd =>
               if a =? -1 * nd then (st, pure (Raise DaskAwkwardNotImplemented))
               else (st, pure (Raise ValueError))
           end
  end.

(** [count_nonzero(array, axis, keepdims, mask_identity, flatten_records)] *)
Definition count_nonzero (st : Reducers) (array : Array) (axis : option Z)
    (keepdims mask_identity flatten_records : bool) : Reducers * Run LazyResult :=
  let trivial :=
    TrivialPartitionwiseOp_call (_count_nonzero_trivial st) array
      (as_kwargs (("axis", py_int 1) :: reducer_flags false false false)) in
  match axis with
  | None =>
      let '(op, trivial_result) := trivial in
      (set_count_nonzero_trivial st op,
       run_map (λ r, LazyScalar (pw_reduction_with_agg_to_scalar r ak_sum ak_sum None []))
         trivial_result)
  | Some a =>
      if a =? 1 then
        let '(op, r) := trivial in (set_count_nonzero_trivial st op, run_map LazyArray r)
      else if a =? 0 then (st, pure (Raise DaskAwkwardNotImplemented))
      else match Array_ndim array with
           | None => (st, pure (Raise TypeError))
           | Some nd =>
               if a =? -1 * nd then (st, pure (Raise DaskAwkwardNotImplemented))
               else (st, pure (Raise ValueError))
           end
  end.

(** [_min_or_max(f, array, axis, **kwargs)], with the keywords [min] and
    [max] pass: [keepdims], [initial], [mask_identity], [flatten_records]. *)
Definition _min_or_max (f : Function) (st : Reducers) (array : Array) (axis : option Z)
    (keepdims : bool) (initial : Value) (mask_identity flatten_records : bool)
    : Reducers * Run LazyResult :=
  let kwargs := [("keepdims", py_bool keepdims); ("initial", initial);
                 ("mask_identity", py_bool mask_identity);
                 ("flatten_records", py_bool flatten_records)] in
  let axis := match axis, Array_ndim array with
              | Some a, Some nd => if a <? 0 then Some (nd + a + 1) else Some a
              | _, _ => axis
              end in
  let is_min := bool_decide (f = ak_min) in
  let tf := if is_min then _min_trivial st else _max_trivial st in
  match axis with
  | None =>
      (st, mret (LazyScalar (pw_reduction_with_agg_to_scalar array f f None kwargs)))
  | Some a =>
      if a =? 1 then
        let '(op, r) := TrivialPartitionwiseOp_call tf array
                          (as_kwargs (("axis", py_int a) :: kwargs)) in
        (if is_min then set_min_trivial st op else set_max_trivial st op,
         run_map LazyArray r)
      else match Array_ndim array with
           | Some nd =>
               if (a =? 0) || (a =? -1 * nd)
               then (st, pure (Raise DaskAwkwardNotImplemented))
               else (st, pure (Raise ValueError))
           | None => (st, pure (Raise ValueError))
           end
  end.

(** [max(array, axis, keepdims, initial, mask_identity, flatten_records)] *)
Definition max (st : Reducers) (array : Array) (axis : option Z)
    (keepdims : bool) (initial : Value) (mask_identity flatten_records : bool)
    : Reducers * Run LazyResult :=
  _min_or_max ak_max st array axis keepdims initial mask_identity flatten_records.

(** [min(array, axis, keepdims, initial, mask_identity, flatten_records)] *)
Definition min (st : Reducers) (array : Array) (axis : option Z)
    (keepdims : bool) (initial : Value) (mask_identity flatten_records : bool)
    : Reducers * Run LazyResult :=
  _min_or_max ak_min st array axis keepdims initial mask_identity flatten_records.

(** [std(x, weight, ddof, axis, keepdims, mask_identity, flatten_records)];
    [weight] is [None] or a value. *)
Definition std (st : Reducers) (x : Array) (weight : option Value) (ddof : Z)
    (axis : option Z) (keepdims mask_identity flatten_records : bool)
    : Reducers * Run LazyResult :=
  match weight with
  | Some _ => (st, pure (Raise DaskAwkwardNotImplemented))
  | None =>
      if bool_decide (axis = Some 1) then
        let '(op, r) :=
          TrivialPartitionwiseOp_call (_std_trivial st) x
            (as_kwargs (("weight", py_None) :: ("ddof", py_int ddof)
                        :: ("axis", py_int 1)
                        :: reducer_flags keepdims mask_identity flatten_records)) in
        (set_std_trivial st op, run_map LazyArray r)
      else (st, pure (Raise DaskAwkwardNotImplemented))
  end.

(** [sum(array, axis, keepdims, mask_identity, flatten_records)] *)
Definition sum (st : Reducers) (array : Array) (axis : option Z)
    (keepdims mask_identity flatten_records : bool) : Reducers * Run LazyResult :=
  let axis := match axis with
              | Some a =>
                  if a <? 0 then
                    match Array_ndim array with
                    | Some nd => Ok (Some (nd + a + 1))
                    | None => Raise TypeError
                    end
                  else Ok (Some a)
              | None => Ok None
              end in
  match axis with
  | Raise e => (st, pure (Raise e))
  | Ok None =>
      (st, mret (LazyScalar (pw_reduction_with_agg_to_scalar array ak_sum ak_sum None [])))
  | Ok (Some a) =>
      if a =? 1 then
        let '(op, r) := TrivialPartitionwiseOp_call (_sum_trivial st) array
                          (as_kwargs (reducer_flags false false false)) in
        (set_sum_trivial st op, run_map LazyArray r)
      else if a =? 0 then (st, pure (Raise DaskAwkwardNotImplemented))
      else (st, pure (Raise ValueError))
  end.

(** A call of one of the reducers that are implemented. *)
Inductive ReducerCall : Type :=
| CallCount (array : Array) (axis : option Z)
    (keepdims mask_identity flatten_records : bool)
| CallCountNonzero (array : Array) (axis : option Z)
    (keepdims mask_identity flatten_records : bool)
| CallMax (array : Array) (axis : option Z)
    (keepdims : bool) (initial : Value) (mask_identity flatten_records : bool)
| CallMin (array : Array) (axis : option Z)
    (keepdims : bool) (initial : Value) (mask_identity flatten_records : bool)
| CallStd (x : Array) (weight : option Value) (ddof : Z) (axis : option Z)
    (keepdims mask_identity flatten_records : bool)
| CallSum (array : Array) (axis : option Z)
    (keepdims mask_identity flatten_records : bool).

Definition reduce (st : Reducers) (c : ReducerCall) : Reducers * Run LazyResult :=
  match c with
  | CallCount a ax k m f => count st a ax k m f
  | CallCountNonzero a ax k m f => count_nonzero st a ax k m f
  | CallMax a ax k i m f => max st a ax k i m f
  | CallMin a ax k i m f => min st a ax k i m f
  | CallStd x w d ax k m f => std st x w d ax k m f
  | CallSum a ax k m f => sum st a ax k m f
  end.

(** The module state after a sequence of calls. *)
Definition reducers_after (calls : list ReducerCall) : Reducers :=
  foldl (λ st c, (reduce st c).1) reducers_module calls.

End reducers.
End reducers.

(** ** core.py: [_finalize_array] *)

(** What the scheduler hands back for one key, as [_finalize_array] tells
    results apart: an Awkward array, an [int] (a [bool] is one, as
    [isinstance(r, int)] has it), or something else. *)
Inductive PartitionResult : Type :=
| ResAk (typetracer : Meta)
| ResInt (n : Z)
| ResOther.

(** What [_finalize_array] returns: the call [ak.concatenate(results)],
    whatever the value engine makes of it, a bare integer, or
    [ak.Array(results)] on integers. *)
Inductive Finalized : Type :=
| FinConcatenate (results : list PartitionResult)
| FinInt (n : Z)
| FinArray (items : list Z).

(** The integers [ak.Array] takes: [ak.from_iter] casts a Python [int] to a
    64-bit integer, and the cast of one that does not fit raises
    RuntimeError. *)
Definition int64 (n : Z) : bool := (- 2 ^ 63 <=? n) && (n <? 2 ^ 63).

Definition is_ak_array (r : PartitionResult) : bool :=
  match r with ResAk _ => true | _ => false end.

Definition as_int (r : PartitionResult) : option Z :=
  match r with ResInt n => Some n | _ => None end.

(** [_finalize_array(results)] *)
Definition _finalize_array (results : list PartitionResult) : result Finalized :=
  if existsb is_ak_array results then Ok (FinConcatenate results)
  else
    match results with
    | [ResInt n] => Ok (FinInt n)
    | _ =>
        if forallb (λ r, bool_decide (is_Some (as_int r))) results
        then
          if forallb int64 (omap as_int results)
          then Ok (FinArray (omap as_int results))
          else Raise RuntimeError
        else
          (* the message reads [results[0]] *)
          _ ← getitem results 0;
          Raise RuntimeError
    end.

(** ** core.py: [calculate_known_divisions] *)

(** What the scheduler returns for a key of a layer that applies [len] to
    a partition: the length, or what computing it raises. *)
Class Scheduler : Type := {
  partition_len : HighLevelGraph → Key → result Z
}.

Definition builtin_len : Function := {| fn_name := "len" |}.

(** [np.cumsum] *)
Fixpoint cumsum_from (acc : Z) (l : list Z) : list Z :=
  match l with
  | [] => []
  | x :: l' => (acc + x) :: cumsum_from (acc + x) l'
  end.

Definition cumsum (l : list Z) : list Z := cumsum_from 0 l.

(** [np.cumsum(nums)] on what [compute()] returned; on lengths that is an
    integer or an array of integers, never a concatenation. *)
Definition np_cumsum (nums : Finalized) : result (list Z) :=
  match nums with
  | FinArray items => Ok (cumsum items)
  | FinInt n => Ok [n]
  | FinConcatenate _ => Raise TypeError
  end.

(** The divisions, when all of them are known. *)
Definition known_values (d : list (option Z)) : list Z := omap id d.

Section divisions.
Context `{Engine} `{Scheduler}.

(** [lens.compute()] for [lens = array.map_partitions(len)]: every key is
    computed, in order, and the results go through [_finalize_array]. *)
Definition compute_lengths (lens : Array) : Run Finalized :=
  results ← foldr (λ k rest,
                     n ← MkRun [(a_dask lens, k)] (partition_len (a_dask lens) k);
                     ns ← rest;
                     mret (ResInt n :: ns))
                  (mret []) (Array_dask_keys lens);
  pure (_finalize_array results).

(** [calculate_known_divisions(array)]. In the last case the collection
    has one partition, [compute()] returns its length and the result is
    [(0, length)]; a collection without partition does not get there, its
    [map_partitions] has raised IndexError. *)
Definition calculate_known_divisions (array : Array) : Run (list Z) :=
  if known_divisions array then mret (known_values (divisions array))
  else
    lens ← map_partitions (Fn builtin_len) [ArgArray array] None None [];
    nums ← compute_lengths lens;
    if 1 <? npartitions array then
      cs ← pure (np_cumsum nums);
      mret (0 :: cs)
    else
      match nums with
      | FinInt n => mret [0; n]
      | _ => pure (Raise TypeError)
      end.

End divisions.

(** ** core.py: [Array.__getitem__] and [Record.__getitem__] *)

(** Modelled from the spec: [is_empty_slice], which core.py imports from
    utils.py, is not defined in the source files. The spec has the empty
    slice as a key category of its own, passed through unchanged; the key
    is taken to be the slice [[:]] without start, stop and step. *)
Definition is_empty_slice (key : GetitemKey) : bool :=
  match key with
  | KeySlice None None None => true
  | _ => false
  end.

Definition is_int_item (i : ListItem) : bool :=
  match i with ItemInt _ => true | _ => false end.

Definition item_string (i : ListItem) : option string :=
  match i with ItemStr s => Some s | _ => None end.

Definition option_repr (x : option Z) : string :=
  match x with None => "None" | Some n => pretty n end.

(** A key as it stands in a task. *)
Definition key_arg (key : GetitemKey) : PyArg :=
  match key with
  | KeyStr s => ArgValue (VStr s)
  | KeyList items =>
      if forallb (λ i, bool_decide (is_Some (item_string i))) items
      then ArgValue (VStrs (omap item_string items))
      else ArgValue (VList items)
  | KeySlice start stop step =>
      ArgValue (VUnhashable ("slice(" +:+ option_repr start +:+ ", " +:+ option_repr stop
                             +:+ ", " +:+ option_repr step +:+ ")"))
  | KeyEllipsis => ArgValue (VOther "Ellipsis")
  | KeyInt i => ArgValue (py_int i)
  | KeyArray a => ArgArray a
  | KeyTuple r => ArgValue (VOther r)
  | KeyOther r => ArgValue (VOther r)
  end.

(** A [Record]: its metadata, when it has some, is a record placeholder. *)
Record RecordObject : Type := {
  r_dask : HighLevelGraph;
  r_name : string;
  r_meta : option Meta
}.

(** A [Scalar] made by indexing; its metadata is what indexing the
    placeholder gave. *)
Record ScalarObject : Type := {
  so_dask : HighLevelGraph;
  so_name : string;
  so_meta : MetaValue
}.

Inductive GetitemResult : Type :=
| GotArray (a : Array)
| GotRecord (r : RecordObject)
| GotScalar (s : ScalarObject).

(** [Record.__dask_layers__], inherited from [Scalar] *)
Definition Record_collection (r : RecordObject) : Collection :=
  {| c_graph := r_dask r;
     c_layers := if decide (size (layers (r_dask r)) = 1%nat)
                 then dom (layers (r_dask r)) else {[r_name r]} |}.

Definition with_divisions (a : Array) (d : list (option Z)) : Array :=
  {| a_dask := a_dask a; a_name := a_name a; a_meta := a_meta a; divisions := d |}.

(** [isinstance(new_meta, ak.Record) or ... UnknownScalar ... OneOf ...
    MaybeNone] *)
Definition is_scalar_like (v : MetaValue) : bool :=
  match v with
  | MetaRecord _ | MetaUnknownScalar | MetaOneOf | MetaMaybeNone => true
  | _ => false
  end.

Section getitem.
Context `{Engine} `{Awkward} `{Scheduler}.

(** [Array._getitem_trivial_inner(key)] *)
Definition _getitem_trivial_inner (self : Array) (key : GetitemKey) : Run Array :=
  let token := tokenize (a_name self, key) in
  let name := "getitem-" +:+ token in
  graphlayer ← pure (partitionwise_layer lambda_getitem name [ArgArray self]
                       [("gikey", key_arg key)]);
  let hlg := from_collections name (BlockwiseLayer graphlayer) [Array_collection self] in
  meta ← pure (match a_meta self with
               | Some m => v ← meta_getitem m key; Ok (Some v)
               | None => Ok None
               end);
  match meta with
  | None => new_array_object hlg name None None (Some (divisions self))
  | Some (MetaArray m) => new_array_object hlg name (Some m) None (Some (divisions self))
  | Some _ =>
      (* [Array.__init__] sets [meta] through its setter, which refuses
         what is neither [None] nor an Awkward array *)
      pure (Raise TypeError)
  end.

(** [Array._getitem_single_int(key)]: the array afterwards (its divisions
    are set, once they are calculated) and what is returned. *)
Definition _getitem_single_int (self : Array) (key : Z) : Array * Run GetitemResult :=
  let calculated := calculate_known_divisions self in
  match outcome calculated with
  | Raise e => (self, MkRun (requests calculated) (Raise e))
  | Ok d =>
      let self := with_divisions self (Some <$> d) in
      (self,
       _ ← MkRun (requests calculated) (Ok ());
       '(pidx, key) ← pure (normalize_single_outer_inner_index d key);
       partition ← _partitions self (SelInt pidx);
       new_meta ← pure (match a_meta partition with
                        | Some m => meta_getitem m (KeyInt key)
                        | None => Raise TypeError
                        end);
       match new_meta with
       | MetaArray _ =>
           result ← _getitem_trivial_inner partition (KeyInt key);
           mret (GotArray (with_divisions result [Some 0; None]))
       | _ =>
           if is_scalar_like new_meta then
             let token := tokenize (a_name partition, key) in
             let name := "getitem-" +:+ token in
             first ← pure (getitem (Array_dask_keys partition) 0);
             let dsk := dict_comprehension
                          [(KStr name,
                            TCall lambda_getitem [AKey first; AVal (py_int key)])] in
             let hlg := from_collections name (MaterializedLayer dsk)
                          [Array_collection partition] in
             match new_meta with
             | MetaRecord m =>
                 mret (GotRecord {| r_dask := hlg; r_name := name; r_meta := Some m |})
             | _ =>
                 mret (GotScalar {| so_dask := hlg; so_name := name;
                                    so_meta := new_meta |})
             end
           else pure (Raise NotImplementedError)
       end)
  end.

(** [Array.__getitem__(key)]: the array afterwards and what is returned. *)
Definition Array_getitem (self : Array) (key : GetitemKey) : Array * Run GetitemResult :=
  let trivial := (self, a ← _getitem_trivial_inner self key; mret (GotArray a)) in
  let unsupported := (self, pure (Raise NotImplementedError)) in
  match key with
  | KeyList items => if existsb is_int_item items then unsupported else trivial
  | KeyStr _ => trivial
  | KeySlice _ _ _ => if is_empty_slice key then trivial else unsupported
  | KeyEllipsis => trivial
  | KeyInt i => _getitem_single_int self i
  | KeyArray k =>
      (* [key.layout] *)
      match a_meta k with
      | None => (self, pure (Raise ValueError))
      | Some m =>
          match boolean_content m with
          | Raise e => (self, pure (Raise e))
          | Ok true =>
              (self, a ← _getitem_boolean_lazy_array self k; mret (GotArray a))
          | Ok false => unsupported
          end
      end
  | KeyTuple _ => unsupported
  | KeyOther _ => unsupported
  end.



(** [Record.__getitem__(key)] *)
Definition Record_getitem (self : RecordObject) (key : string) : Run GetitemResult :=
  let token := tokenize (r_name self, key) in
  let name := "getitem-" +:+ token in
  new_meta ← pure (match r_meta self with
                   | Some m => meta_getitem m (KeyStr key)
                   | None => Raise TypeError
                   end);
  let task := TCall operator_getitem [AKey (KStr (r_name self)); AVal (VStr key)] in
  match new_meta with
  | MetaArray m =>
      let graphlayer := dict_comprehension [(KPart name 0, task)] in
      let hlg := from_collections name (MaterializedLayer graphlayer)
                   [Record_collection self] in
      a ← new_array_object hlg name (Some m) (Some 1) None;
      mret (GotArray a)
  | _ =>
      let graphlayer := dict_comprehension [(KStr name, task)] in
      let hlg := from_collections name (MaterializedLayer graphlayer)
                   [Record_collection self] in
      match new_meta with
      | MetaRecord m =>
          mret (GotRecord {| r_dask := hlg; r_name := name; r_meta := Some m |})
      | _ =>
          mret (GotScalar {| so_dask := hlg; so_name := name; so_meta := new_meta |})
      end
  end.


End getitem.

(** ** core.py: [Array.__len__] *)

Section length.
Context `{Engine} `{Scheduler}.

(** [Array.__len__()]: the array afterwards (with the divisions
    [_compute_divisions] has set) and the length, [self.divisions[-1]]. *)
Definition Array_len (self : Array) : Array * Run Z :=
  let calculated := calculate_known_divisions self in
  match outcome calculated with
  | Raise e => (self, MkRun (requests calculated) (Raise e))
  | Ok d =>
      (with_divisions self (Some <$> d),
       _ ← MkRun (requests calculated) (Ok ());
       pure (getitem d (-1)))
  end.

End length.

(** ** io.py: [from_json] *)

(** [urlpath]: one path or a list of paths. *)
Inductive Urlpath : Type :=
| OnePath (s : string)
| ManyPaths (l : list string).

(** [blocksize]: a number of bytes or a string such as ["128 MiB"]. *)
Inductive Blocksize : Type :=
| BlockBytes (n : Z)
| BlockString (s : string).

#[global] Instance Blocksize_eq_dec : EqDecision Blocksize.
Proof. solve_decision. Defined.

(** A [Delayed] chunk of bytes: its key, its graph and its layer. *)
Record Delayed : Type := {
  d_key : Key;
  d_graph : HighLevelGraph;
  d_layer : string
}.

Definition Delayed_collection (d : Delayed) : Collection :=
  {| c_graph := d_graph d; c_layers := {[d_layer d]} |}.

(** A parsed JSON value, by its canonical text. *)
Definition JsonValue : Type := string.

(** The collaborators of [from_json] and [derive_json_meta]:
    [is_file_path], fsspec's [get_fs_token_paths] (the paths it resolves)
    and [infer_compression], dask's [read_bytes] (the chunks, flattened)
    and [parse_bytes], the storage ([storage.cat(source, start=0, end=n)]
    and the lines of [storage.open(source, mode="rt", compression=c)]),
    [json.loads], and the placeholder of the rows,
    [ak.Array(ak.from_iter(rows).layout.typetracer.forget_length())]. *)
Class JsonIO : Type := {
  is_file_path : string → bool;
  get_fs_token_paths : Urlpath → result (list string);
  infer_compression : string → option string;
  read_bytes : Urlpath → string → Blocksize → result (list Delayed);
  parse_bytes : Blocksize → result Z;
  storage_cat : string → Z → result string;
  storage_open : string → option string → result (list string);
  json_loads : string → result JsonValue;
  rows_meta : list JsonValue → Meta
}.

(** The keywords of [derive_json_meta], each given or left to its
    default. *)
Record DeriveKwargs : Type := {
  dk_compression : option (option string);
  dk_sample_rows : option Z;
  dk_bytechunks : option Blocksize;
  dk_force_by_lines : option bool
}.

Definition no_kwargs : DeriveKwargs :=
  {| dk_compression := None; dk_sample_rows := None;
     dk_bytechunks := None; dk_force_by_lines := None |}.

(** [l[:n]] *)
Definition slice_to {A} (n : Z) (l : list A) : list A :=
  if 0 <=? n then take (Z.to_nat n) l else take (Z.to_nat (len l + n)) l.

(** The byte string [b"\n"]. *)
Definition newline : string := String (Ascii.ascii_of_nat 10) EmptyString.

(** [bytes.split(b"\n")] *)
Fixpoint split_newline (s : string) : list string :=
  match s with
  | EmptyString => [EmptyString]
  | String c s' =>
      if decide (c = Ascii.ascii_of_nat 10) then EmptyString :: split_newline s'
      else match split_newline s' with
           | [] => [String c EmptyString]
           | piece :: pieces => String c piece :: pieces
           end
  end.

(** How [from_json] reads: whole files, one partition each, or blocks of
    bytes split on a delimiter. *)
Inductive JsonMode : Type :=
| JsonFiles
| JsonBytes (delimiter : string) (blocksize : Blocksize).

(** The first part of [from_json]: [blocksize] or [delimiter] alone brings
    the other one along, when the delimiter is the newline; then both or
    neither have to be there. *)
Definition from_json_mode (blocksize : option Blocksize) (delimiter : option string)
    : result JsonMode :=
  let '(blocksize, delimiter) :=
    if bool_decide (is_Some blocksize) && bool_decide (delimiter = None)
    then (blocksize, Some newline)
    else if bool_decide (blocksize = None) && bool_decide (delimiter = Some newline)
    then (Some (BlockString "128 MiB"), delimiter)
    else (blocksize, delimiter) in
  match delimiter, blocksize with
  | None, None => Ok JsonFiles
  | Some d, Some b => Ok (JsonBytes d b)
  | _, _ => Raise TypeError
  end.

(** The compression as a plain value. *)
Definition compression_value (c : option string) : Value :=
  match c with Some s => VStr s | None => py_None end.

Section derive_json_meta.
Context `{JsonIO}.

(** [[json.loads(ln) for ln in lines]] *)
Fixpoint loads_all (lines : list string) : result (list JsonValue) :=
  match lines with
  | [] => Ok []
  | ln :: rest => v ← json_loads ln; vs ← loads_all rest; Ok (v :: vs)
  end.

(** The loop over [enumerate(f)]: every line read is parsed and kept, and
    the loop stops after the line with [i >= sample_rows]. *)
Fixpoint sample_lines (sample_rows i : Z) (f : list string) : result (list JsonValue) :=
  match f with
  | [] => Ok []
  | line :: rest =>
      v ← json_loads line;
      if sample_rows <=? i then Ok [v]
      else vs ← sample_lines sample_rows (i + 1) rest; Ok (v :: vs)
  end.

(** [derive_json_meta(storage, source, **kwargs)]. The warning issued
    before the second attempt is not part of the result. *)
Definition derive_json_meta (source : string) (kwargs : DeriveKwargs) : result Meta :=
  let compression := default (Some "infer") (dk_compression kwargs) in
  let sample_rows := default 5 (dk_sample_rows kwargs) in
  let bytechunks := default (BlockString "16 KiB") (dk_bytechunks kwargs) in
  let force_by_lines := default false (dk_force_by_lines kwargs) in
  let compression := if bool_decide (compression = Some "infer")
                     then infer_compression source else compression in
  bytechunks ← parse_bytes bytechunks;
  let by_lines :=
    f ← storage_open source compression;
    lines ← sample_lines sample_rows 0 f;
    Ok (rows_meta lines) in
  if bool_decide (compression = None) && negb force_by_lines then
    match (bytes ← storage_cat source bytechunks;
           lines ← loads_all (slice_to sample_rows (split_newline bytes));
           Ok (rows_meta lines)) with
    | Ok meta => Ok meta
    | Raise ValueError => by_lines
    | Raise e => Raise e
    end
  else by_lines.

End derive_json_meta.

Section from_json.
Context `{Engine} `{JsonIO}.

(** [from_json(urlpath, blocksize, delimiter, one_obj_per_file,
    compression, meta, derive_meta_kwargs)]. A wrapper object is the
    class applied to its compression. *)
Definition from_json (urlpath : Urlpath) (blocksize : option Blocksize)
    (delimiter : option string) (one_obj_per_file : bool)
    (compression : option string) (meta : option Meta)
    (derive_meta_kwargs : option DeriveKwargs) : Run Array :=
  let token := tokenize (urlpath, delimiter, blocksize, one_obj_per_file) in
  let name := "from-json-" +:+ token in
  mode ← pure (from_json_mode blocksize delimiter);
  match mode with
  | JsonFiles =>
      let urlpath := match urlpath with
                     | OnePath s => if is_file_path s then ManyPaths [s] else urlpath
                     | ManyPaths _ => urlpath
                     end in
      urlpath ← pure (get_fs_token_paths urlpath);
      compression ← pure (if bool_decide (compression = Some "infer")
                          then first ← getitem urlpath 0; Ok (infer_compression first)
                          else Ok compression);
      let f := Partial {| fn_name := if one_obj_per_file
                                     then "FromJsonSingleObjInFileWrapper"
                                     else "FromJsonLineDelimitedWrapper" |}
                 [("compression", compression_value compression)] in
      let dsk := dict_comprehension
                   ((λ ip, (KPart name ip.1, TCall f [AVal (VStr ip.2)]))
                      <$> enumerate urlpath) in
      let n := len dsk in
      meta ← pure (match meta with
                   | Some m => Ok m
                   | None =>
                       first ← getitem urlpath 0;
                       derive_json_meta first (default no_kwargs derive_meta_kwargs)
                   end);
      let hlg := from_collections name (MaterializedLayer dsk) [] in
      new_array_object hlg name (Some meta) (Some n) None
  | JsonBytes delimiter blocksize =>
      flat_chunks ← pure (read_bytes urlpath delimiter blocksize);
      let dsk := dict_comprehension
                   ((λ ic, (KPart name ic.1,
                            TCall (Fn {| fn_name := "_from_json_bytes" |})
                              [AKey (d_key ic.2)]))
                      <$> enumerate flat_chunks) in
      (* [deps = set(flat_chunks)], distinct chunks *)
      let n := len flat_chunks in
      let hlg := from_collections name (MaterializedLayer dsk)
                   (Delayed_collection <$> flat_chunks) in
      new_array_object hlg name meta (Some n) None
  end.

End from_json.

(** ** Concrete collaborators and inputs used in the examples *)

Module Demo.

Definition engine : Engine :=
  {| tokenize := λ _ _, "t";
     scheduler_get := λ _ _, Ok (AkArray "form");
     ak_getitem := λ m _, Ok m;
     forget_length := λ m, m;
     blockwise_options := λ _ layer, Ok layer |}.

Definition source_graph (name : string) : HighLevelGraph :=
  {| layers := {[name := MaterializedLayer []]}; dependencies := {[name := ∅]} |}.

Definition array (name : string) (meta : option Meta) (divs : list (option Z)) : Array :=
  {| a_dask := source_graph name; a_name := name; a_meta := meta; divisions := divs |}.

Definition reader : AwkwardIOLayer :=
  {| io_name := "src"; io_columns := {["a"; "b"; "c"]}; io_inputs := ["f0"; "f1"];
     io_func := "read"; io_projectable := true |}.

Definition select (name src : string) (head : Callable) (key : Value) : Blockwise :=
  {| bw_output := name; bw_head := head; bw_func := head;
     bw_indices := [(BwLayer src, Some "i"); (BwLit key, None)];
     bw_numblocks := {[src := 2]}; bw_kwargs := [] |}.

(** A source layer with one downstream field selection [["a", "c"]]. *)
Definition selecting_graph : HighLevelGraph :=
  {| layers := {["src" := IOLayer reader;
                 "sel" := BlockwiseLayer (select "sel" "src" operator_getitem (VStrs ["a"; "c"]))]};
     dependencies := {["src" := ∅; "sel" := {["src"]}]} |}.

(** A source layer with one downstream selection by the slice [[0:2]]. *)
Definition slicing_graph : HighLevelGraph :=
  {| layers := {["src" := IOLayer reader;
                 "sel" := BlockwiseLayer
                            (select "sel" "src" operator_getitem
                               (VUnhashable "slice(0, 2, None)"))]};
     dependencies := {["src" := ∅; "sel" := {["src"]}]} |}.

(** A source layer whose only dependent is not a field selection. *)
Definition plain_graph : HighLevelGraph :=
  {| layers := {["src" := IOLayer reader;
                 "op" := BlockwiseLayer (select "op" "src" (Fn {| fn_name := "f" |}) (VStr "a"))]};
     dependencies := {["src" := ∅; "op" := {["src"]}]} |}.

End Demo.

Module Examples.

(** A value engine for the examples: the placeholder ["flat"] has one
    dimension, every other one two; every placeholder has three rows;
    indexing by a field name gives an array, by the number of a row a
    record; ["mask"] is a nested boolean array, and the layout of ["flat"]
    has no [content]. *)
Definition awkward : Awkward :=
  {| meta_ndim := λ m, if decide (m = "flat") then 1 else 2;
     meta_getitem := λ m key,
       match key with
       | KeyStr s => Ok (MetaArray (m +:+ "." +:+ s))
       | KeyInt i => if (-3 <=? i) && (i <? 3) then Ok (MetaRecord m) else Raise IndexError
       | _ => Ok (MetaArray m)
       end;
     boolean_content := λ m,
       if decide (m = "flat") then Raise AttributeError else Ok (bool_decide (m = "mask")) |}.

(** A file system for the examples: two files behind every path, seven
    rows in each; the placeholder of some rows is their number. *)
Definition json_io : JsonIO :=
  {| is_file_path := λ _, false;
     get_fs_token_paths := λ _, Ok ["a.json"; "b.json"];
     infer_compression := λ _, None;
     read_bytes := λ _ _ _, Ok [];
     parse_bytes := λ _, Ok 16384;
     storage_cat := λ _ _, Ok "1";
     storage_open := λ _ _, Ok ["1"; "2"; "3"; "4"; "5"; "6"; "7"];
     json_loads := λ ln, if decide (ln = "") then Raise ValueError else Ok ln;
     rows_meta := λ rows, pretty (length rows) |}.

(** A scheduler for the examples: partition [i] has [i + 2] rows. *)
Definition scheduler : Scheduler :=
  {| partition_len := λ _ k, match k with KPart _ i => Ok (i + 2) | KStr _ => Raise KeyError end |}.

End Examples.

(** ** Predicates used in the statements *)

(** A valid divisions sequence: non-decreasing, starting at 0, with at least
    two entries. *)
Definition valid_divisions (d : list Z) : Prop :=
  Numpy.nondecreasing d = true ∧ d !! 0%nat = Some 0 ∧ (2 ≤ length d)%nat.

(** What the optimizer makes of the layer [l] named [n] of the graph
    [dsk]: a column-projectable source layer with a non-empty seed set is
    narrowed, every other layer is kept. *)
Definition narrowed (dsk : HighLevelGraph) (n : string) (l : Layer) : Layer :=
  match l with
  | IOLayer io =>
      if io_projectable io then
        match seed_columns dsk n with
        | Ok seed =>
            if decide (seed = ∅) then l
            else IOLayer (project_columns io (elements seed))
        | Raise _ => l
        end
      else l
  | _ => l
  end.

(** What the seed computation reads of a layer. *)
Definition layer_view (l : Layer) : bool * result (gset string) :=
  (_is_getitem l, _requested_columns l).

(** The exceptions [new_array_object] catches while deriving metadata. *)
Definition caught (e : Exn) : bool :=
  match e with
  | AttributeError | AssertionError | TypeError => true
  | _ => false
  end.

(** The scheduler raises nothing that [new_array_object] lets through. *)
Definition scheduler_quiet `{Engine} : Prop :=
  ∀ g k e, scheduler_get g k = Raise e → caught e = true.

(** Every entry of a divisions sequence is unknown. *)
Definition unknown_divisions (d : list (option Z)) : Prop :=
  d ≠ [] ∧ Forall (λ x, x = None) d.

(** An operator in one of the states a reducer leaves it in: as the module
    made it, or updated by keywords with the keys [K]. *)
Definition settled (K : list string) (op0 op : TrivialPartitionwiseOp) : Prop :=
  op_func op = op_func op0 ∧ op_name op = op_name op0 ∧
  (op_kwargs op = op_kwargs op0 ∨
   ∃ kwargs, kwargs.*1 = K ∧ op_kwargs op = kwargs_update (op_kwargs op0) kwargs).

Definition count_keys : list string :=
  ["axis"; "keepdims"; "mask_identity"; "flatten_records"].
Definition min_max_keys : list string :=
  ["axis"; "keepdims"; "initial"; "mask_identity"; "flatten_records"].
Definition sum_keys : list string :=
  ["keepdims"; "mask_identity"; "flatten_records"].
Definition std_keys : list string :=
  ["weight"; "ddof"; "axis"; "keepdims"; "mask_identity"; "flatten_records"].

(** The states of the module-level operators that calls of the reducers
    lead to. *)
Definition reducers_settled (st : Reducers) : Prop :=
  settled count_keys (_count_trivial reducers_module) (_count_trivial st) ∧
  settled count_keys (_count_nonzero_trivial reducers_module) (_count_nonzero_trivial st) ∧
  settled min_max_keys (_min_trivial reducers_module) (_min_trivial st) ∧
  settled min_max_keys (_max_trivial reducers_module) (_max_trivial st) ∧
  settled sum_keys (_sum_trivial reducers_module) (_sum_trivial st) ∧
  settled std_keys (_std_trivial reducers_module) (_std_trivial st).

(** [partition] is the one-partition collection whose single task is the
    bare key of partition [p] of [self]. *)
Definition is_partition_of (self : Array) (p : Z) (partition : Array) : Prop :=
  layers (a_dask partition) !! a_name partition
  = Some (MaterializedLayer
            [(KPart (a_name partition) 0, TAlias (KPart (a_name self) p))]) ∧
  npartitions partition = 1.

(** [res] applies the key [r] to [partition]: as an array, by a layer over
    the partition with the key as keyword, with divisions [(0, None)]; as a
    record or scalar, by one task on the key of the partition. *)
Definition selects (partition : Array) (r : Z) (res : GetitemResult) : Prop :=
  match res with
  | GotArray a =>
      divisions a = [Some 0; None] ∧
      ∃ lay, layers (a_dask a) !! a_name a = Some (BlockwiseLayer lay) ∧
             bw_indices lay = [(BwLayer (a_name partition), Some "i")] ∧
             bw_kwargs lay = [("gikey", BwLit (py_int r))]
  | GotRecord rec =>
      layers (r_dask rec) !! r_name rec
      = Some (MaterializedLayer
                [(KStr (r_name rec),
                  TCall lambda_getitem [AKey (KPart (a_name partition) 0);
                                        AVal (py_int r)])])
  | GotScalar s =>
      layers (so_dask s) !! so_name s
      = Some (MaterializedLayer
                [(KStr (so_name s),
                  TCall lambda_getitem [AKey (KPart (a_name partition) 0);
                                        AVal (py_int r)])])
  end.

(** * Properties *)

Lemma bind_Ok {A B} (a : A) (k : A → result B) : (Ok a ≫= k) = k a.
Proof. reflexivity. Qed.

Lemma bind_Raise {A B} (e : Exn) (k : A → result B) : (Raise e ≫= k) = Raise e.
Proof. reflexivity. Qed.

(** ** Keywords *)

Lemma given_twice_false {A} (given : list string) (kwargs : list (string * A)) :
  given_twice given kwargs = false ↔ ∀ k, k ∈ kwargs.*1 → k ∉ given.
Proof.
  unfold given_twice. induction kwargs as [|[k v] kwargs IH].
  - split; [|done]. by intros _ k ?%elem_of_nil.
  - rewrite fmap_cons. cbn [existsb fst]. rewrite orb_false_iff, IH, bool_decide_eq_false.
    split.
    + intros [Hk Hrest] k' [->|?]%elem_of_cons; eauto.
    + intros Hall. split; [apply Hall; left|intros k' ?; apply Hall; by right].
Qed.

Lemma given_twice_filter {A} (given : list string) (kwargs : list (string * A)) :
  given_twice given kwargs = false →
  filter (λ kv, kv.1 ∈ given) kwargs = [] ∧ filter (λ kv, kv.1 ∉ given) kwargs = kwargs.
Proof.
  unfold given_twice. induction kwargs as [|[k v] kwargs IH]; [done|].
  cbn [existsb fst]. intros [Hk%bool_decide_eq_false Hrest]%orb_false_iff.
  destruct (IH Hrest) as [Hin Hout]. split.
  - by rewrite filter_cons_False.
  - by rewrite filter_cons_True, Hout.
Qed.

Lemma function_keywords_bound {A} (kwargs : list (string * A)) :
  function_keywords kwargs = true →
  given_twice ["func"; "name"; "meta"] kwargs = false ∧
  given_twice ["func"; "name"] kwargs = false ∧
  given_twice blockwise_given kwargs = false ∧
  filter (λ kv, kv.1 ∈ blockwise_own) kwargs = [] ∧
  filter (λ kv, kv.1 ∉ blockwise_own) kwargs = kwargs.
Proof.
  unfold function_keywords. intros Hf%negb_true_iff.
  pose proof (proj1 (given_twice_false _ _) Hf) as Hall.
  assert (∀ G, (∀ k, k ∈ G → k ∈ reserved_keywords) → given_twice G kwargs = false) as Hsub.
  { intros G HG. apply given_twice_false. intros k Hk HkG. by apply (Hall k Hk), HG. }
  assert (given_twice blockwise_own kwargs = false) as Hown.
  { apply Hsub. intros k Hk. unfold reserved_keywords.
    apply elem_of_app. right. apply elem_of_app. by right. }
  split_and!.
  - apply Hsub. intros k Hk. unfold reserved_keywords. apply elem_of_app. by left.
  - apply Hsub. intros k Hk. unfold reserved_keywords. apply elem_of_app. left.
    apply elem_of_cons in Hk as [->|Hk]; [left|].
    apply elem_of_cons in Hk as [->|Hk]; [right; left|by apply elem_of_nil in Hk].
  - apply Hsub. intros k Hk. unfold reserved_keywords.
    apply elem_of_app. right. apply elem_of_app. by left.
  - by apply given_twice_filter.
  - by apply given_twice_filter.
Qed.

(** ** Python sequences *)

(** Decide the integer comparisons of the goal that linear arithmetic
    settles. *)
Ltac zbool :=
  cbv zeta;
  repeat match goal with
    | |- context [?a <? ?b] =>
        first [rewrite (proj2 (Z.ltb_lt a b)) by lia
              |rewrite (proj2 (Z.ltb_ge a b)) by lia]
    | |- context [?a <=? ?b] =>
        first [rewrite (proj2 (Z.leb_le a b)) by lia
              |rewrite (proj2 (Z.leb_gt a b)) by lia]
    | |- context [?a =? ?b] =>
        first [rewrite (proj2 (Z.eqb_eq a b)) by lia
              |rewrite (proj2 (Z.eqb_neq a b)) by lia]
    end.

Lemma getitem_nonneg {A} (xs : list A) (i : Z) (x : A) :
  0 ≤ i → xs !! Z.to_nat i = Some x → getitem xs i = Ok x.
Proof.
  intros Hi Hx. unfold getitem, len.
  pose proof (lookup_lt_Some _ _ _ Hx) as Hlt.
  zbool. simpl. by rewrite Hx.
Qed.

Lemma getitem_last {A} (xs : list A) (x : A) :
  last xs = Some x → getitem xs (-1) = Ok x.
Proof.
  intros Hl. unfold getitem, len.
  assert (length xs ≠ 0%nat) by (by destruct xs).
  rewrite last_lookup in Hl.
  zbool. simpl.
  replace (Z.to_nat (-1 + Z.of_nat (length xs))) with (pred (length xs)) by lia.
  by rewrite Hl.
Qed.

(** ** numpy's binary search on sorted bins *)

Module NumpyFacts.
Import Numpy.

Lemma nondecreasing_tail a l : nondecreasing (a :: l) = true → nondecreasing l = true.
Proof. destruct l as [|b l]; [done|]. simpl. by intros [_ ?]%andb_prop. Qed.

Lemma nondecreasing_head a l j :
  nondecreasing (a :: l) = true → (j < length (a :: l))%nat → a ≤ nth j (a :: l) 0.
Proof.
  revert a j. induction l as [|b l IH]; intros a j Hs Hj.
  - simpl in Hj. replace j with 0%nat by lia. simpl. lia.
  - destruct j as [|j]; [simpl; lia|].
    simpl in Hs. apply andb_prop in Hs as [Hab Hs]. apply Z.leb_le in Hab.
    change (nth (S j) (a :: b :: l) 0) with (nth j (b :: l) 0).
    etrans; [exact Hab|]. apply IH; [done|]. simpl in *. lia.
Qed.

Lemma nondecreasing_nth l i j :
  nondecreasing l = true → (i ≤ j < length l)%nat → nth i l 0 ≤ nth j l 0.
Proof.
  revert i j. induction l as [|a l IH]; intros i j Hs Hij; [simpl in Hij; lia|].
  destruct i as [|i].
  - apply nondecreasing_head; [done|lia].
  - destruct j as [|j]; [lia|].
    change (nth i l 0 ≤ nth j l 0). apply IH.
    + by eapply nondecreasing_tail.
    + simpl in Hij. lia.
Qed.

Lemma binsearch_right_step fuel arr key lo hi :
  binsearch_right (S fuel) arr key lo hi =
    if (lo <? hi)%nat then
      if nth (lo + (hi - lo) / 2)%nat arr 0 <=? key
      then binsearch_right fuel arr key (S (lo + (hi - lo) / 2)%nat) hi
      else binsearch_right fuel arr key lo (lo + (hi - lo) / 2)%nat
    else lo.
Proof. reflexivity. Qed.

(** The invariant of the search loop: everything left of [lo] is at most
    the key, everything from [hi] on is larger; with fuel for the whole
    interval the loop ends at the boundary between the two. *)
Lemma binsearch_right_spec fuel arr key lo hi :
  nondecreasing arr = true →
  (lo ≤ hi ≤ length arr)%nat → (hi - lo ≤ fuel)%nat →
  (∀ i, (i < lo)%nat → nth i arr 0 ≤ key) →
  (∀ i, (hi ≤ i < length arr)%nat → key < nth i arr 0) →
  (lo ≤ binsearch_right fuel arr key lo hi ≤ hi)%nat ∧
  (∀ i, (i < binsearch_right fuel arr key lo hi)%nat → nth i arr 0 ≤ key) ∧
  (∀ i, (binsearch_right fuel arr key lo hi ≤ i < length arr)%nat → key < nth i arr 0).
Proof.
  intros Hs. revert lo hi.
  induction fuel as [|fuel IH]; intros lo hi Hb Hf Hlo Hhi.
  - assert (lo = hi) as -> by lia. simpl. repeat split; auto; lia.
  - rewrite binsearch_right_step. destruct (lo <? hi)%nat eqn:Hlt.
    + apply Nat.ltb_lt in Hlt.
      set (mid := (lo + (hi - lo) / 2)%nat).
      assert (lo ≤ mid < hi)%nat as Hmid.
      { unfold mid. pose proof (Nat.div_lt (hi - lo) 2).
        pose proof (Nat.Div0.div_le_upper_bound (hi - lo) 2 (hi - lo)). lia. }
      destruct (nth mid arr 0 <=? key) eqn:Hcmp.
      * apply Z.leb_le in Hcmp.
        destruct (IH (S mid) hi) as (Hr & Hl & Hu); [lia|lia| |done|].
        { intros i Hi. etrans; [|exact Hcmp]. apply nondecreasing_nth; [done|lia]. }
        repeat split; auto; lia.
      * apply Z.leb_gt in Hcmp.
        destruct (IH lo mid) as (Hr & Hl & Hu); [lia|lia|done| |].
        { intros i Hi. eapply Z.lt_le_trans; [exact Hcmp|].
          apply nondecreasing_nth; [done|lia]. }
        repeat split; auto; lia.
    + apply Nat.ltb_ge in Hlt. assert (lo = hi) as -> by lia.
      repeat split; auto; lia.
Qed.

Lemma searchsorted_right_spec arr key :
  nondecreasing arr = true →
  ∃ r : nat, searchsorted_right arr key = Z.of_nat r ∧ (r ≤ length arr)%nat ∧
    (∀ i, (i < r)%nat → nth i arr 0 ≤ key) ∧
    (∀ i, (r ≤ i < length arr)%nat → key < nth i arr 0).
Proof.
  intros Hs. unfold searchsorted_right.
  destruct (binsearch_right_spec (S (length arr)) arr key 0 (length arr))
    as (Hr & Hl & Hu); [done|lia|lia|lia|lia|].
  eexists. split; [done|]. repeat split; auto; lia.
Qed.

Lemma digitize_nondecreasing bins x :
  nondecreasing bins = true → digitize x bins = Ok (searchsorted_right bins x).
Proof. intros Hs. unfold digitize, monotonicity. by rewrite Hs. Qed.

End NumpyFacts.

(** ** utils.py: resolving an index against the divisions *)

Lemma normalize_nonneg (d : list Z) (i : Z) :
  0 ≤ i → len d ≠ 2 →
  normalize_single_outer_inner_index d i =
    (p ← Numpy.digitize i d;
     start ← getitem d (p - 1);
     Ok (p - 1, i - start)).
Proof.
  intros Hi Hlen. unfold normalize_single_outer_inner_index.
  zbool. by rewrite bind_Ok.
Qed.

(** C1. For valid divisions [d] with final entry [total]: every index
    [0 <= i < total] resolves to [(p, r)] with [d[p] <= i < d[p+1]] and
    [r = i - d[p]], and every negative index [-total <= i < 0] resolves to
    the same pair as [i + total]. *)
Theorem normalize_single_outer_inner_index_correct (d : list Z) (total : Z) :
  valid_divisions d → last d = Some total →
  (∀ i, 0 ≤ i < total →
     ∃ p r lo hi,
       normalize_single_outer_inner_index d i = Ok (p, r) ∧
       0 ≤ p ∧ d !! Z.to_nat p = Some lo ∧ d !! Z.to_nat (p + 1) = Some hi ∧
       lo ≤ i < hi ∧ r = i - lo) ∧
  (∀ i, - total ≤ i < 0 →
     normalize_single_outer_inner_index d i =
       normalize_single_outer_inner_index d (i + total)).
Proof.
  intros (Hsorted & Hzero & Hlen) Hlast. split.
  - intros i Hi.
    destruct (decide (len d = 2)) as [H2|H2].
    + (* a single partition: the shortcut *)
      unfold len in H2.
      destruct d as [|a [|b [|c d]]]; simpl in H2; try lia.
      simpl in Hzero, Hlast. simplify_eq.
      exists 0, i, 0, total. unfold normalize_single_outer_inner_index.
      zbool. rewrite bind_Ok. change (len [0; total] =? 2) with true.
      repeat split; try done; lia.
    + rewrite normalize_nonneg by (done || lia).
      rewrite NumpyFacts.digitize_nondecreasing by done.
      destruct (NumpyFacts.searchsorted_right_spec d i Hsorted)
        as (r & -> & Hr & Hbelow & Habove).
      rewrite last_lookup in Hlast.
      assert (r ≠ 0)%nat as Hr0.
      { intros ->. specialize (Habove 0%nat).
        rewrite (nth_lookup_Some _ _ _ _ Hzero) in Habove. lia. }
      assert (r ≠ length d) as Hr1.
      { intros ->. specialize (Hbelow (pred (length d))).
        rewrite (nth_lookup_Some _ _ _ _ Hlast) in Hbelow. lia. }
      destruct (lookup_lt_is_Some_2 d (pred r)) as [lo Hlo]; [lia|].
      destruct (lookup_lt_is_Some_2 d r) as [hi Hhi]; [lia|].
      exists (Z.of_nat r - 1), (i - lo), lo, hi.
      replace (Z.to_nat (Z.of_nat r - 1)) with (pred r) by lia.
      replace (Z.to_nat (Z.of_nat r - 1 + 1)) with r by lia.
      rewrite bind_Ok, (getitem_nonneg d (Z.of_nat r - 1) lo), bind_Ok;
        [|lia|by replace (Z.to_nat (Z.of_nat r - 1)) with (pred r) by lia].
      specialize (Hbelow (pred r)). specialize (Habove r).
      rewrite (nth_lookup_Some _ _ _ _ Hlo) in Hbelow.
      rewrite (nth_lookup_Some _ _ _ _ Hhi) in Habove.
      repeat split; try done; lia.
  - intros i Hi. unfold normalize_single_outer_inner_index.
    rewrite (getitem_last d total Hlast). zbool.
    rewrite !bind_Ok. by rewrite (Z.add_comm total i).
Qed.

Lemma normalize_single_outer_inner_index_correct_witness :
  (∃ p r lo hi,
      normalize_single_outer_inner_index [0; 3; 6; 9] 5 = Ok (p, r) ∧
      0 ≤ p ∧ [0; 3; 6; 9] !! Z.to_nat p = Some lo ∧
      [0; 3; 6; 9] !! Z.to_nat (p + 1) = Some hi ∧ lo ≤ 5 < hi ∧ r = 5 - lo) ∧
  normalize_single_outer_inner_index [0; 3; 6; 9] (-1) =
    normalize_single_outer_inner_index [0; 3; 6; 9] (-1 + 9).
Proof.
  assert (valid_divisions [0; 3; 6; 9]) as Hv.
  { split_and!; [reflexivity|reflexivity|simpl; lia]. }
  destruct (normalize_single_outer_inner_index_correct [0; 3; 6; 9] 9 Hv eq_refl)
    as [Hpos Hneg].
  split; [apply Hpos; lia|apply Hneg; lia].
Defined.

(** The scenario of the docstring: divisions [(0, 3, 6, 9)]. *)
Example normalize_scenario :
  normalize_single_outer_inner_index [0; 3; 6; 9] 5 = Ok (1, 2) ∧
  normalize_single_outer_inner_index [0; 3; 6; 9] 8 = Ok (2, 2) ∧
  normalize_single_outer_inner_index [0; 3; 6; 9] 0 = Ok (0, 0).
Proof. by vm_compute. Qed.

(** ** Python dicts built by a comprehension *)

Lemma dict_set_fresh (d : TaskDict) (k : Key) (t : Task) :
  k ∉ dict_keys d → dict_set d k t = d ++ [(k, t)].
Proof.
  unfold dict_keys. induction d as [|[k' t'] d IH]; intros Hk; [done|].
  simpl in *. apply not_elem_of_cons in Hk as [Hne Hk].
  destruct (decide (k' = k)); [congruence|]. by rewrite IH.
Qed.

Lemma dict_comprehension_acc (acc items : list (Key * Task)) :
  NoDup (dict_keys (acc ++ items)) →
  foldl (λ d kt, dict_set d kt.1 kt.2) acc items = acc ++ items.
Proof.
  revert acc. induction items as [|[k t] items IH]; intros acc Hnd; simpl.
  - by rewrite app_nil_r.
  - rewrite dict_set_fresh.
    + rewrite IH; rewrite <- app_assoc; done.
    + unfold dict_keys in *. rewrite fmap_app in Hnd.
      apply NoDup_app in Hnd as (_ & Hdis & _).
      intros Hin. apply (Hdis _ Hin). simpl. left.
  Qed.

Lemma dict_comprehension_NoDup (items : list (Key * Task)) :
  NoDup (dict_keys items) → dict_comprehension items = items.
Proof. intros Hnd. unfold dict_comprehension. by rewrite dict_comprehension_acc. Qed.

Lemma enumerate_keys {A} (name : string) (f : Z * A → Task) (xs : list A) :
  dict_keys ((λ ix, (KPart name ix.1, f ix)) <$> enumerate xs)
  = KPart name <$> seqZ 0 (len xs).
Proof.
  unfold dict_keys, enumerate, seqZ, len.
  rewrite !fmap_imap. rewrite Nat2Z.id, <- list_fmap_compose.
  rewrite <- (imap_seq xs (KPart name ∘ (λ i : nat, Z.of_nat i + 0)) 0).
  apply imap_ext. intros i x _. simpl. f_equal. lia.
Qed.

Lemma NoDup_KPart (name : string) (n : Z) : NoDup (KPart name <$> seqZ 0 n).
Proof.
  apply NoDup_fmap_2; [|apply NoDup_seqZ]. by intros ?? [=].
Qed.

Lemma enumerate_comprehension {A} (name : string) (f : Z * A → Task) (xs : list A) :
  dict_comprehension ((λ ix, (KPart name ix.1, f ix)) <$> enumerate xs)
  = (λ ix, (KPart name ix.1, f ix)) <$> enumerate xs.
Proof.
  apply dict_comprehension_NoDup. rewrite enumerate_keys. apply NoDup_KPart.
Qed.

Lemma length_enumerate {A} (xs : list A) : length (enumerate xs) = length xs.
Proof. unfold enumerate. by rewrite length_imap. Qed.

(** ** core.py: reduction with aggregation *)

Section reduction.
Context `{Engine}.

(** C2. The layer built by [pw_reduction_with_agg_to_scalar] is, in order,
    one task per output key of the array, applying the per-partition
    function to that key, followed by one task applying the aggregation
    function to the list of all per-partition keys: [n + 1] tasks under
    distinct keys for an array with [n] partitions (it has [n] output
    keys). The result is a [Scalar] whose only output key is the name of
    that layer. *)
Theorem pw_reduction_with_agg_to_scalar_graph (array : Array)
    (func agg : Function) (name : option string)
    (kwargs : list (string * Value)) :
  ∃ (out : string) (lay : TaskDict),
    let s := pw_reduction_with_agg_to_scalar array func agg name kwargs in
    let keys := Array_dask_keys array in
    s_name s = out ∧
    layers (s_dask s) !! out = Some (MaterializedLayer lay) ∧
    lay = ((λ ik, (KPart out ik.1, TCall (Partial func kwargs) [AKey ik.2]))
             <$> enumerate keys)
          ++ [(KStr out, TCall (Fn agg) [AKeys (KPart out <$> seqZ 0 (len keys))])] ∧
    length lay = S (length keys) ∧
    len keys = Z.max 0 (npartitions array) ∧
    NoDup (dict_keys lay) ∧
    Scalar_dask_keys s = [KStr out].
Proof.
  eexists _, _. cbv zeta. unfold pw_reduction_with_agg_to_scalar.
  cbn [s_name s_dask new_scalar_object from_collections layers].
  split; [reflexivity|].
  rewrite lookup_insert_eq. split; [reflexivity|].
  set (out := _ +:+ "-" +:+ _).
  set (f := λ ik : Z * Key, TCall (Partial func kwargs) [AKey ik.2]).
  change (λ ik : Z * Key, (KPart out ik.1, TCall (Partial func kwargs) [AKey ik.2]))
    with (λ ik : Z * Key, (KPart out ik.1, f ik)).
  rewrite enumerate_comprehension, enumerate_keys.
  assert (dict_keys (((λ ik : Z * Key, (KPart out ik.1, f ik))
                        <$> enumerate (Array_dask_keys array))
                     ++ [(KStr out, TCall (Fn agg)
                            [AKeys (KPart out <$> seqZ 0 (len (Array_dask_keys array)))])])
          = (KPart out <$> seqZ 0 (len (Array_dask_keys array))) ++ [KStr out]) as Hkeys.
  { unfold dict_keys at 1. rewrite fmap_app. f_equal. apply enumerate_keys. }
  assert (KStr out ∉ KPart out <$> seqZ 0 (len (Array_dask_keys array))) as Hfresh.
  { intros (? & [=] & _)%list_elem_of_fmap. }
  rewrite dict_set_fresh by (by rewrite enumerate_keys).
  split_and!; try reflexivity.
  - rewrite length_app, length_fmap, length_enumerate. simpl. lia.
  - unfold Array_dask_keys, len. rewrite length_fmap, length_seqZ. lia.
  - rewrite Hkeys. apply NoDup_app. split_and!.
    + apply NoDup_KPart.
    + intros k Hk Hk'. apply list_elem_of_singleton in Hk'. by subst.
    + apply NoDup_singleton.
Qed.

End reduction.

(** The scenario: per-partition [count] and aggregator [sum] over four
    partitions give a layer of five tasks. *)
Example pw_reduction_four_partitions :
  let a := Demo.array "x" (Some "form") [Some 0; Some 2; Some 4; Some 6; Some 8] in
  let s := @pw_reduction_with_agg_to_scalar Demo.engine a
             {| fn_name := "count" |} {| fn_name := "sum" |} None [] in
  npartitions a = 4 ∧
  (match layers (s_dask s) !! s_name s with
   | Some (MaterializedLayer lay) => length lay
   | _ => 0%nat
   end) = 5%nat ∧
  Scalar_dask_keys s = [KStr "count-t"].
Proof. by vm_compute. Qed.

(** ** io.py and core.py: [from_awkward] *)

Lemma ceil_div_spec (a b : Z) :
  0 < b → b * (ceil_div a b - 1) < a ≤ b * ceil_div a b.
Proof.
  intros Hb. unfold ceil_div.
  pose proof (Z.div_mod (- a) b). pose proof (Z.mod_pos_bound (- a) b). lia.
Qed.

Lemma ceil_div_unique (a b q : Z) :
  0 < b → b * (q - 1) < a ≤ b * q → ceil_div a b = q.
Proof. intros Hb Hq. pose proof (ceil_div_spec a b Hb). nia. Qed.

Lemma range_from_zero (stop step : Z) :
  0 < step →
  range 0 stop step = Ok ((λ k, k * step) <$> seqZ 0 (ceil_div stop step)).
Proof.
  intros Hs. unfold range. zbool. f_equal.
  replace ((stop - 0 + step - 1) `div` step) with (ceil_div stop step).
  - apply list_fmap_ext. intros _ k _. lia.
  - apply ceil_div_unique; [done|].
    pose proof (Z.div_mod (stop - 0 + step - 1) step).
    pose proof (Z.mod_pos_bound (stop - 0 + step - 1) step). lia.
Qed.

Lemma from_awkward_locs_spec (nrows npartitions : Z) :
  1 ≤ nrows → 1 ≤ npartitions →
  let c := ceil_div nrows npartitions in
  let k := ceil_div nrows c in
  from_awkward_locs nrows npartitions = Ok (((λ j, j * c) <$> seqZ 0 k) ++ [nrows]) ∧
  1 ≤ c ∧ 1 ≤ k ≤ npartitions ∧ (k - 1) * c < nrows ≤ k * c.
Proof.
  intros Hn Hp c k.
  pose proof (ceil_div_spec nrows npartitions) as Hc. fold c in Hc.
  assert (1 ≤ c) as Hc1 by nia.
  pose proof (ceil_div_spec nrows c) as Hk. fold k in Hk.
  split_and!; try nia.
  unfold from_awkward_locs. zbool. rewrite bind_Ok. fold c.
  by rewrite range_from_zero by lia.
Qed.

Lemma known_all_Some (zs : list Z) :
  forallb (λ d : option Z, bool_decide (is_Some d)) (Some <$> zs) = true.
Proof.
  apply forallb_forall. intros d Hd%list_elem_of_In.
  apply list_elem_of_fmap in Hd as (z & -> & _). done.
Qed.

Section from_awkward.
Context `{Engine}.

Lemma from_awkward_with_spec (meta : Meta) (source : AkSource)
    (npartitions : Z) (name : option string) (locs : list Z) :
  from_awkward_locs (src_len source) npartitions = Ok locs →
  ∃ a, from_awkward_with meta source npartitions name = MkRun [] (Ok a) ∧
       divisions a = Some <$> locs ∧ a_meta a = Some meta.
Proof.
  intros Hlocs. unfold from_awkward_with. rewrite Hlocs.
  eexists. split; [reflexivity|]. done.
Qed.

(** C10. For a source of [nrows >= 1] rows and a requested
    [npartitions >= 1], both [from_awkward] definitions return, without
    asking the scheduler for anything, an [Array] with known divisions
    [0, c, 2c, ..., (k-1)c, nrows] where [c = ceil(nrows / npartitions)]
    and [k = ceil(nrows / c)]: they start at 0, end at [nrows], every
    chunk but the last has [c] rows and the last has between 1 and [c];
    the number of partitions is [k], which is at most the requested one. *)
Theorem from_awkward_divisions (source : AkSource) (requested : Z)
    (name : option string) :
  1 ≤ src_len source → 1 ≤ requested →
  let nrows := src_len source in
  let c := ceil_div nrows requested in
  let k := ceil_div nrows c in
  ∃ a a',
    from_awkward source requested name = MkRun [] (Ok a) ∧
    core_from_awkward source requested name = MkRun [] (Ok a') ∧
    divisions a = Some <$> (((λ j, j * c) <$> seqZ 0 k) ++ [nrows]) ∧
    divisions a' = divisions a ∧
    known_divisions a = true ∧
    head (divisions a) = Some (Some 0) ∧
    last (divisions a) = Some (Some nrows) ∧
    npartitions a = k ∧
    1 ≤ k ≤ requested ∧
    (k - 1) * c < nrows ≤ k * c.
Proof.
  intros Hn Hp nrows c k.
  destruct (from_awkward_locs_spec nrows requested Hn Hp)
    as (Hlocs & Hc & Hk & Hlast). fold c k in Hlocs, Hc, Hk, Hlast.
  destruct (from_awkward_with_spec (forget_length (src_typetracer source))
              source requested name _ Hlocs) as (a & Ha & Hd & _).
  destruct (from_awkward_with_spec (src_typetracer source)
              source requested name _ Hlocs) as (a' & Ha' & Hd' & _).
  exists a, a'. split_and!; try done; try lia.
  - congruence.
  - unfold known_divisions. rewrite Hd, known_all_Some.
    unfold len. rewrite length_fmap, length_app. simpl. by zbool.
  - rewrite Hd. destruct (seqZ 0 k) as [|z zs] eqn:Hseq.
    + apply (f_equal length) in Hseq. rewrite length_seqZ in Hseq. simpl in Hseq. lia.
    + assert (seqZ 0 k !! 0%nat = Some z) as Hz by (by rewrite Hseq).
      apply lookup_seqZ in Hz as [-> _]. simpl. do 2 f_equal; lia.
  - rewrite Hd, fmap_app. simpl. by rewrite last_snoc.
  - unfold npartitions, len. rewrite Hd, length_fmap, length_app, length_fmap, length_seqZ.
    simpl. lia.
Qed.

End from_awkward.

Lemma from_awkward_divisions_witness :
  ∃ a a',
    @from_awkward Demo.engine {| src_len := 6; src_typetracer := "f" |} 4 None
      = MkRun [] (Ok a) ∧
    @core_from_awkward Demo.engine {| src_len := 6; src_typetracer := "f" |} 4 None
      = MkRun [] (Ok a') ∧
    divisions a = Some <$> (((λ j, j * 2) <$> seqZ 0 3) ++ [6]) ∧
    divisions a' = divisions a ∧
    known_divisions a = true ∧
    head (divisions a) = Some (Some 0) ∧
    last (divisions a) = Some (Some 6) ∧
    npartitions a = 3 ∧
    1 ≤ 3 ≤ 4 ∧
    (3 - 1) * 2 < 6 ≤ 3 * 2.
Proof.
  apply (@from_awkward_divisions Demo.engine
           {| src_len := 6; src_typetracer := "f" |} 4 None); simpl; lia.
Defined.

(** Six rows requested as four partitions come out as three. *)
Example from_awkward_six_rows_four_partitions :
  (npartitions <$> outcome_value
     (@from_awkward Demo.engine {| src_len := 6; src_typetracer := "f" |} 4 None))
  = Some 3.
Proof. by vm_compute. Qed.

(** ** core.py: [new_array_object] and the metadata fallback *)

Lemma Run_bind_pure_Ok {A B} (a : A) (k : A → Run B) : (pure (Ok a) ≫= k) = k a.
Proof. unfold mbind, Run_bind, pure. simpl. by destruct (k a). Qed.

Lemma Run_bind_pure_Raise {A B} (e : Exn) (k : A → Run B) :
  (pure (Raise e) ≫= k) = MkRun [] (Raise e).
Proof. reflexivity. Qed.

Lemma getitem_keys_first (name : string) (n : Z) :
  1 ≤ n → getitem (KPart name <$> seqZ 0 n) 0 = Ok (KPart name 0).
Proof.
  intros Hn. apply getitem_nonneg; [done|].
  rewrite list_lookup_fmap, lookup_seqZ_lt by (simpl; lia). done.
Qed.

Lemma getitem_keys_empty (name : string) (n : Z) :
  n ≤ 0 → getitem (KPart name <$> seqZ 0 n) 0 = Raise IndexError.
Proof.
  intros Hn. unfold getitem, len. rewrite length_fmap, length_seqZ. by zbool.
Qed.

Section new_array.
Context `{Engine}.

(** With metadata given, nothing is computed. *)
Lemma new_array_object_meta dsk name m d :
  new_array_object dsk name (Some m) None (Some d)
  = MkRun [] (Ok {| a_dask := dsk; a_name := name; a_meta := Some m; divisions := d |}).
Proof. reflexivity. Qed.

(** Without metadata and without partitions, taking the first key fails. *)
Lemma new_array_object_fallback_empty dsk name d :
  len d - 1 ≤ 0 →
  new_array_object dsk name None None (Some d) = MkRun [] (Raise IndexError).
Proof.
  intros Hd. unfold new_array_object. rewrite Run_bind_pure_Ok.
  unfold _get_typetracer, _first_partition, Array_dask_keys, npartitions.
  cbn [a_meta a_name divisions a_dask].
  rewrite getitem_keys_empty by done. reflexivity.
Qed.

(** Without metadata, the first partition is requested from the
    scheduler, once. *)
Lemma new_array_object_fallback dsk name d :
  1 ≤ len d - 1 →
  let array m := {| a_dask := dsk; a_name := name; a_meta := m; divisions := d |} in
  new_array_object dsk name None None (Some d)
  = MkRun [(dsk, KPart name 0)]
      (match scheduler_get dsk (KPart name 0) with
       | Ok (AkArray m) => Ok (array (Some m))
       | Ok NotAkArray => Ok (array None)
       | Raise e => if caught e then Ok (array None) else Raise e
       end).
Proof.
  intros Hd array. unfold new_array_object. rewrite Run_bind_pure_Ok.
  unfold _get_typetracer, _first_partition, Array_dask_keys, npartitions.
  cbn [a_meta a_name divisions a_dask].
  rewrite getitem_keys_first by done. rewrite Run_bind_pure_Ok.
  unfold mbind, Run_bind. cbn [outcome requests].
  destruct (scheduler_get dsk (KPart name 0)) as [[m|]|[]]; reflexivity.
Qed.

Lemma new_array_object_divisions dsk name meta d a :
  outcome (new_array_object dsk name meta None (Some d)) = Ok a →
  divisions a = d ∧ a_name a = name ∧ a_dask a = dsk.
Proof.
  destruct meta as [m|].
  - rewrite new_array_object_meta. by intros [= <-].
  - destruct (decide (1 ≤ len d - 1)) as [Hd|Hd].
    + rewrite new_array_object_fallback by done. cbn [outcome].
      destruct (scheduler_get _ _) as [[m|]|e].
      * by intros [= <-].
      * by intros [= <-].
      * destruct (caught e); [by intros [= <-]|done].
    + rewrite new_array_object_fallback_empty by lia. done.
Qed.

End new_array.

(** ** core.py: [Array._partitions] *)

Lemma normalize_index_int (i n : Z) (raw : RawIndex) :
  normalize_index (SelInt i) n = Ok raw →
  - n ≤ i < n ∧ raw = RawInt (if i <? 0 then i + n else i).
Proof.
  unfold normalize_index.
  destruct ((- n <=? i) && (i <? n)) eqn:Hr; [|done].
  apply andb_prop in Hr as [?%Z.leb_le ?%Z.ltb_lt]. by intros [= <-].
Qed.

Lemma normalize_index_int_ok (i n : Z) :
  - n ≤ i < n → normalize_index (SelInt i) n = Ok (RawInt (if i <? 0 then i + n else i)).
Proof.
  intros Hi. unfold normalize_index.
  replace ((- n <=? i) && (i <? n)) with true; [done|].
  symmetry. apply andb_true_intro. split; [apply Z.leb_le|apply Z.ltb_lt]; lia.
Qed.

Lemma known_divisions_lookup (a : Array) (j : nat) :
  known_divisions a = true → (j < length (divisions a))%nat →
  ∃ z, divisions a !! j = Some (Some z).
Proof.
  unfold known_divisions. intros [_ Hall]%andb_prop Hj.
  destruct (lookup_lt_is_Some_2 _ _ Hj) as [x Hx].
  rewrite forallb_forall in Hall.
  specialize (Hall x). rewrite <- list_elem_of_In in Hall.
  apply list_elem_of_lookup_2 in Hx as Hin. specialize (Hall Hin).
  apply bool_decide_eq_true in Hall as [z ->]. eauto.
Qed.

Lemma take_keys_int (self : Array) (k : Z) :
  0 ≤ k < npartitions self →
  take_keys (Array_dask_keys self) (RawInt k) = [KPart (a_name self) k].
Proof.
  intros Hk. unfold take_keys, positions, Array_dask_keys. simpl.
  zbool. rewrite list_lookup_fmap, lookup_seqZ_lt by lia. simpl.
  do 2 f_equal. lia.
Qed.

Lemma partitions_new_divisions_int (self : Array) (k : Z) (keys : list Key) :
  known_divisions self = true → 0 ≤ k < npartitions self →
  ∃ lo hi, divisions self !! Z.to_nat k = Some (Some lo) ∧
           divisions self !! Z.to_nat (k + 1) = Some (Some hi) ∧
           partitions_new_divisions self (RawInt k) keys = Ok [Some 0; Some (hi - lo)].
Proof.
  intros Hknown Hk. unfold npartitions, len in Hk.
  destruct (known_divisions_lookup self (Z.to_nat k) Hknown) as [lo Hlo]; [lia|].
  destruct (known_divisions_lookup self (Z.to_nat (k + 1)) Hknown) as [hi Hhi]; [lia|].
  exists lo, hi. split_and!; [done..|].
  unfold partitions_new_divisions. rewrite Hknown.
  rewrite (getitem_nonneg _ (k + 1) (Some hi)), bind_Ok by (done || lia).
  rewrite (getitem_nonneg _ k (Some lo)), bind_Ok by (done || lia).
  done.
Qed.

Lemma unknown_replicate (n : nat) : unknown_divisions (replicate (S n) None).
Proof.
  split; [done|]. apply Forall_forall. by intros x ->%elem_of_replicate_inv.
Qed.

Lemma partitions_new_divisions_ok (self : Array) (index : Selector) (raw : RawIndex) :
  normalize_index index (npartitions self) = Ok raw →
  let new_keys := take_keys (Array_dask_keys self) raw in
  ∃ nd, partitions_new_divisions self raw new_keys = Ok nd ∧
        len nd - 1 = len new_keys ∧
        ((∃ i, index = SelInt i ∧ known_divisions self = true) ∨ unknown_divisions nd).
Proof.
  intros Hraw new_keys.
  assert (∃ nd, Ok (replicate (length new_keys + 1) (@None Z)) = Ok nd ∧
                len nd - 1 = len new_keys ∧
                ((∃ i, index = SelInt i ∧ known_divisions self = true) ∨ unknown_divisions nd))
    as Hrep.
  { eexists. split; [done|]. split.
    - unfold len. rewrite length_replicate. lia.
    - right. rewrite Nat.add_1_r. apply unknown_replicate. }
  destruct index as [i|start stop step|l].
  - apply normalize_index_int in Hraw as [Hi ->].
    set (k := if i <? 0 then _ else _) in *.
    assert (0 ≤ k < npartitions self) as Hk by (unfold k; destruct (i <? 0) eqn:?; lia).
    destruct (known_divisions self) eqn:Hknown.
    + destruct (partitions_new_divisions_int self k new_keys Hknown Hk)
        as (lo & hi & _ & _ & ->).
      eexists. split; [done|]. split; [|by eauto].
      unfold new_keys. by rewrite take_keys_int.
    + unfold partitions_new_divisions. rewrite Hknown.
      destruct Hrep as (nd & ? & ? & [(? & ? & ?)|?]); [congruence|eauto].
  - unfold normalize_index in Hraw.
    destruct (slice_indices _ _ _ _) as [[[? ?] ?]|]; [|done].
    rewrite bind_Ok in Hraw. injection Hraw as <-.
    destruct Hrep as (nd & ? & ? & [(? & ? & ?)|?]); [done|eauto].
  - unfold normalize_index in Hraw. destruct (forallb _ _); [|done].
    injection Hraw as <-.
    destruct Hrep as (nd & ? & ? & [(? & ? & ?)|?]); [done|eauto].
Qed.

Section partitions.
Context `{Engine}.

(** After the selector is normalized, [_partitions] is the call of
    [new_array_object] on the renaming layer, without metadata. *)
Lemma partitions_unfold (self : Array) (index : Selector) (raw : RawIndex) :
  normalize_index index (npartitions self) = Ok raw →
  let name := "partitions-" +:+ tokenize (a_name self, index) in
  let new_keys := take_keys (Array_dask_keys self) raw in
  let dsk := (λ ik, (KPart name ik.1, TAlias ik.2)) <$> enumerate new_keys in
  let graph := from_collections name (MaterializedLayer dsk) [Array_collection self] in
  ∃ nd, partitions_new_divisions self raw new_keys = Ok nd ∧
        len nd - 1 = len new_keys ∧
        _partitions self index = new_array_object graph name None None (Some nd).
Proof.
  intros Hraw name new_keys dsk graph.
  destruct (partitions_new_divisions_ok self index raw Hraw) as (nd & Hnd & Hlen & _).
  exists nd. split_and!; [done..|].
  subst name new_keys dsk graph.
  unfold _partitions. rewrite Hraw, Run_bind_pure_Ok. cbv zeta.
  rewrite Hnd, Run_bind_pure_Ok.
  set (name := "partitions-" +:+ _).
  by rewrite (enumerate_comprehension name (λ ik, TAlias ik.2)).
Qed.

Lemma partitions_raises (self : Array) (index : Selector) (e : Exn) :
  normalize_index index (npartitions self) = Raise e →
  _partitions self index = MkRun [] (Raise e).
Proof. intros Hraw. unfold _partitions. by rewrite Hraw. Qed.

End partitions.

Lemma take_keys_subseteq (keys : list Key) (raw : RawIndex) (k : Key) :
  k ∈ take_keys keys raw → k ∈ keys.
Proof.
  unfold take_keys. intros (p & _ & Hp)%list_elem_of_omap.
  destruct (p <? 0); [done|]. by eapply list_elem_of_lookup_2.
Qed.

Section partitions_claims.
Context `{Engine}.

(** C9. For a valid selector: when [a.partitions[selector]] returns, its
    divisions are [(0, a.divisions[k + 1] - a.divisions[k])] if the
    selector is a single integer (denoting partition [k], counted from
    the end when negative) and the divisions of [a] are known, and
    entirely unknown in every other case; and it does return whenever
    the selection is not empty and the scheduler raises nothing that
    [new_array_object] lets through. *)
Theorem partitions_divisions (self : Array) (index : Selector) (raw : RawIndex) :
  normalize_index index (npartitions self) = Ok raw →
  (∀ r, outcome (_partitions self index) = Ok r →
     match index with
     | SelInt i =>
         let k := if i <? 0 then i + npartitions self else i in
         if known_divisions self then
           ∃ lo hi, divisions self !! Z.to_nat k = Some (Some lo) ∧
                    divisions self !! Z.to_nat (k + 1) = Some (Some hi) ∧
                    divisions r = [Some 0; Some (hi - lo)]
         else unknown_divisions (divisions r)
     | _ => unknown_divisions (divisions r)
     end) ∧
  (scheduler_quiet → take_keys (Array_dask_keys self) raw ≠ [] →
     ∃ r, outcome (_partitions self index) = Ok r).
Proof.
  intros Hraw.
  destruct (partitions_unfold self index raw Hraw) as (nd & Hnd & Hlen & Heq).
  split.
  - intros r Hr. rewrite Heq in Hr.
    apply new_array_object_divisions in Hr as (Hd & _). rewrite Hd.
    destruct (partitions_new_divisions_ok self index raw Hraw)
      as (nd' & Hnd' & _ & Hcases).
    assert (nd' = nd) as -> by congruence.
    destruct index as [i|start stop step|l].
    + cbv zeta. destruct (known_divisions self) eqn:Hknown.
      * apply normalize_index_int in Hraw as [Hi ->].
        set (k := if i <? 0 then _ else _) in *.
        assert (0 ≤ k < npartitions self) as Hk
          by (unfold k; destruct (i <? 0) eqn:?; lia).
        destruct (partitions_new_divisions_int self k
                    (take_keys (Array_dask_keys self) (RawInt k)) Hknown Hk)
          as (lo & hi & Hlo & Hhi & Hres).
        exists lo, hi. split_and!; [done..|]. congruence.
      * by destruct Hcases as [(? & _ & ?)|?].
    + by destruct Hcases as [(? & ? & _)|?].
    + by destruct Hcases as [(? & ? & _)|?].
  - intros Hquiet Hsel. rewrite Heq.
    assert (1 ≤ len nd - 1) as Hone.
    { rewrite Hlen. unfold len.
      destruct (take_keys (Array_dask_keys self) raw); [done|simpl; lia]. }
    rewrite new_array_object_fallback by done. cbn [outcome].
    destruct (scheduler_get _ _) as [[m|]|e] eqn:Hget; [by eauto..|].
    rewrite (Hquiet _ _ _ Hget). by eauto.
Qed.

(** C5, as amended. For a valid selector, [a.partitions[selector]] adds
    to the graph of [a] one layer whose tasks only rename keys (task
    [i] is the bare output key of the [i]-th selected partition of [a];
    no function is applied), and, since it passes no metadata, it asks
    the scheduler for exactly one key, the first of the new collection;
    for an empty selection it asks for nothing and raises IndexError. *)
Theorem partitions_renames_keys (self : Array) (index : Selector) (raw : RawIndex) :
  normalize_index index (npartitions self) = Ok raw →
  let name := "partitions-" +:+ tokenize (a_name self, index) in
  let new_keys := take_keys (Array_dask_keys self) raw in
  let layer := (λ ik, (KPart name ik.1, TAlias ik.2)) <$> enumerate new_keys in
  let graph := from_collections name (MaterializedLayer layer) [Array_collection self] in
  requests (_partitions self index)
    = match new_keys with [] => [] | _ => [(graph, KPart name 0)] end ∧
  (new_keys = [] → outcome (_partitions self index) = Raise IndexError) ∧
  (∀ r, outcome (_partitions self index) = Ok r →
        a_dask r = graph ∧ a_name r = name) ∧
  layers graph = <[name := MaterializedLayer layer]> (layers (a_dask self)) ∧
  length layer = length new_keys ∧
  Forall (λ kt, ∃ k, kt.2 = TAlias k ∧ k ∈ Array_dask_keys self) layer.
Proof.
  intros Hraw name new_keys layer graph.
  destruct (partitions_unfold self index raw Hraw) as (nd & Hnd & Hlen & Heq).
  fold name new_keys layer graph in Heq, Hlen. rewrite Heq.
  split_and!.
  - destruct new_keys as [|k0 ks] eqn:Hkeys.
    + rewrite new_array_object_fallback_empty; [done|]. rewrite Hlen. done.
    + rewrite new_array_object_fallback; [done|].
      rewrite Hlen. unfold len. simpl. lia.
  - intros Hempty. rewrite new_array_object_fallback_empty; [done|].
    rewrite Hlen, Hempty. done.
  - intros r Hr. apply new_array_object_divisions in Hr as (_ & Hn & Hg). by split.
  - done.
  - unfold layer. by rewrite length_fmap, length_enumerate.
  - apply Forall_forall. intros kt Hkt. unfold layer in Hkt.
    apply list_elem_of_fmap in Hkt as ([i k] & -> & Hik).
    exists k. split; [done|]. unfold enumerate in Hik.
    apply list_elem_of_lookup in Hik as [j Hj].
    rewrite list_lookup_imap in Hj.
    destruct (new_keys !! j) as [k'|] eqn:Hk'; [|done].
    simpl in Hj. injection Hj as _ <-.
    apply list_elem_of_lookup_2 in Hk'. by eapply take_keys_subseteq.
Qed.

End partitions_claims.

Lemma Demo_scheduler_quiet : @scheduler_quiet Demo.engine.
Proof. intros g k e. simpl. done. Qed.

Lemma partitions_divisions_witness :
  ∃ r, outcome (@_partitions Demo.engine
                  (Demo.array "x" None [Some 0; Some 3; Some 6]) (SelInt (-1))) = Ok r ∧
       divisions r = [Some 0; Some 3].
Proof.
  destruct (@partitions_divisions Demo.engine
              (Demo.array "x" None [Some 0; Some 3; Some 6]) (SelInt (-1)) (RawInt 1)
              eq_refl) as [Hdiv Hret].
  destruct (Hret Demo_scheduler_quiet) as [r Hr]; [by vm_compute|].
  exists r. split; [done|].
  destruct (Hdiv r Hr) as (lo & hi & Hlo & Hhi & ->).
  vm_compute in Hlo, Hhi. by simplify_eq.
Defined.

(** C5 as stated fails: selecting one partition of a two-partition array
    asks the scheduler for the first key of the new collection. *)
Lemma partitions_requests_scheduler :
  let run := @_partitions Demo.engine
               (Demo.array "x" None [Some 0; Some 3; Some 6]) (SelInt 1) in
  requests run ≠ [] ∧ (requests run).*2 = [KPart "partitions-t" 0].
Proof. split; [by vm_compute|by vm_compute]. Qed.

Lemma partitions_renames_keys_witness :
  let self := Demo.array "x" None [Some 0; Some 3; Some 6] in
  let run := @_partitions Demo.engine self (SelList [1; 0]) in
  (requests run).*2 = [KPart "partitions-t" 0] ∧
  (∀ r, outcome run = Ok r →
     layers (a_dask r) !! "partitions-t"
     = Some (MaterializedLayer [(KPart "partitions-t" 0, TAlias (KPart "x" 1));
                                (KPart "partitions-t" 1, TAlias (KPart "x" 0))])).
Proof.
  intros self run.
  destruct (@partitions_renames_keys Demo.engine self (SelList [1; 0]) (RawArray [1; 0])
              eq_refl) as (Hreq & _ & Hres & Hlay & _ & _).
  split.
  - fold run in Hreq. rewrite Hreq. reflexivity.
  - intros r Hr. destruct (Hres r Hr) as [-> _]. rewrite Hlay.
    by rewrite lookup_insert_eq.
Defined.

(** ** core.py: selection by a lazy boolean mask *)

Section boolean_mask.
Context `{Engine}.


End boolean_mask.

(** C3: the code at the failing input. An array with known divisions
    [(0, 3, 6)] selected by an aligned boolean mask comes back with the
    same, known, divisions [(0, 3, 6)], whatever the mask keeps. *)
Example getitem_boolean_lazy_array_keeps_known_divisions :
  let self := Demo.array "x" (Some "form") [Some 0; Some 3; Some 6] in
  let key := Demo.array "k" (Some "bool") [Some 0; Some 3; Some 6] in
  (divisions <$> outcome_value (@_getitem_boolean_lazy_array Demo.engine self key))
    = Some [Some 0; Some 3; Some 6] ∧
  (known_divisions <$> outcome_value (@_getitem_boolean_lazy_array Demo.engine self key))
    = Some true.
Proof. by vm_compute. Qed.

(** ** core.py: [map_partitions] *)

Section map_partitions_facts.
Context `{Engine}.

Lemma partitionwise_pairs_closed (args : list PyArg)
    (pairs : list (BwArg * option string)) (numblocks : gmap string Z) :
  partitionwise_pairs args pairs numblocks
  = if existsb is_other_collection args then Raise NotImplementedError
    else Ok (pairs ++ (blockwise_pair <$> args), numblocks_from numblocks args).
Proof.
  revert pairs numblocks. induction args as [|[a|s|v] args IH]; intros pairs numblocks.
  - simpl. by rewrite app_nil_r.
  - simpl. rewrite IH. destruct (existsb _ _); [done|].
    by rewrite <- app_assoc.
  - done.
  - simpl. rewrite IH. destruct (existsb _ _); [done|].
    by rewrite <- app_assoc.
Qed.

(** With keywords that all reach the function, [partitionwise_layer]
    fails on a foreign collection and otherwise builds the layer of the
    arguments. *)
Lemma partitionwise_layer_unfold (func : Callable) (name : string)
    (args : list PyArg) (kwargs : list (string * PyArg)) :
  function_keywords kwargs = true →
  partitionwise_layer func name args kwargs
  = if existsb is_other_collection args then Raise NotImplementedError
    else Ok (blockwise_layer func name (blockwise_pair <$> args)
               (numblocks_from ∅ args) kwargs).
Proof.
  intros (_ & Hown & Hgiven & Hin & Hout)%function_keywords_bound.
  unfold partitionwise_layer. rewrite Hown, partitionwise_pairs_closed.
  destruct (existsb is_other_collection args); [done|].
  rewrite bind_Ok. unfold upstream_blockwise. by rewrite Hgiven, Hin, Hout.
Qed.

(** When the first positional argument is an [Array], no argument is
    another kind of collection, the keywords all reach the function and
    the metadata is given, the result has the divisions of that first
    argument. *)
Lemma map_partitions_first_array func (a0 : Array) (rest : list PyArg)
    name (m : Meta) kwargs :
  function_keywords kwargs = true →
  existsb is_other_collection rest = false →
  ∃ r, map_partitions func (ArgArray a0 :: rest) name (Some m) kwargs
       = MkRun [] (Ok r) ∧ divisions r = divisions a0.
Proof.
  intros Hkw Hrest. unfold map_partitions.
  destruct (function_keywords_bound kwargs Hkw) as (-> & _).
  rewrite partitionwise_layer_unfold by done. simpl existsb. rewrite Hrest.
  rewrite Run_bind_pure_Ok.
  change (getitem (ArgArray a0 :: rest) 0) with
    (if len (ArgArray a0 :: rest) <=? 0 then Raise IndexError else Ok (ArgArray a0)).
  unfold len. simpl length. zbool.
  rewrite Run_bind_pure_Ok. simpl arg_divisions. rewrite Run_bind_pure_Ok.
  rewrite new_array_object_meta. eauto.
Qed.

End map_partitions_facts.

(** C4: the code at the failing input. With a plain value in front of the
    [Array] the divisions are read from the plain value, which has none:
    AttributeError, where the claim promises the divisions [(0, 3)] of the
    first [Array] argument. With the same two arguments in the other order
    the call returns those divisions. *)
Example map_partitions_plain_first_argument :
  let a := Demo.array "x" (Some "form") [Some 0; Some 3] in
  let f := Fn {| fn_name := "add" |} in
  outcome (@map_partitions Demo.engine f [ArgValue (VOther "2"); ArgArray a]
             None (Some "form") [])
    = Raise AttributeError ∧
  (divisions <$> outcome_value
     (@map_partitions Demo.engine f [ArgArray a; ArgValue (VOther "2")]
        None (Some "form") []))
    = Some [Some 0; Some 3].
Proof. by vm_compute. Qed.

(** ** lib/optimize.py: the seed set of a source layer *)

Lemma dependents_lookup (g : HighLevelGraph) (n : string) (D : gset string) :
  dependents g !! n = Some D →
  ∀ k, k ∈ D ↔ ∃ vs, dependencies g !! k = Some vs ∧ n ∈ vs.
Proof.
  unfold dependents. intros Hn k.
  apply lookup_set_to_map in Hn as (y & _ & [= -> <-]); [|by intros ?? _ _ [=]].
  rewrite elem_of_dom. unfold is_Some.
  setoid_rewrite map_lookup_filter_Some. naive_solver.
Qed.

Lemma dependents_is_Some (g : HighLevelGraph) (n : string) :
  n ∈ dom (dependencies g) → is_Some (dependents g !! n).
Proof.
  intros Hn. unfold dependents. eexists.
  apply lookup_set_to_map; [by intros ?? _ _ [=]|].
  exists n. split; [|done]. set_solver.
Qed.

Lemma lookup_layer_Ok (d : gmap string Layer) (k : string) (l : Layer) :
  lookup_layer d k = Ok l ↔ d !! k = Some l.
Proof. unfold lookup_layer. destruct (d !! k); naive_solver. Qed.

Lemma getitem_dependents_spec (dsk : HighLevelGraph) (ks gids : list string) :
  getitem_dependents dsk ks = Ok gids →
  ∀ k, k ∈ gids ↔ k ∈ ks ∧ ∃ l, layers dsk !! k = Some l ∧ _is_getitem l = true.
Proof.
  revert gids. induction ks as [|k0 ks IH]; intros gids Hg k; simpl in Hg.
  - injection Hg as <-. set_solver.
  - destruct (lookup_layer (layers dsk) k0) as [l0|] eqn:Hl0; [|done].
    rewrite bind_Ok in Hg. apply lookup_layer_Ok in Hl0.
    destruct (getitem_dependents dsk ks) as [more|]; [|done].
    rewrite bind_Ok in Hg. injection Hg as <-.
    specialize (IH more eq_refl k).
    destruct (_is_getitem l0) eqn:Hget.
    + rewrite !elem_of_cons, IH. naive_solver.
    + rewrite elem_of_cons, IH. split; [naive_solver|].
      intros [[->|?] (l & Hl & Hgl)]; [congruence|eauto].
Qed.

Lemma union_requested_spec (dsk : HighLevelGraph) (gids : list string)
    (seed S : gset string) :
  union_requested dsk gids seed = Ok S →
  ∀ c, c ∈ S ↔ c ∈ seed ∨
               ∃ gid l cols, gid ∈ gids ∧ layers dsk !! gid = Some l ∧
                             _requested_columns l = Ok cols ∧ c ∈ cols.
Proof.
  revert seed. induction gids as [|gid gids IH]; intros seed HS c; simpl in HS.
  - injection HS as <-. set_solver.
  - destruct (lookup_layer (layers dsk) gid) as [l|] eqn:Hl; [|done].
    rewrite bind_Ok in HS. apply lookup_layer_Ok in Hl.
    destruct (_requested_columns l) as [cols|] eqn:Hcols; [|done].
    rewrite bind_Ok in HS. rewrite (IH _ HS c), elem_of_union.
    split.
    + intros [[?|?]|(g & l' & cols' & ? & ? & ? & ?)]; [by left| |].
      * right. exists gid, l, cols. split_and!; [left|done..].
      * right. exists g, l', cols'. split_and!; [by right|done..].
    + intros [?|(g & l' & cols' & [->|?]%elem_of_cons & Hl' & Hc' & ?)].
      * by left; left.
      * left; right. congruence.
      * right. by exists g, l', cols'.
Qed.

Lemma is_operator_getitem_true (c : Callable) :
  is_operator_getitem c = true ↔ c = operator_getitem.
Proof. by destruct c. Qed.

Lemma is_getitem_blockwise (l : Layer) :
  _is_getitem l = true ↔ ∃ b, l = BlockwiseLayer b ∧ is_operator_getitem (bw_head b) = true.
Proof. destruct l; simpl; naive_solver. Qed.

(** The seed set is the union of the fields requested by the direct
    dependents that are field selections. *)
Lemma seed_columns_spec (dsk : HighLevelGraph) (n : string) (S : gset string) :
  seed_columns dsk n = Ok S → ∀ c, c ∈ S ↔ seeded_by dsk n c.
Proof.
  unfold seed_columns. destruct (dependents dsk !! n) as [D|] eqn:HD; [|done].
  destruct (getitem_dependents dsk (elements D)) as [gids|] eqn:Hg; [|done].
  rewrite bind_Ok. intros HS c.
  rewrite (union_requested_spec _ _ _ _ HS c). unfold seeded_by.
  split.
  - intros [?|(gid & l & cols & Hgid & Hl & Hcols & Hc)]; [set_solver|].
    apply (getitem_dependents_spec _ _ _ Hg) in Hgid as (HinD & l' & Hl' & Hget).
    assert (l' = l) as -> by congruence.
    apply is_getitem_blockwise in Hget as (b & -> & Hhead).
    apply elem_of_elements, (dependents_lookup _ _ _ HD) in HinD as (vs & Hvs & Hn).
    by exists gid, vs, b, cols.
  - intros (k & vs & b & cols & Hvs & Hn & Hl & Hhead & Hcols & Hc).
    right. exists k, (BlockwiseLayer b), cols. split_and!; [|done..].
    apply (getitem_dependents_spec _ _ _ Hg). split.
    + apply elem_of_elements, (dependents_lookup _ _ _ HD). eauto.
    + exists (BlockwiseLayer b). split; [done|]. apply is_getitem_blockwise. eauto.
Qed.

(** Two graphs with the same dependencies, whose layers look the same to
    the seed computation, have the same seed sets. *)
Section same_view.
Variables g g' : HighLevelGraph.
Hypothesis Hdeps : dependencies g' = dependencies g.
Hypothesis Hview : ∀ k, layer_view <$> layers g' !! k = layer_view <$> layers g !! k.

Lemma same_view_layer (k : string) :
  match lookup_layer (layers g') k, lookup_layer (layers g) k with
  | Ok l', Ok l => layer_view l' = layer_view l
  | Raise e', Raise e => e' = e
  | _, _ => False
  end.
Proof.
  specialize (Hview k). unfold lookup_layer.
  destruct (layers g' !! k), (layers g !! k); try done.
  by apply (inj Some).
Qed.

Lemma same_view_getitem_dependents (ks : list string) :
  getitem_dependents g' ks = getitem_dependents g ks.
Proof.
  induction ks as [|k ks IH]; [done|]. simpl. rewrite IH.
  pose proof (same_view_layer k) as Hk.
  destruct (lookup_layer (layers g') k) as [l'|], (lookup_layer (layers g) k) as [l|];
    try done; [|by subst].
  rewrite !bind_Ok. injection Hk as -> _. done.
Qed.

Lemma same_view_union_requested (gids : list string) (seed : gset string) :
  union_requested g' gids seed = union_requested g gids seed.
Proof.
  revert seed. induction gids as [|gid gids IH]; intros seed; [done|]. simpl.
  pose proof (same_view_layer gid) as Hk.
  destruct (lookup_layer (layers g') gid) as [l'|], (lookup_layer (layers g) gid) as [l|];
    try done; [|by subst].
  rewrite !bind_Ok. injection Hk as _ ->.
  destruct (_requested_columns l); [|done]. rewrite !bind_Ok. apply IH.
Qed.

Lemma same_view_seed_columns (n : string) : seed_columns g' n = seed_columns g n.
Proof.
  unfold seed_columns, dependents. rewrite Hdeps.
  destruct (_ !! n); [|done].
  rewrite same_view_getitem_dependents.
  destruct (getitem_dependents g _); [|done].
  rewrite !bind_Ok. apply same_view_union_requested.
Qed.

End same_view.

(** ** lib/optimize.py: the rewrite of the source layers *)

Lemma project_columns_idemp (io : AwkwardIOLayer) (cols : list string) :
  project_columns (project_columns io cols) cols = project_columns io cols.
Proof. reflexivity. Qed.


Lemma narrowed_view (dsk : HighLevelGraph) (n : string) (l : Layer) :
  layer_view (narrowed dsk n l) = layer_view l.
Proof.
  destruct l as [d|b|io]; try done. simpl.
  destruct (io_projectable io); [|done].
  destruct (seed_columns dsk n) as [S|]; [|done]. by destruct (decide (S = ∅)).
Qed.

Lemma narrowed_is_pio (dsk : HighLevelGraph) (n : string) (l : Layer) :
  is_pio (narrowed dsk n l) = is_pio l.
Proof.
  destruct l as [d|b|io]; try done. simpl.
  destruct (io_projectable io) eqn:Hp; [|by simpl].
  destruct (seed_columns dsk n) as [S|]; [|by simpl].
  by destruct (decide (S = ∅)).
Qed.

Lemma narrowed_not_pio (dsk : HighLevelGraph) (n : string) (l : Layer) :
  is_pio l = false → narrowed dsk n l = l.
Proof. destruct l as [d|b|io]; try done. simpl. by intros ->. Qed.

Lemma is_pio_IOLayer (l : Layer) :
  is_pio l = true ↔ ∃ io, l = IOLayer io ∧ io_projectable io = true.
Proof. destruct l; simpl; naive_solver. Qed.

Lemma elem_of_pio_layer_names (dsk : HighLevelGraph) (n : string) :
  n ∈ pio_layer_names dsk ↔ ∃ l, layers dsk !! n = Some l ∧ is_pio l = true.
Proof.
  unfold pio_layer_names. rewrite list_elem_of_fmap. split.
  - intros ([n' l] & -> & [Hp Hin%elem_of_map_to_list]%list_elem_of_filter). eauto.
  - intros (l & Hl & Hp). exists (n, l). split; [done|].
    apply list_elem_of_filter. split; [done|]. by apply elem_of_map_to_list.
Qed.

Lemma NoDup_pio_layer_names (dsk : HighLevelGraph) : NoDup (pio_layer_names dsk).
Proof.
  unfold pio_layer_names.
  eapply sublist_NoDup; [apply (NoDup_fst_map_to_list (layers dsk))|].
  apply fmap_sublist, sublist_filter.
Qed.

(** The loop over the source layers, when it finishes: every name had a
    seed set, and each named layer was narrowed, once. *)
Lemma project_layers_spec (dsk : HighLevelGraph) (names : list string)
    (lay lay' : gmap string Layer) :
  NoDup names →
  (∀ n, n ∈ names → ∃ l, lay !! n = Some l ∧ is_pio l = true) →
  project_layers dsk names lay = Ok lay' →
  (∀ n, n ∈ names → is_ok (seed_columns dsk n) = true) ∧
  ∀ m, lay' !! m = if decide (m ∈ names) then narrowed dsk m <$> lay !! m else lay !! m.
Proof.
  revert lay. induction names as [|n names IH]; intros lay Hnd Hpio Hrun.
  - injection Hrun as <-. split; [by intros ? ?%elem_of_nil|].
    intros m. by rewrite decide_False by apply not_elem_of_nil.
  - apply NoDup_cons in Hnd as [Hn Hnd]. simpl in Hrun.
    destruct (seed_columns dsk n) as [S|] eqn:HS; [|done]. rewrite bind_Ok in Hrun.
    destruct (Hpio n) as (l & Hl & [io [-> Hproj]]%is_pio_IOLayer); [left|].
    assert (∀ lay1, lay1 !! n = Some (narrowed dsk n (IOLayer io)) →
                    (∀ m, m ≠ n → lay1 !! m = lay !! m) →
                    project_layers dsk names lay1 = Ok lay' →
                    (∀ n0, n0 ∈ n :: names → is_ok (seed_columns dsk n0) = true) ∧
                    ∀ m, lay' !! m = if decide (m ∈ n :: names)
                                     then narrowed dsk m <$> lay !! m else lay !! m)
      as Hstep.
    { intros lay1 Hlay1 Hother Hrest.
      destruct (IH lay1 Hnd) as [Hseeds Hspec]; [|done|].
      { intros m Hm. rewrite Hother by (by intros ->). apply Hpio. by right. }
      split.
      - intros n0 [->|?]%elem_of_cons; [by rewrite HS|by apply Hseeds].
      - intros m. rewrite Hspec. destruct (decide (m = n)) as [->|Hne].
        + rewrite decide_False by done. rewrite decide_True by left.
          by rewrite Hlay1, Hl.
        + rewrite Hother by done.
          destruct (decide (m ∈ names)).
          * by rewrite decide_True by (by right).
          * rewrite decide_False; [done|]. by intros [?|?]%elem_of_cons. }
    destruct (decide (S = ∅)) as [HSe|HSne].
    + apply (Hstep lay); [|done..]. simpl. by rewrite Hproj, HS, decide_True.
    + rewrite (proj2 (lookup_layer_Ok lay n (IOLayer io)) Hl), bind_Ok in Hrun.
      eapply Hstep; [| |exact Hrun].
      * rewrite lookup_insert_eq. simpl. by rewrite Hproj, HS, decide_False.
      * intros m Hne. by rewrite lookup_insert_ne.
Qed.

(** The loop finishes when every name has a seed set and names a source
    layer. *)
Lemma project_layers_ok (dsk : HighLevelGraph) (names : list string)
    (lay : gmap string Layer) :
  (∀ n, n ∈ names → is_ok (seed_columns dsk n) = true) →
  (∀ n, n ∈ names → ∃ io, lay !! n = Some (IOLayer io)) →
  ∃ lay', project_layers dsk names lay = Ok lay'.
Proof.
  revert lay. induction names as [|n names IH]; intros lay Hseeds Hio; [by eexists|].
  simpl. pose proof (Hseeds n) as Hn.
  destruct (seed_columns dsk n) as [S|]; [|by discriminate Hn; left].
  rewrite bind_Ok. destruct (decide (S = ∅)).
  - apply IH; intros m Hm; [apply Hseeds|apply Hio]; by right.
  - destruct (Hio n) as [io Hl]; [left|].
    rewrite (proj2 (lookup_layer_Ok lay n (IOLayer io)) Hl), bind_Ok.
    apply IH.
    + intros m Hm. apply Hseeds. by right.
    + intros m Hm. destruct (decide (m = n)) as [->|Hne].
      * rewrite lookup_insert_eq. eauto.
      * rewrite lookup_insert_ne by done. apply Hio. by right.
Qed.

(** The optimizer, when it returns: same dependencies, every layer
    replaced by what [narrowed] makes of it. *)
Lemma optimize_iolayer_columns_narrows (dsk g' : HighLevelGraph) :
  optimize_iolayer_columns dsk = Ok g' →
  dependencies g' = dependencies dsk ∧
  (∀ m, layers g' !! m = narrowed dsk m <$> layers dsk !! m) ∧
  (∀ n, n ∈ pio_layer_names dsk → is_ok (seed_columns dsk n) = true).
Proof.
  unfold optimize_iolayer_columns.
  destruct (pio_layer_names dsk) as [|n0 names] eqn:Hnames.
  - intros [= <-]. split_and!; [done| |by intros ? ?%elem_of_nil].
    intros m. destruct (layers dsk !! m) as [l|] eqn:Hl; [|done]. simpl.
    rewrite narrowed_not_pio; [done|].
    destruct (is_pio l) eqn:Hp; [|done].
    assert (m ∈ pio_layer_names dsk) as Hm by (apply elem_of_pio_layer_names; eauto).
    rewrite Hnames in Hm. by apply elem_of_nil in Hm.
  - rewrite <- Hnames.
    destruct (project_layers dsk (pio_layer_names dsk) (layers dsk)) as [lay'|] eqn:Hrun;
      [|done].
    rewrite bind_Ok. intros [= <-]. cbn [layers dependencies].
    destruct (project_layers_spec dsk _ _ _ (NoDup_pio_layer_names dsk)
                (λ n, proj1 (elem_of_pio_layer_names dsk n)) Hrun) as [Hseeds Hspec].
    split_and!; [done| |done].
    intros m. rewrite Hspec. destruct (decide (m ∈ pio_layer_names dsk)) as [|Hm]; [done|].
    destruct (layers dsk !! m) as [l|] eqn:Hl; [|done]. simpl.
    rewrite narrowed_not_pio; [done|].
    destruct (is_pio l) eqn:Hp; [|done].
    destruct Hm. apply elem_of_pio_layer_names. eauto.
Qed.

(** The optimizer returns when every source layer has a seed set. *)
Lemma optimize_iolayer_columns_returns (dsk : HighLevelGraph) :
  (∀ n, n ∈ pio_layer_names dsk → is_ok (seed_columns dsk n) = true) →
  ∃ g', optimize_iolayer_columns dsk = Ok g'.
Proof.
  intros Hseeds. unfold optimize_iolayer_columns.
  destruct (pio_layer_names dsk) as [|n0 names] eqn:Hnames; [by eexists|].
  rewrite <- Hnames in *.
  destruct (project_layers_ok dsk (pio_layer_names dsk) (layers dsk) Hseeds) as [lay' ->].
  - intros n (l & Hl & (io & -> & _)%is_pio_IOLayer)%elem_of_pio_layer_names. eauto.
  - rewrite bind_Ok. by eexists.
Qed.

Lemma getitem_dependents_ok (dsk : HighLevelGraph) (ks : list string) :
  (∀ k, k ∈ ks → is_Some (layers dsk !! k)) →
  ∃ gids, getitem_dependents dsk ks = Ok gids.
Proof.
  induction ks as [|k ks IH]; intros Hks; [by eexists|]. simpl.
  destruct (Hks k) as [l Hl]; [left|].
  rewrite (proj2 (lookup_layer_Ok _ _ _) Hl), bind_Ok.
  destruct IH as [more ->]; [intros ??; apply Hks; by right|].
  rewrite bind_Ok. by eexists.
Qed.


(** On a field selection the code requests the fields the spec names. *)
Lemma requested_columns_fields (b : Blockwise) (key : Value) (fields : gset string) :
  field_selection b key → requested_fields key = Some fields →
  _requested_columns (BlockwiseLayer b) = Ok fields.
Proof.
  intros [_ [index Hsecond]] Hfields. simpl.
  rewrite (getitem_nonneg _ 1 _ (ltac:(lia)) Hsecond), bind_Ok. simpl.
  destruct key; simpl in Hfields; by simplify_eq.
Qed.

Lemma field_selection_key (b : Blockwise) (key key' : Value) :
  field_selection b key → field_selection b key' → key' = key.
Proof. intros [_ [i Hi]] [_ [i' Hi']]. congruence. Qed.




(** C7. Running the optimizer on its own result changes nothing: running
    it twice is the same as running it once (also when it raises). *)
Theorem optimize_iolayer_columns_idempotent (dsk : HighLevelGraph) :
  (optimize_iolayer_columns dsk ≫= optimize_iolayer_columns)
  = optimize_iolayer_columns dsk.
Proof.
  destruct (optimize_iolayer_columns dsk) as [g'|e] eqn:Hrun; [|done].
  rewrite bind_Ok.
  destruct (optimize_iolayer_columns_narrows dsk g' Hrun) as (Hdeps & Hlay & Hseeds).
  assert (∀ k, layer_view <$> layers g' !! k = layer_view <$> layers dsk !! k) as Hview.
  { intros k. rewrite Hlay. destruct (layers dsk !! k); [|done]. simpl.
    by rewrite narrowed_view. }
  pose proof (same_view_seed_columns dsk g' Hdeps Hview) as Hseed.
  assert (∀ n, n ∈ pio_layer_names g' ↔ n ∈ pio_layer_names dsk) as Hnames.
  { intros n. rewrite !elem_of_pio_layer_names, Hlay.
    destruct (layers dsk !! n) as [l|]; simpl; [|naive_solver].
    split; intros (l' & [= <-] & Hp); eexists; (split; [done|]);
      by rewrite ?narrowed_is_pio in *. }
  destruct (optimize_iolayer_columns_returns g') as [g'' Hrun'].
  { intros n Hn%Hnames. rewrite Hseed. by apply Hseeds. }
  rewrite Hrun'. f_equal.
  destruct (optimize_iolayer_columns_narrows g' g'' Hrun') as (Hdeps' & Hlay' & _).
  destruct g' as [lay' deps'], g'' as [lay'' deps'']. simpl in *. f_equal; [|done].
  apply map_eq. intros m. rewrite Hlay', Hlay.
  destruct (layers dsk !! m) as [l|]; [|done]. simpl. f_equal.
  destruct l as [d|b|io]; try done. simpl.
  destruct (io_projectable io) eqn:Hproj; [|by simpl; rewrite Hproj].
  destruct (seed_columns dsk m) as [S|] eqn:HS; [|by simpl; rewrite Hproj, Hseed, HS].
  destruct (decide (S = ∅)) as [HSe|HSne]; simpl.
  - by rewrite Hproj, Hseed, HS, decide_True.
  - by rewrite Hproj, Hseed, HS, decide_False.
Qed.

(** The scenario: a source layer declaring [{a, b, c}] with one downstream
    selection of [["a", "c"]] is narrowed to exactly [{a, c}]; with no
    downstream field selection the graph comes back as it was; and a
    second run changes nothing. *)
Example optimize_scenario :
  (g' ← optimize_iolayer_columns Demo.selecting_graph;
   match layers g' !! "src" with
   | Some (IOLayer io) => Ok (io_columns io)
   | _ => Raise KeyError
   end) = Ok {["a"; "c"]} ∧
  optimize_iolayer_columns Demo.plain_graph = Ok Demo.plain_graph ∧
  (optimize_iolayer_columns Demo.selecting_graph ≫= optimize_iolayer_columns)
  = optimize_iolayer_columns Demo.selecting_graph.
Proof. split_and!; by vm_compute. Qed.




(** * Further properties of the code *)

(** ** utils.py: indices outside the collection *)

Lemma searchsorted_right_all_le (d : list Z) (key : Z) :
  Numpy.nondecreasing d = true → (∀ i, (i < length d)%nat → nth i d 0 ≤ key) →
  Numpy.searchsorted_right d key = len d.
Proof.
  intros Hs Hall.
  destruct (NumpyFacts.searchsorted_right_spec d key Hs) as (r & -> & Hr & _ & Habove).
  unfold len. f_equal. destruct (decide (r = length d)) as [|Hne]; [done|].
  specialize (Habove r). specialize (Hall r). lia.
Qed.

Lemma searchsorted_right_all_gt (d : list Z) (key : Z) :
  Numpy.nondecreasing d = true → (∀ i, (i < length d)%nat → key < nth i d 0) →
  Numpy.searchsorted_right d key = 0.
Proof.
  intros Hs Hall.
  destruct (NumpyFacts.searchsorted_right_spec d key Hs) as (r & -> & Hr & Hbelow & _).
  destruct r as [|r]; [done|].
  specialize (Hbelow 0%nat). specialize (Hall 0%nat). lia.
Qed.

Lemma valid_divisions_bounds (d : list Z) (total : Z) (i : nat) :
  valid_divisions d → last d = Some total → (i < length d)%nat →
  0 ≤ nth i d 0 ≤ total.
Proof.
  intros (Hs & Hzero & Hlen) Hlast Hi. rewrite last_lookup in Hlast.
  pose proof (NumpyFacts.nondecreasing_nth d 0 i Hs) as Hlo.
  pose proof (NumpyFacts.nondecreasing_nth d i (pred (length d)) Hs) as Hhi.
  rewrite (nth_lookup_Some _ _ _ _ Hzero) in Hlo.
  rewrite (nth_lookup_Some _ _ _ _ Hlast) in Hhi. lia.
Qed.

(** The function checks no bounds. On valid divisions with several
    partitions an index at or past the total resolves to the partition
    number [npartitions], one past the last partition, and an index below
    [-total] resolves to partition [-1]; with a single partition every
    index resolves to partition 0. Nothing is raised. *)
Theorem normalize_single_outer_inner_index_no_bounds (d : list Z) (total : Z) :
  valid_divisions d → last d = Some total →
  (∀ i, total ≤ i →
     normalize_single_outer_inner_index d i
     = Ok (if len d =? 2 then (0, i) else (len d - 1, i - total))) ∧
  (∀ i, i < - total →
     normalize_single_outer_inner_index d i
     = Ok (if len d =? 2 then (0, total + i) else (-1, i))).
Proof.
  intros Hv Hlast. pose proof Hv as (Hs & Hzero & Hlen).
  pose proof (λ j, valid_divisions_bounds d total j Hv Hlast) as Hb.
  assert (0 ≤ total) as Htotal.
  { specialize (Hb 0%nat). lia. }
  split; intros i Hi; unfold normalize_single_outer_inner_index.
  - replace (i <? 0) with false by (symmetry; apply Z.ltb_ge; lia).
    rewrite bind_Ok. destruct (len d =? 2) eqn:H2; [done|].
    rewrite NumpyFacts.digitize_nondecreasing, bind_Ok by done.
    rewrite searchsorted_right_all_le by (done || intros j Hj; specialize (Hb j); lia).
    rewrite last_lookup in Hlast.
    rewrite (getitem_nonneg d (len d - 1) total), bind_Ok; [done|unfold len; lia|].
    unfold len. by replace (Z.to_nat (Z.of_nat (length d) - 1)) with (pred (length d)) by lia.
  - replace (i <? 0) with true by (symmetry; apply Z.ltb_lt; lia).
    rewrite (getitem_last d total Hlast), !bind_Ok.
    destruct (len d =? 2) eqn:H2; [done|].
    rewrite NumpyFacts.digitize_nondecreasing, bind_Ok by done.
    rewrite searchsorted_right_all_gt by (done || intros j Hj; specialize (Hb j); lia).
    change (0 - 1) with (-1).
    rewrite (getitem_last d total Hlast), bind_Ok. do 2 f_equal. lia.
Qed.

Lemma normalize_single_outer_inner_index_no_bounds_witness :
  normalize_single_outer_inner_index [0; 3; 6; 9] 9 = Ok (3, 0) ∧
  normalize_single_outer_inner_index [0; 3; 6; 9] (-10) = Ok (-1, -10).
Proof.
  assert (valid_divisions [0; 3; 6; 9]) as Hv.
  { split_and!; [reflexivity|reflexivity|simpl; lia]. }
  destruct (normalize_single_outer_inner_index_no_bounds [0; 3; 6; 9] 9 Hv eq_refl)
    as [Hhigh Hlow].
  split; [apply (Hhigh 9); lia|apply (Hlow (-10)); lia].
Defined.

(** ** core.py: [new_array_object] and [Array.clear_divisions] *)

Section new_array_more.
Context `{Engine}.

Lemma new_array_object_of_npartitions dsk name meta n :
  new_array_object dsk name meta (Some n) None
  = new_array_object dsk name meta None (Some (replicate (Z.to_nat (n + 1)) None)).
Proof. unfold new_array_object. by rewrite !Run_bind_pure_Ok. Qed.

Lemma new_array_object_requests_cases dsk name meta d :
  let run := new_array_object dsk name meta None (Some d) in
  (length (requests run) ≤ 1)%nat ∧
  (∀ rq, rq ∈ requests run → meta = None ∧ rq = (dsk, KPart name 0)) ∧
  (∀ a, outcome run = Ok a →
        a_dask a = dsk ∧ a_name a = name ∧ divisions a = d ∧
        ∀ m, meta = Some m → a_meta a = Some m).
Proof.
  destruct meta as [m|]; cbv zeta.
  - rewrite new_array_object_meta. simpl. split_and!; [lia|by intros ? ?%elem_of_nil|].
    intros a [= <-]. split_and!; try done; by intros ? [= <-].
  - destruct (decide (1 ≤ len d - 1)) as [Hd|Hd].
    + rewrite new_array_object_fallback by done. cbn [requests outcome].
      split_and!; [simpl; lia|by intros rq ->%list_elem_of_singleton|].
      intros a Ha. split_and!; [| | |done];
        destruct (scheduler_get _ _) as [[m|]|e]; simplify_eq; try done;
        destruct (caught e); by simplify_eq.
    + rewrite new_array_object_fallback_empty by lia. simpl.
      split_and!; [lia|by intros ? ?%elem_of_nil|done].
Qed.

(** Exactly one of [npartitions] and [divisions] has to be given: with both
    or with neither the call raises ValueError before anything else happens.
    With a partition count [n >= 0] (and metadata) the result has [n]
    partitions, [n] output keys and [n + 1] unknown divisions. *)
Theorem new_array_object_arguments dsk name meta :
  (∀ n d, new_array_object dsk name meta (Some n) (Some d) = MkRun [] (Raise ValueError)) ∧
  new_array_object dsk name meta None None = MkRun [] (Raise ValueError) ∧
  (∀ n m, meta = Some m → 0 ≤ n →
     ∃ a, new_array_object dsk name meta (Some n) None = MkRun [] (Ok a) ∧
          npartitions a = n ∧ len (Array_dask_keys a) = n ∧
          unknown_divisions (divisions a) ∧ known_divisions a = false).
Proof.
  split_and!; [done..|].
  intros n m -> Hn. rewrite new_array_object_of_npartitions, new_array_object_meta.
  eexists. split; [reflexivity|].
  assert (Z.to_nat (n + 1) = S (Z.to_nat n)) as Hlen by lia.
  unfold npartitions, Array_dask_keys, npartitions, len. cbn [divisions a_name].
  rewrite length_fmap, length_seqZ, length_replicate. split_and!; [lia|lia| |].
  - rewrite Hlen. apply unknown_replicate.
  - unfold known_divisions. cbn [divisions]. rewrite Hlen. simpl.
    reflexivity.
Qed.

(** The metadata fallback is bounded: whatever the arguments,
    [new_array_object] asks the scheduler for at most one key, only when no
    metadata was passed, and then for the first key of the new collection on
    the graph it was given. What it returns carries that graph and name, and
    the metadata that was passed. *)
Theorem new_array_object_requests_bounded dsk name meta np d :
  let run := new_array_object dsk name meta np d in
  (length (requests run) ≤ 1)%nat ∧
  (∀ rq, rq ∈ requests run → meta = None ∧ rq = (dsk, KPart name 0)) ∧
  (∀ a, outcome run = Ok a →
        a_dask a = dsk ∧ a_name a = name ∧ ∀ m, meta = Some m → a_meta a = Some m).
Proof.
  assert (∀ e, let run := @MkRun Array [] (Raise e) in
               (length (requests run) ≤ 1)%nat ∧
               (∀ rq, rq ∈ requests run → meta = None ∧ rq = (dsk, KPart name 0)) ∧
               (∀ a, outcome run = Ok a →
                     a_dask a = dsk ∧ a_name a = name ∧
                     ∀ m, meta = Some m → a_meta a = Some m)) as Hraise.
  { intros e. simpl. split_and!; [lia|by intros ? ?%elem_of_nil|done]. }
  destruct np as [n|], d as [d|]; [apply Hraise| | |apply Hraise].
  - rewrite new_array_object_of_npartitions.
    destruct (new_array_object_requests_cases dsk name meta
                (replicate (Z.to_nat (n + 1)) None)) as (? & ? & Hok).
    split_and!; [done..|]. intros a Ha. by destruct (Hok a Ha) as (? & ? & _ & ?).
  - destruct (new_array_object_requests_cases dsk name meta d) as (? & ? & Hok).
    split_and!; [done..|]. intros a Ha. by destruct (Hok a Ha) as (? & ? & _ & ?).
Qed.

End new_array_more.

Lemma new_array_object_arguments_witness :
  ∃ a, @new_array_object Demo.engine (Demo.source_graph "x") "x" (Some "form") (Some 3) None
       = MkRun [] (Ok a) ∧
       npartitions a = 3 ∧ len (Array_dask_keys a) = 3 ∧
       unknown_divisions (divisions a) ∧ known_divisions a = false.
Proof.
  destruct (@new_array_object_arguments Demo.engine (Demo.source_graph "x") "x" (Some "form"))
    as (_ & _ & Hn).
  apply (Hn 3 "form"); [done|lia].
Defined.

Lemma new_array_object_requests_bounded_witness :
  let run := @new_array_object Demo.engine (Demo.source_graph "x") "x" None (Some 2) None in
  requests run = [(Demo.source_graph "x", KPart "x" 0)].
Proof.
  intros run.
  destruct (@new_array_object_requests_bounded Demo.engine (Demo.source_graph "x") "x"
              None (Some 2) None) as (Hlen & Hrq & _).
  fold run in Hlen, Hrq.
  destruct (requests run) as [|rq [|rq' rest]] eqn:Hreqs.
  - by vm_compute in Hreqs.
  - destruct (Hrq rq) as [_ ->]; [left|]. done.
  - simpl in Hlen. lia.
Defined.

(** [clear_divisions] forgets the divisions and nothing else: the partition
    count, the output keys, the graph, the name and the metadata stay, and
    the divisions are no longer known. *)
Theorem clear_divisions_keeps_partitions (self : Array) :
  npartitions (clear_divisions self) = npartitions self ∧
  Array_dask_keys (clear_divisions self) = Array_dask_keys self ∧
  known_divisions (clear_divisions self) = false ∧
  Forall (λ d, d = None) (divisions (clear_divisions self)) ∧
  length (divisions (clear_divisions self)) = length (divisions self).
Proof.
  assert (length (divisions (clear_divisions self)) = length (divisions self)) as Hlen.
  { unfold clear_divisions, npartitions, len. cbn [divisions].
    rewrite length_replicate. lia. }
  assert (npartitions (clear_divisions self) = npartitions self) as Hn.
  { unfold npartitions, len. by rewrite Hlen. }
  assert (Forall (λ d, d = None) (divisions (clear_divisions self))) as Hnone.
  { apply Forall_forall. by intros x ->%elem_of_replicate_inv. }
  split_and!; try done.
  - unfold Array_dask_keys. by rewrite Hn.
  - unfold known_divisions.
    destruct (divisions (clear_divisions self)) as [|x xs] eqn:Hd; [done|].
    apply Forall_cons in Hnone as [-> _]. reflexivity.
Qed.

(** ** core.py: which partitions [Array.partitions] selects *)

Lemma omap_fmap_Some {A B C} (f : B → option C) (g : A → B) (h : A → C) (l : list A) :
  (∀ x, x ∈ l → f (g x) = Some (h x)) → omap f (g <$> l) = h <$> l.
Proof.
  induction l as [|x l IH]; intros Hall; [done|].
  rewrite !fmap_cons. cbn [omap list_omap]. rewrite Hall by left.
  rewrite IH; [done|]. intros y Hy. apply Hall. by right.
Qed.

Lemma enumerate_fmap_seqZ {A} (f : Z → A) (n : Z) :
  enumerate (f <$> seqZ 0 n) = (λ k, (k, f k)) <$> seqZ 0 n.
Proof.
  unfold enumerate. apply list_eq. intros j.
  rewrite list_lookup_imap, !list_lookup_fmap.
  destruct (decide (Z.of_nat j < n)) as [Hj|Hj].
  - rewrite lookup_seqZ_lt by done. simpl. done.
  - rewrite lookup_seqZ_ge by lia. done.
Qed.

Lemma zip_fmap_seqZ {A B} (f : Z → A) (g : Z → B) (n m : Z) :
  n = m → zip (f <$> seqZ 0 n) (g <$> seqZ 0 m) = (λ k, (f k, g k)) <$> seqZ 0 n.
Proof.
  intros <-. induction (seqZ 0 n) as [|k l IH]; [done|].
  rewrite !fmap_cons. simpl. by rewrite IH.
Qed.

Lemma take_keys_full_slice (self : Array) :
  normalize_index (SelSlice None None None) (npartitions self)
    = Ok (RawSlice 0 (npartitions self) 1) ∧
  take_keys (Array_dask_keys self) (RawSlice 0 (npartitions self) 1)
    = Array_dask_keys self.
Proof.
  split; [done|].
  unfold take_keys, positions, range, Array_dask_keys.
  change (1 =? 0) with false. change (0 <? 1) with true. cbv iota.
  replace ((npartitions self - 0 + 1 - 1) `div` 1) with (npartitions self)
    by (rewrite Z.div_1_r; lia).
  apply omap_fmap_Some. intros k Hk.
  apply elem_of_seqZ in Hk.
  replace (0 + k * 1) with k by lia.
  replace (k <? 0) with false by (symmetry; apply Z.ltb_ge; lia).
  rewrite list_lookup_fmap, lookup_seqZ_lt by lia. simpl. do 2 f_equal. lia.
Qed.

Section partitions_more.
Context `{Engine}.

(** A single integer selects one partition or nothing: outside
    [-npartitions, npartitions) the call raises IndexError without building
    or computing anything; inside, the result has exactly one partition and
    one output key, whose task is the bare key of partition [i] of the
    source (of partition [npartitions + i] for a negative [i]). *)
Theorem partitions_single_partition (self : Array) (i : Z) :
  (¬ (- npartitions self ≤ i < npartitions self) →
   _partitions self (SelInt i) = MkRun [] (Raise IndexError)) ∧
  (∀ r, outcome (_partitions self (SelInt i)) = Ok r →
     let k := if i <? 0 then i + npartitions self else i in
     let name := "partitions-" +:+ tokenize (a_name self, SelInt i) in
     - npartitions self ≤ i < npartitions self ∧
     a_name r = name ∧ npartitions r = 1 ∧
     Array_dask_keys r = [KPart name 0] ∧
     layers (a_dask r) !! name
     = Some (MaterializedLayer [(KPart name 0, TAlias (KPart (a_name self) k))])).
Proof.
  split.
  - intros Hout. apply partitions_raises. unfold normalize_index.
    destruct ((- npartitions self <=? i) && (i <? npartitions self)) eqn:Hr; [|done].
    apply andb_prop in Hr as [?%Z.leb_le ?%Z.ltb_lt]. lia.
  - intros r Hr. cbv zeta.
    destruct (normalize_index (SelInt i) (npartitions self)) as [raw|e] eqn:Hraw;
      [|by rewrite (partitions_raises _ _ _ Hraw) in Hr].
    destruct (partitions_unfold self (SelInt i) raw Hraw) as (nd & Hnd & Hlen & Heq).
    apply normalize_index_int in Hraw as [Hi ->].
    set (k := if i <? 0 then _ else _) in *.
    assert (0 ≤ k < npartitions self) as Hk
      by (unfold k; destruct (i <? 0) eqn:?; lia).
    rewrite take_keys_int in Hlen, Heq by done.
    rewrite Heq in Hr. apply new_array_object_divisions in Hr as (Hd & Hname & Hdask).
    assert (npartitions r = 1) as Hone.
    { unfold npartitions. rewrite Hd. unfold len in *. simpl in Hlen. lia. }
    split_and!; [lia..|done|done| |].
    + unfold Array_dask_keys. by rewrite Hone, Hname.
    + rewrite Hdask. cbn [from_collections layers]. by rewrite lookup_insert_eq.
Qed.

(** The full slice [partitions[:]] is a renamed copy of the collection:
    when it returns, the result has as many partitions as the source, task
    [k] of its layer is the bare key of partition [k], in order, and its
    divisions are unknown, also when those of the source were known. *)
Theorem partitions_full_slice (self : Array) (r : Array) :
  outcome (_partitions self (SelSlice None None None)) = Ok r →
  let name := "partitions-" +:+ tokenize (a_name self, SelSlice None None None) in
  a_name r = name ∧
  npartitions r = npartitions self ∧
  unknown_divisions (divisions r) ∧
  layers (a_dask r) !! name
  = Some (MaterializedLayer
            ((λ k, (KPart name k, TAlias (KPart (a_name self) k)))
               <$> seqZ 0 (npartitions self))).
Proof.
  intros Hr name.
  destruct (take_keys_full_slice self) as [Hraw Hkeys].
  destruct (partitions_unfold self _ _ Hraw) as (nd & Hnd & Hlen & Heq).
  rewrite Hkeys in Hnd, Hlen, Heq. fold name in Heq. rewrite Heq in Hr.
  simpl in Hnd. injection Hnd as <-.
  destruct (decide (1 ≤ npartitions self)) as [Hn|Hn].
  - apply new_array_object_divisions in Hr as (Hd & Hname & Hdask).
    split_and!; [done| | |].
    + unfold npartitions at 1. rewrite Hd, Hlen.
      unfold Array_dask_keys, len. rewrite length_fmap, length_seqZ. lia.
    + rewrite Hd, Nat.add_1_r. apply unknown_replicate.
    + rewrite Hdask. cbn [from_collections layers]. rewrite lookup_insert_eq.
      do 2 f_equal. unfold Array_dask_keys.
      rewrite enumerate_fmap_seqZ, <- list_fmap_compose. done.
  - rewrite new_array_object_fallback_empty in Hr; [done|].
    rewrite Hlen. unfold Array_dask_keys, len. rewrite length_fmap, length_seqZ. lia.
Qed.

End partitions_more.

Lemma partitions_single_partition_witness :
  let self := Demo.array "x" None [Some 0; Some 3; Some 6] in
  @_partitions Demo.engine self (SelInt 2) = MkRun [] (Raise IndexError) ∧
  ∀ r, outcome (@_partitions Demo.engine self (SelInt (-2))) = Ok r →
       Array_dask_keys r = [KPart "partitions-t" 0] ∧
       layers (a_dask r) !! "partitions-t"
       = Some (MaterializedLayer [(KPart "partitions-t" 0, TAlias (KPart "x" 0))]).
Proof.
  intros self. split.
  - destruct (@partitions_single_partition Demo.engine self 2) as [Hout _].
    apply Hout. vm_compute. by intros [_ Hlt].
  - intros r Hr.
    destruct (@partitions_single_partition Demo.engine self (-2)) as [_ Hin].
    destruct (Hin r Hr) as (_ & _ & _ & Hkeys & Hlay). by split.
Defined.

Lemma partitions_full_slice_witness :
  ∃ r, outcome (@_partitions Demo.engine
                  (Demo.array "x" None [Some 0; Some 3; Some 6])
                  (SelSlice None None None)) = Ok r ∧
       npartitions r = 2 ∧ unknown_divisions (divisions r).
Proof.
  eexists. split; [reflexivity|].
  destruct (@partitions_full_slice Demo.engine
              (Demo.array "x" None [Some 0; Some 3; Some 6]) _ eq_refl)
    as (_ & Hn & Hu & _).
  by split.
Defined.

(** ** core.py: [partitionwise_layer] and [map_partitions] *)

(** The entry of [numblocks] under a name is the partition count of the
    last [Array] argument of that name, or the entry there was. *)
Lemma numblocks_from_lookup (numblocks : gmap string Z) (args : list PyArg) (n : string)
    (k : Z) :
  numblocks_from numblocks args !! n = Some k ↔
  (∃ before a after, args = before ++ ArgArray a :: after ∧
                     a_name a = n ∧ npartitions a = k ∧
                     ∀ a', ArgArray a' ∈ after → a_name a' ≠ n) ∨
  (numblocks !! n = Some k ∧ ∀ a, ArgArray a ∈ args → a_name a ≠ n).
Proof.
  revert numblocks. induction args as [|arg args IH]; intros numblocks.
  - simpl. split; [intros Hn; right; split; [done|by intros a ?%elem_of_nil]|].
    intros [(before & a & after & Hargs & _)|[Hn _]]; [|done].
    by destruct before.
  - assert (numblocks_from numblocks (arg :: args)
            = numblocks_from (match arg with
                              | ArgArray a => <[a_name a := npartitions a]> numblocks
                              | _ => numblocks
                              end) args) as -> by done.
    rewrite IH. split.
    + intros [(before & a & after & -> & Ha & Hk & Hafter)|[Hn Hnone]].
      * left. exists (arg :: before), a, after. by split_and!.
      * destruct arg as [a0|s|v].
        -- destruct (decide (a_name a0 = n)) as [Heq|Hne].
           ++ subst n. rewrite lookup_insert_eq in Hn. injection Hn as <-.
              left. exists [], a0, args. split_and!; [done..|].
              intros a' Ha'. by apply Hnone.
           ++ rewrite lookup_insert_ne in Hn by done. right. split; [done|].
              intros a [[= ->]|Ha]%elem_of_cons; [done|by apply Hnone].
        -- right. split; [done|]. intros a [[=]|Ha]%elem_of_cons. by apply Hnone.
        -- right. split; [done|]. intros a [[=]|Ha]%elem_of_cons. by apply Hnone.
    + intros [(before & a & after & Hargs & Ha & Hk & Hafter)|[Hn Hnone]].
      * destruct before as [|b before]; simpl in Hargs.
        -- injection Hargs as -> ->. subst n. right. rewrite lookup_insert_eq, Hk.
           split; [done|]. intros a' Ha'. by apply Hafter.
        -- injection Hargs as -> ->. left. by exists before, a, after.
      * right. split; [|intros a Ha; apply Hnone; by right].
        destruct arg as [a0|s|v]; [|done..].
        rewrite lookup_insert_ne; [done|]. apply Hnone. left.
Qed.

Section map_partitions_more.
Context `{Engine}.

(** With keywords that all reach the function, [partitionwise_layer]
    fails exactly when some positional argument is a dask collection other
    than an [Array] (NotImplementedError). Otherwise the layer has one
    index pair per positional argument, in the order of the arguments: a
    collection by the name of its layer with index ["i"], a plain value as
    a literal without index. [numblocks] is a dict: it has one entry per
    name of an [Array] argument, not one per argument, and the entry is
    the partition count of the last argument of that name. *)
Theorem partitionwise_layer_closed_form (func : Callable) (name : string)
    (args : list PyArg) (kwargs : list (string * PyArg)) :
  function_keywords kwargs = true →
  (existsb is_other_collection args = true →
   partitionwise_layer func name args kwargs = Raise NotImplementedError) ∧
  (existsb is_other_collection args = false →
   ∃ lay, partitionwise_layer func name args kwargs = Ok lay ∧
     bw_output lay = name ∧
     bw_indices lay = blockwise_pair <$> args ∧
     bw_head lay = match kwargs with [] => func | _ => dask_apply end ∧
     ∀ n k, bw_numblocks lay !! n = Some k ↔
            ∃ before a after, args = before ++ ArgArray a :: after ∧
                              a_name a = n ∧ npartitions a = k ∧
                              ∀ a', ArgArray a' ∈ after → a_name a' ≠ n).
Proof.
  intros Hkw. rewrite partitionwise_layer_unfold by done. split.
  - by intros ->.
  - intros ->. eexists. split; [done|]. split_and!; [done..|].
    intros n k. cbn [blockwise_layer bw_numblocks].
    rewrite numblocks_from_lookup. split; [|by left].
    intros [?|[Hn _]]; [done|]. by rewrite lookup_empty in Hn.
Qed.

(** The construction errors of [map_partitions], in the order the code
    meets them, each raised before the scheduler is asked for anything:
    TypeError for a keyword that is a second value for [func], [name] or
    [meta]; NotImplementedError when a positional argument is a dask
    collection other than an [Array]; TypeError for a keyword named like a
    parameter [partitionwise_layer] gives to [blockwise] itself ([output],
    [output_indices], [numblocks], [concatenate]); and, with keywords that
    all reach the function, IndexError when there is no positional
    argument and AttributeError when the first positional argument is a
    plain value. *)
Theorem map_partitions_construction_errors (func : Callable) (args : list PyArg)
    (name : option string) (meta : option Meta) (kwargs : list (string * PyArg)) :
  let run := map_partitions func args name meta kwargs in
  (given_twice ["func"; "name"; "meta"] kwargs = true →
   run = MkRun [] (Raise TypeError)) ∧
  (given_twice ["func"; "name"; "meta"] kwargs = false →
   existsb is_other_collection args = true →
   run = MkRun [] (Raise NotImplementedError)) ∧
  (given_twice ["func"; "name"; "meta"] kwargs = false →
   existsb is_other_collection args = false →
   given_twice blockwise_given kwargs = true →
   run = MkRun [] (Raise TypeError)) ∧
  (function_keywords kwargs = true → args = [] →
   run = MkRun [] (Raise IndexError)) ∧
  (function_keywords kwargs = true →
   ∀ v rest, args = ArgValue v :: rest → existsb is_other_collection rest = false →
   run = MkRun [] (Raise AttributeError)).
Proof.
  intros run. subst run.
  assert (given_twice ["func"; "name"; "meta"] kwargs = false →
          given_twice ["func"; "name"] kwargs = false) as Hown.
  { rewrite !given_twice_false. intros Hall k Hk Hin. apply (Hall k Hk).
    apply elem_of_cons in Hin as [->|Hin]; [left|].
    apply elem_of_cons in Hin as [->|Hin]; [right; left|by apply elem_of_nil in Hin]. }
  split_and!.
  - intros Hmp. unfold map_partitions. by rewrite Hmp.
  - intros Hmp Hex. unfold map_partitions, partitionwise_layer.
    rewrite Hmp, (Hown Hmp), partitionwise_pairs_closed, Hex. done.
  - intros Hmp Hex Hbw. unfold map_partitions, partitionwise_layer.
    rewrite Hmp, (Hown Hmp), partitionwise_pairs_closed, Hex, bind_Ok.
    unfold upstream_blockwise. by rewrite Hbw.
  - intros Hkw ->. unfold map_partitions.
    destruct (function_keywords_bound kwargs Hkw) as (-> & _).
    by rewrite partitionwise_layer_unfold.
  - intros Hkw v rest -> Hrest. unfold map_partitions.
    destruct (function_keywords_bound kwargs Hkw) as (-> & _).
    rewrite partitionwise_layer_unfold by done. simpl existsb. rewrite Hrest.
    rewrite Run_bind_pure_Ok. reflexivity.
Qed.

(** With an [Array] as first positional argument, no foreign collection
    among the arguments and keywords that all reach the function: the call
    asks the scheduler for at most one key, and for none when metadata is
    passed, in which case it returns; what it returns has the divisions of
    that first argument, hence its number of partitions, and one output
    key per partition under the new name. *)
Theorem map_partitions_first_argument_array (func : Callable) (a0 : Array)
    (rest : list PyArg) (name : option string) (meta : option Meta)
    (kwargs : list (string * PyArg)) :
  function_keywords kwargs = true →
  existsb is_other_collection rest = false →
  let run := map_partitions func (ArgArray a0 :: rest) name meta kwargs in
  let lname := match name with
               | Some n => if decide (n = "") then funcname func else n
               | None => funcname func
               end +:+ "-" +:+ tokenize (func, ArgArray a0 :: rest, kwargs) in
  (length (requests run) ≤ 1)%nat ∧
  (∀ m, meta = Some m → ∃ r, run = MkRun [] (Ok r)) ∧
  (∀ r, outcome run = Ok r →
        a_name r = lname ∧ divisions r = divisions a0 ∧
        npartitions r = npartitions a0 ∧
        Array_dask_keys r = KPart lname <$> seqZ 0 (npartitions a0)).
Proof.
  intros Hkw Hrest run lname. subst run. unfold map_partitions. fold lname.
  destruct (function_keywords_bound kwargs Hkw) as (-> & _).
  rewrite partitionwise_layer_unfold by done. simpl existsb. rewrite Hrest.
  rewrite Run_bind_pure_Ok.
  change (getitem (ArgArray a0 :: rest) 0) with
    (if len (ArgArray a0 :: rest) <=? 0 then @Raise PyArg IndexError else Ok (ArgArray a0)).
  replace (len (ArgArray a0 :: rest) <=? 0) with false
    by (symmetry; apply Z.leb_gt; unfold len; simpl; lia).
  rewrite Run_bind_pure_Ok. simpl arg_divisions. rewrite Run_bind_pure_Ok.
  set (hlg := from_collections _ _ _).
  destruct (new_array_object_requests_cases hlg lname meta (divisions a0))
    as (Hlen & _ & Hok).
  split_and!; [done| |].
  - intros m ->. rewrite new_array_object_meta. eauto.
  - intros r Hr. destruct (Hok r Hr) as (_ & Hn & Hd & _).
    split_and!; [done|done| |].
    + unfold npartitions. by rewrite Hd.
    + unfold Array_dask_keys, npartitions. by rewrite Hd, Hn.
Qed.

End map_partitions_more.

Lemma partitionwise_layer_closed_form_witness :
  let a := Demo.array "x" (Some "form") [Some 0; Some 3; Some 6] in
  let f := Fn {| fn_name := "add" |} in
  ∃ lay, @partitionwise_layer Demo.engine f "add-t" [ArgArray a; ArgArray a] [] = Ok lay ∧
         bw_indices lay = [(BwLayer "x", Some "i"); (BwLayer "x", Some "i")] ∧
         bw_numblocks lay = {["x" := 2]}.
Proof.
  intros a f.
  destruct (@partitionwise_layer_closed_form Demo.engine f "add-t" [ArgArray a; ArgArray a]
              [] eq_refl) as [_ Harrays].
  destruct (Harrays eq_refl) as (lay & Hlay & _ & Hind & _ & Hnb).
  exists lay. split_and!; [done|done|].
  apply map_eq. intros n. apply option_eq. intros k. rewrite Hnb.
  rewrite lookup_singleton_Some. split.
  - intros (before & a' & after & Hargs & <- & <- & _).
    destruct before as [|? [|? [|? ?]]]; simpl in Hargs; by simplify_eq.
  - intros [<- <-]. exists [ArgArray a], a, []. split_and!; [done..|].
    by intros a' ?%elem_of_nil.
Defined.

Lemma map_partitions_construction_errors_witness :
  let a := Demo.array "x" (Some "form") [Some 0; Some 3] in
  let f := Fn {| fn_name := "add" |} in
  let s := {| s_dask := Demo.source_graph "s"; s_name := "s"; s_meta := None |} in
  @map_partitions Demo.engine f [ArgArray a; ArgScalar s] None None []
    = MkRun [] (Raise NotImplementedError) ∧
  @map_partitions Demo.engine f [ArgArray a] None None [("numblocks", ArgValue (VOther "3"))]
    = MkRun [] (Raise TypeError) ∧
  @map_partitions Demo.engine f [] None None [] = MkRun [] (Raise IndexError) ∧
  @map_partitions Demo.engine f [ArgValue (VOther "2"); ArgArray a] None None []
    = MkRun [] (Raise AttributeError).
Proof.
  intros a f s. split_and!.
  - by apply (@map_partitions_construction_errors Demo.engine f [ArgArray a; ArgScalar s]).
  - by apply (@map_partitions_construction_errors Demo.engine f [ArgArray a] None None
                [("numblocks", ArgValue (VOther "3"))]).
  - by apply (@map_partitions_construction_errors Demo.engine f []).
  - destruct (@map_partitions_construction_errors Demo.engine f
                [ArgValue (VOther "2"); ArgArray a] None None [])
      as (_ & _ & _ & _ & Hplain).
    by apply (Hplain eq_refl (VOther "2") [ArgArray a]).
Defined.

Lemma map_partitions_first_argument_array_witness :
  let a := Demo.array "x" (Some "form") [Some 0; Some 3; Some 6] in
  let f := Fn {| fn_name := "add" |} in
  ∃ r, @map_partitions Demo.engine f [ArgArray a; ArgValue (VOther "2")] None (Some "form") []
       = MkRun [] (Ok r) ∧
       divisions r = [Some 0; Some 3; Some 6] ∧
       Array_dask_keys r = [KPart "add-t" 0; KPart "add-t" 1].
Proof.
  intros a f.
  destruct (@map_partitions_first_argument_array Demo.engine f a [ArgValue (VOther "2")]
              None (Some "form") [] eq_refl eq_refl) as (_ & Hret & Hok).
  destruct (Hret "form" eq_refl) as [r Hr]. exists r. split; [done|].
  destruct (Hok r) as (_ & Hd & _ & Hk); [by rewrite Hr|]. by split.
Defined.

(** ** core.py: the graph of a selection by a lazy boolean mask *)

Lemma from_collections_two (name : string) (layer : Layer) (c1 c2 : Collection) :
  from_collections name layer [c1; c2]
  = {| layers := layers (c_graph c2) ∪ (layers (c_graph c1) ∪ {[name := layer]});
       dependencies :=
         alter (λ s, s ∪ c_layers c2) name
           (dependencies (c_graph c2)
              ∪ alter (λ s, s ∪ c_layers c1) name
                  (dependencies (c_graph c1) ∪ {[name := ∅]})) |}.
Proof. reflexivity. Qed.

Section boolean_mask_graph.
Context `{Engine}.

Lemma getitem_boolean_lazy_array_unfold (self key r : Array) :
  outcome (_getitem_boolean_lazy_array self key) = Ok r →
  let name := "getitem-" +:+ tokenize (a_name self, a_name key) in
  let dsk := dict_comprehension
               ((λ ikk, (KPart name ikk.1,
                         TCall operator_getitem [AKey ikk.2.1; AKey ikk.2.2]))
                  <$> enumerate (zip (Array_dask_keys self) (Array_dask_keys key))) in
  npartitions key = npartitions self ∧
  a_name r = name ∧ divisions r = divisions self ∧
  a_dask r = from_collections name (MaterializedLayer dsk)
               [Array_collection self; Array_collection key].
Proof.
  intros Hr name dsk. unfold _getitem_boolean_lazy_array in Hr.
  assert (npartitions key = npartitions self) as Hn.
  { destruct (known_divisions key && known_divisions self).
    - destruct (decide (divisions key = divisions self)) as [Heq|Hne].
      + unfold npartitions. by rewrite Heq.
      + by rewrite bool_decide_eq_true_2 in Hr.
    - destruct (decide (npartitions key = npartitions self)) as [Heq|Hne]; [done|].
      by rewrite bool_decide_eq_true_2 in Hr. }
  split; [done|].
  destruct (if known_divisions key && known_divisions self then _ else _) as [[]|e];
    [|done].
  rewrite Run_bind_pure_Ok in Hr.
  destruct (match a_meta key with Some _ => _ | None => _ end) as [new_meta|e]; [|done].
  rewrite Run_bind_pure_Ok in Hr.
  by apply new_array_object_divisions in Hr as (? & ? & ?).
Qed.

(** The graph a selection by a lazy boolean mask builds, when the call
    returns: mask and array have the same number of partitions; every
    layer of the mask's graph is in the result, as it was; and when the new
    name is not yet a layer of either graph, its layer has one task per
    partition, task [k] applying [operator.getitem] to partition [k] of the
    array and partition [k] of the mask, in order. *)
Theorem getitem_boolean_lazy_array_graph (self key r : Array) :
  outcome (_getitem_boolean_lazy_array self key) = Ok r →
  let name := "getitem-" +:+ tokenize (a_name self, a_name key) in
  let task k := (KPart name k,
                 TCall operator_getitem [AKey (KPart (a_name self) k);
                                         AKey (KPart (a_name key) k)]) in
  a_name r = name ∧
  npartitions key = npartitions self ∧
  npartitions r = npartitions self ∧
  layers (a_dask key) ⊆ layers (a_dask r) ∧
  (layers (a_dask self) !! name = None → layers (a_dask key) !! name = None →
   layers (a_dask r) !! name
   = Some (MaterializedLayer (task <$> seqZ 0 (npartitions self)))).
Proof.
  intros Hr name task.
  destruct (getitem_boolean_lazy_array_unfold self key r Hr) as (Hn & Hname & Hd & Hdask).
  fold name in Hname, Hdask.
  split_and!; [done|done| | |].
  - unfold npartitions. by rewrite Hd.
  - rewrite Hdask, from_collections_two. cbn [layers Array_collection c_graph].
    apply map_union_subseteq_l.
  - intros Hself Hkey.
    rewrite Hdask, from_collections_two. cbn [layers Array_collection c_graph].
    rewrite lookup_union_r by done. rewrite lookup_union_r by done.
    rewrite lookup_singleton_eq. do 2 f_equal.
    unfold Array_dask_keys. rewrite zip_fmap_seqZ by done.
    rewrite enumerate_fmap_seqZ.
    rewrite <- list_fmap_compose.
    rewrite dict_comprehension_NoDup; [done|].
    unfold dict_keys. rewrite <- list_fmap_compose. apply NoDup_KPart.
Qed.

End boolean_mask_graph.

Lemma getitem_boolean_lazy_array_graph_witness :
  let self := Demo.array "x" (Some "form") [None; None; None] in
  let key := Demo.array "m" (Some "mask") [None; None; None] in
  ∃ r, outcome (@_getitem_boolean_lazy_array Demo.engine self key) = Ok r ∧
       layers (a_dask r) !! "getitem-t"
       = Some (MaterializedLayer
                 [(KPart "getitem-t" 0,
                   TCall operator_getitem [AKey (KPart "x" 0); AKey (KPart "m" 0)]);
                  (KPart "getitem-t" 1,
                   TCall operator_getitem [AKey (KPart "x" 1); AKey (KPart "m" 1)])]).
Proof.
  intros self key. eexists. split; [reflexivity|].
  destruct (@getitem_boolean_lazy_array_graph Demo.engine self key _ eq_refl)
    as (_ & _ & _ & _ & Hlay).
  apply Hlay; reflexivity.
Defined.

(** ** lib/optimize.py: only direct dependents count *)

(** The optimizer looks one step downstream and no further. A source layer
    none of whose direct dependents is a field selection comes back as it
    was, whatever is selected further downstream; and no run adds, removes
    or renames a layer. *)
Theorem optimize_iolayer_columns_direct_dependents_only (dsk g' : HighLevelGraph) :
  optimize_iolayer_columns dsk = Ok g' →
  dom (layers g') = dom (layers dsk) ∧
  ∀ n l,
    layers dsk !! n = Some l →
    (∀ k vs lk, dependencies dsk !! k = Some vs → n ∈ vs →
                layers dsk !! k = Some lk → _is_getitem lk = false) →
    layers g' !! n = Some l.
Proof.
  intros Hrun.
  destruct (optimize_iolayer_columns_narrows dsk g' Hrun) as (_ & Hlay & _).
  split.
  - apply set_eq. intros m. rewrite !elem_of_dom, Hlay.
    by rewrite fmap_is_Some.
  - intros n l Hl Hnone. rewrite Hlay, Hl. simpl. f_equal.
    destruct l as [d|b|io]; try done. simpl.
    destruct (io_projectable io); [|done].
    destruct (seed_columns dsk n) as [S|] eqn:HS; [|done].
    rewrite decide_True; [done|].
    apply set_eq. intros c. rewrite (seed_columns_spec dsk n S HS c).
    split; [|by intros ?%not_elem_of_empty].
    intros (k & vs & b & cols & Hvs & Hn & Hk & Hhead & _).
    specialize (Hnone k vs _ Hvs Hn Hk). simpl in Hnone. congruence.
Qed.

Lemma optimize_iolayer_columns_direct_dependents_only_witness :
  ∃ g', optimize_iolayer_columns Demo.plain_graph = Ok g' ∧
        layers g' !! "src" = Some (IOLayer Demo.reader).
Proof.
  exists Demo.plain_graph.
  assert (optimize_iolayer_columns Demo.plain_graph = Ok Demo.plain_graph) as Hrun.
  { vm_compute. reflexivity. }
  split; [exact Hrun|].
  destruct (optimize_iolayer_columns_direct_dependents_only _ _ Hrun) as [_ Hkeep].
  apply (Hkeep "src" (IOLayer Demo.reader)).
  { vm_compute. reflexivity. }
  intros k vs lk Hvs Hn Hk.
  unfold Demo.plain_graph in Hvs, Hk.
  cbn [dependencies layers] in Hvs, Hk.
  apply lookup_insert_Some in Hvs as [[_ <-]|[_ Hvs]].
  { exfalso. exact (not_elem_of_empty (C:=gset string) "src" Hn). }
  apply lookup_singleton_Some in Hvs as [<- _].
  rewrite lookup_insert_ne in Hk by (intros [=]).
  rewrite lookup_singleton_eq in Hk.
  injection Hk as <-.
  reflexivity.
Defined.

(** ** lib/optimize.py: a selection by what cannot be hashed *)

Lemma union_requested_raises (dsk : HighLevelGraph) (gids : list string)
    (seed : gset string) :
  (∀ gid, gid ∈ gids →
     ∃ l, layers dsk !! gid = Some l ∧
          (is_ok (_requested_columns l) = true ∨ _requested_columns l = Raise TypeError)) →
  (∀ e, union_requested dsk gids seed = Raise e → e = TypeError) ∧
  (∀ gid l, gid ∈ gids → layers dsk !! gid = Some l →
            _requested_columns l = Raise TypeError →
            is_ok (union_requested dsk gids seed) = false).
Proof.
  revert seed. induction gids as [|gid gids IH]; intros seed Hall.
  - split; [done|]. by intros gid l ?%elem_of_nil.
  - destruct (Hall gid) as (l & Hl & Hcols); [left|].
    cbn [union_requested].
    rewrite (proj2 (lookup_layer_Ok _ _ _) Hl), bind_Ok.
    destruct (IH seed) as [_ _]; [intros ??; apply Hall; by right|].
    destruct (_requested_columns l) as [cols|e] eqn:Hl'.
    + rewrite bind_Ok.
      destruct (IH (seed ∪ cols)) as [Hexn Hraise]; [intros ??; apply Hall; by right|].
      split; [done|].
      intros gid' l' [->|Hin]%elem_of_cons Hl'' Hbad; [congruence|].
      by eapply Hraise.
    + destruct Hcols as [?|[= ->]]; [done|]. split; [by intros e [= <-]|done].
Qed.

Section unhashable.
Variable dsk : HighLevelGraph.
Hypothesis Hwf : hlg_wf_or_unhashable dsk.

Lemma requested_columns_or_TypeError (k : string) (l : Layer) :
  layers dsk !! k = Some l → _is_getitem l = true →
  is_ok (_requested_columns l) = true ∨ _requested_columns l = Raise TypeError.
Proof.
  intros Hl (b & -> & Hhead)%is_getitem_blockwise.
  destruct Hwf as [_ Hsel].
  destruct (Hsel k b Hl (proj1 (is_operator_getitem_true _) Hhead))
    as (key & Hkey & [[fields Hfields]|[repr ->]]).
  - left. by rewrite (requested_columns_fields b key fields Hkey Hfields).
  - right. destruct Hkey as [_ [index Hsecond]]. simpl.
    by rewrite (getitem_nonneg _ 1 _ (ltac:(lia)) Hsecond), bind_Ok.
Qed.

Lemma seed_columns_or_TypeError (n : string) :
  n ∈ dom (layers dsk) →
  (∀ e, seed_columns dsk n = Raise e → e = TypeError) ∧
  (∀ k vs b repr,
     dependencies dsk !! k = Some vs → n ∈ vs →
     layers dsk !! k = Some (BlockwiseLayer b) →
     field_selection b (VUnhashable repr) →
     seed_columns dsk n = Raise TypeError).
Proof.
  intros Hn. pose proof Hwf as [Hdom _]. unfold seed_columns.
  destruct (dependents_is_Some dsk n) as [D HD]; [by rewrite <- Hdom|]. rewrite HD.
  destruct (getitem_dependents_ok dsk (elements D)) as [gids Hgids].
  { intros k Hk%elem_of_elements.
    apply (dependents_lookup _ _ _ HD) in Hk as (vs & Hvs & _).
    apply elem_of_dom. rewrite Hdom. by apply elem_of_dom_2 in Hvs. }
  rewrite Hgids, bind_Ok.
  destruct (union_requested_raises dsk gids ∅) as [Hexn Hraise].
  { intros gid Hgid.
    apply (getitem_dependents_spec _ _ _ Hgids) in Hgid as (_ & l & Hl & Hget).
    exists l. split; [done|]. by eapply requested_columns_or_TypeError. }
  split; [done|].
  intros k vs b repr Hvs Hin Hl Hkey.
  assert (is_ok (union_requested dsk gids ∅) = false) as Hbad.
  { apply (Hraise k (BlockwiseLayer b)); [|done|].
    - apply (getitem_dependents_spec _ _ _ Hgids). split.
      + apply elem_of_elements, (dependents_lookup _ _ _ HD). eauto.
      + exists (BlockwiseLayer b). split; [done|].
        apply is_getitem_blockwise. exists b. split; [done|].
        apply is_operator_getitem_true. by destruct Hkey.
    - destruct Hkey as [_ [index Hsecond]]. simpl.
      by rewrite (getitem_nonneg _ 1 _ (ltac:(lia)) Hsecond), bind_Ok. }
  destruct (union_requested dsk gids ∅) as [S|e] eqn:Hrun; [done|].
  by rewrite (Hexn e eq_refl).
Qed.

Lemma project_layers_TypeError (names : list string) (lay : gmap string Layer)
    (n : string) :
  n ∈ names → seed_columns dsk n = Raise TypeError →
  (∀ m, m ∈ names → m ∈ dom (layers dsk) ∧ ∃ io, lay !! m = Some (IOLayer io)) →
  project_layers dsk names lay = Raise TypeError.
Proof.
  intros Hn Hseed. revert lay. induction names as [|m names IH]; intros lay Hnames.
  { by apply elem_of_nil in Hn. }
  cbn [project_layers].
  destruct (Hnames m) as (Hm & io & Hio); [left|].
  destruct (seed_columns dsk m) as [S|e] eqn:HS.
  - assert (n ∈ names) as Hn'.
    { apply elem_of_cons in Hn as [->|?]; [congruence|done]. }
    rewrite bind_Ok. destruct (decide (S = ∅)).
    + apply IH; [done|]. intros m' Hm'. apply Hnames. by right.
    + rewrite (proj2 (lookup_layer_Ok lay m (IOLayer io)) Hio), bind_Ok.
      apply IH; [done|]. intros m' Hm'.
      destruct (Hnames m') as (Hdom' & io' & Hio'); [by right|]. split; [done|].
      destruct (decide (m' = m)) as [->|Hne].
      * rewrite lookup_insert_eq. eauto.
      * rewrite lookup_insert_ne by done. eauto.
  - destruct (seed_columns_or_TypeError m Hm) as [Hexn _].
    by rewrite (Hexn e HS).
Qed.

(** The optimizer takes every layer that applies [operator.getitem] for a
    field selection and puts its key in a set. On a graph whose selections
    are by field names, lists of field names, or by something that cannot
    be hashed (a slice, a dict), a column-projectable source layer with a
    direct dependent of the last kind is not left untouched: the optimizer
    raises TypeError, and returns no graph. *)
Theorem optimize_iolayer_columns_unhashable_key (n k : string) (io : AwkwardIOLayer)
    (vs : gset string) (b : Blockwise) (repr : string) :
  layers dsk !! n = Some (IOLayer io) → io_projectable io = true →
  dependencies dsk !! k = Some vs → n ∈ vs →
  layers dsk !! k = Some (BlockwiseLayer b) →
  field_selection b (VUnhashable repr) →
  optimize_iolayer_columns dsk = Raise TypeError.
Proof.
  intros Hn Hproj Hvs Hin Hk Hkey.
  assert (n ∈ pio_layer_names dsk) as Hname.
  { apply elem_of_pio_layer_names. exists (IOLayer io). by split. }
  unfold optimize_iolayer_columns.
  destruct (pio_layer_names dsk) as [|n0 names] eqn:Hnames.
  { by apply elem_of_nil in Hname. }
  rewrite <- Hnames in *.
  rewrite (project_layers_TypeError (pio_layer_names dsk) (layers dsk) n); [done|done| |].
  - destruct (seed_columns_or_TypeError n) as [_ Hraise]; [by apply elem_of_dom_2 in Hn|].
    by apply (Hraise k vs b repr).
  - intros m (l & Hl & (io' & -> & _)%is_pio_IOLayer)%elem_of_pio_layer_names.
    split; [by apply elem_of_dom_2 in Hl|eauto].
Qed.

End unhashable.

Lemma optimize_iolayer_columns_unhashable_key_witness :
  optimize_iolayer_columns Demo.slicing_graph = Raise TypeError.
Proof.
  apply (optimize_iolayer_columns_unhashable_key Demo.slicing_graph) with
    (n := "src") (k := "sel") (io := Demo.reader) (vs := {["src"]})
    (b := Demo.select "sel" "src" operator_getitem (VUnhashable "slice(0, 2, None)"))
    (repr := "slice(0, 2, None)").
  - split; [by vm_compute|].
    intros k b Hl _. unfold Demo.slicing_graph in Hl. simpl in Hl.
    apply lookup_insert_Some in Hl as [[_ [=]]|[_ Hl]].
    apply lookup_singleton_Some in Hl as [_ [= <-]].
    exists (VUnhashable "slice(0, 2, None)").
    split; [split; [done|by eexists]|]. right. by eexists.
  - reflexivity.
  - reflexivity.
  - reflexivity.
  - by apply elem_of_singleton.
  - reflexivity.
  - split; [done|by eexists].
Defined.

(** ** core.py: the keywords a [TrivialPartitionwiseOp] keeps *)

Lemma kwargs_get_set (d : Kwargs) (k k' : string) (v : KwValue) :
  kwargs_get (kwargs_set d k v) k' = if decide (k = k') then Some v else kwargs_get d k'.
Proof.
  induction d as [|[k0 v0] d IH]; simpl.
  - destruct (decide (k = k')); done.
  - destruct (decide (k0 = k)) as [->|Hne]; simpl.
    + destruct (decide (k = k')); done.
    + rewrite IH. destruct (decide (k0 = k')) as [->|]; [|done].
      by rewrite decide_False.
Qed.

Lemma kwargs_get_None (d : Kwargs) (k : string) :
  kwargs_get d k = None ↔ k ∉ d.*1.
Proof.
  induction d as [|[k0 v0] d IH]; simpl.
  - split; [intros _; apply not_elem_of_nil|done].
  - rewrite not_elem_of_cons. destruct (decide (k0 = k)) as [->|Hne].
    + split; [done|]. by intros [? _].
    + rewrite IH. naive_solver.
Qed.

Lemma kwargs_set_keys (d : Kwargs) (k : string) (v : KwValue) :
  (kwargs_set d k v).*1 = add_key d.*1 k.
Proof.
  induction d as [|[k0 v0] d IH].
  - unfold add_key. cbn [kwargs_set fmap list_fmap].
    destruct (decide (k ∈ [])) as [Hin|]; [by apply elem_of_nil in Hin|reflexivity].
  - cbn [kwargs_set]. destruct (decide (k0 = k)) as [->|Hne].
    + unfold add_key. cbn [fmap list_fmap fst].
      destruct (decide (k ∈ k :: d.*1)) as [|Hnin]; [reflexivity|].
      exfalso. apply Hnin. left.
    + cbn [fmap list_fmap fst]. rewrite IH. unfold add_key.
      destruct (decide (k ∈ d.*1)) as [Hin|Hnin],
               (decide (k ∈ k0 :: d.*1)) as [Hin'|Hnin']; try reflexivity.
      * exfalso. apply Hnin'. by right.
      * exfalso. apply elem_of_cons in Hin' as [->|?]; done.
Qed.

Lemma add_key_NoDup (ks : list string) (k : string) : NoDup ks → NoDup (add_key ks k).
Proof.
  intros Hnd. unfold add_key. destruct (decide (k ∈ ks)); [done|].
  apply NoDup_app. split_and!; [done| |apply NoDup_singleton].
  intros x Hx ->%list_elem_of_singleton. done.
Qed.

Lemma kwargs_update_keys (d kwargs : Kwargs) :
  (kwargs_update d kwargs).*1 = foldl add_key d.*1 kwargs.*1.
Proof.
  unfold kwargs_update. revert d. induction kwargs as [|[k v] kwargs IH]; intros d; [done|].
  simpl. by rewrite IH, kwargs_set_keys.
Qed.

Lemma foldl_add_key_NoDup (ks new : list string) : NoDup ks → NoDup (foldl add_key ks new).
Proof.
  revert ks. induction new as [|k new IH]; intros ks Hnd; [done|].
  simpl. apply IH. by apply add_key_NoDup.
Qed.

Lemma foldl_add_key_elem (ks new : list string) (k : string) :
  k ∈ foldl add_key ks new ↔ k ∈ ks ∨ k ∈ new.
Proof.
  revert ks. induction new as [|k0 new IH]; intros ks; simpl.
  - rewrite elem_of_nil. naive_solver.
  - rewrite IH. unfold add_key. destruct (decide (k0 ∈ ks)) as [Hin|Hnin].
    + rewrite elem_of_cons. naive_solver.
    + rewrite elem_of_app, list_elem_of_singleton, elem_of_cons. naive_solver.
Qed.

Lemma foldl_add_key_absorb (ks new : list string) :
  (∀ k, k ∈ new → k ∈ ks) → foldl add_key ks new = ks.
Proof.
  induction new as [|k0 new IH]; intros Hall; [done|].
  simpl. unfold add_key at 2. rewrite decide_True by (apply Hall; left).
  apply IH. intros k Hk. apply Hall. by right.
Qed.

Lemma kwargs_update_NoDup (d kwargs : Kwargs) :
  NoDup d.*1 → NoDup (kwargs_update d kwargs).*1.
Proof. intros Hnd. rewrite kwargs_update_keys. by apply foldl_add_key_NoDup. Qed.

(** After an update, a key has the value the update gave it last, and a
    key the update does not mention has the value it had. *)
Lemma kwargs_get_update (d kwargs : Kwargs) (k : string) :
  kwargs_get (kwargs_update d kwargs) k
  = match kwargs_get (reverse kwargs) k with
    | Some v => Some v
    | None => kwargs_get d k
    end.
Proof.
  unfold kwargs_update. revert d.
  induction kwargs as [|[k0 v0] kwargs IH]; intros d; [done|].
  simpl. rewrite IH, kwargs_get_set, reverse_cons.
  assert (∀ l, kwargs_get (l ++ [(k0, v0)]) k
               = match kwargs_get l k with
                 | Some v => Some v
                 | None => if decide (k0 = k) then Some v0 else None
                 end) as Happ.
  { induction l as [|[k1 v1] l IHl]; simpl; [done|].
    destruct (decide (k1 = k)); [done|]. apply IHl. }
  rewrite Happ. destruct (kwargs_get (reverse kwargs) k); [done|].
  by destruct (decide (k0 = k)).
Qed.

Lemma kwargs_ext (l1 l2 : Kwargs) :
  NoDup l1.*1 → l1.*1 = l2.*1 → (∀ k, kwargs_get l1 k = kwargs_get l2 k) → l1 = l2.
Proof.
  revert l2. induction l1 as [|[k1 v1] l1 IH]; intros [|[k2 v2] l2] Hnd Hkeys Hget;
    try done.
  rewrite !fmap_cons in Hkeys, Hnd. injection Hkeys as Hk Hkeys.
  simpl in Hk. subst k2.
  assert (l1.*1 = l2.*1) as Hkeys' by exact Hkeys. clear Hkeys.
  apply NoDup_cons in Hnd as [Hk1 Hnd].
  pose proof (Hget k1) as Hv. simpl in Hv. rewrite !decide_True in Hv by done.
  injection Hv as <-. f_equal. apply IH; [done..|].
  intros k. specialize (Hget k). simpl in Hget.
  destruct (decide (k1 = k)) as [<-|]; [|done].
  transitivity (@None KwValue); [|symmetry].
  - by apply kwargs_get_None.
  - apply kwargs_get_None. by rewrite <- Hkeys'.
Qed.

(** Two updates with the same keys: the first one leaves no trace. *)
Lemma kwargs_update_same_keys (d kw1 kw2 : Kwargs) :
  NoDup d.*1 → kw1.*1 = kw2.*1 →
  kwargs_update (kwargs_update d kw1) kw2 = kwargs_update d kw2.
Proof.
  intros Hnd Hkeys. apply kwargs_ext.
  - by do 2 apply kwargs_update_NoDup.
  - rewrite !kwargs_update_keys, <- Hkeys. apply foldl_add_key_absorb.
    intros k Hk. apply foldl_add_key_elem. by right.
  - intros k. rewrite !kwargs_get_update.
    destruct (kwargs_get (reverse kw2) k) eqn:H2; [done|].
    apply kwargs_get_None in H2.
    rewrite fmap_reverse, elem_of_reverse, <- Hkeys in H2.
    assert (kwargs_get (reverse kw1) k = None) as ->; [|done].
    apply kwargs_get_None. by rewrite fmap_reverse, elem_of_reverse.
Qed.

Section trivial_op_facts.
Context `{Engine}.

Lemma TrivialPartitionwiseOp_calls_kwargs (self : TrivialPartitionwiseOp)
    (calls : list (Array * Kwargs)) :
  let op := TrivialPartitionwiseOp_calls self calls in
  op_func op = op_func self ∧ op_name op = op_name self ∧
  op_kwargs op = kwargs_update (op_kwargs self)
                   (mjoin (filter (λ c, bound_call c = true) calls).*2).
Proof.
  cbn zeta. revert self. induction calls as [|[c kwargs] calls IH]; intros self; [done|].
  change (TrivialPartitionwiseOp_calls self ((c, kwargs) :: calls))
    with (TrivialPartitionwiseOp_calls
            (TrivialPartitionwiseOp_call self c kwargs).1 calls).
  destruct (IH (TrivialPartitionwiseOp_call self c kwargs).1) as (Hf & Hn & Hk).
  rewrite Hf, Hn, Hk. unfold TrivialPartitionwiseOp_call.
  destruct (given_twice ["self"; "collection"] kwargs) eqn:Hbound.
  - rewrite filter_cons_False; [done|]. unfold bound_call. cbn [snd]. by rewrite Hbound.
  - rewrite filter_cons_True by (unfold bound_call; cbn [snd]; by rewrite Hbound).
    split_and!; [done..|].
    rewrite fmap_cons. cbn [mjoin list_join snd fst op_kwargs].
    unfold kwargs_update. by rewrite foldl_app.
Qed.

(** The keywords of a call stay in the operator, whatever the call builds
    or raises, unless Python cannot bind them: a call with a keyword named
    [self] or [collection] raises TypeError and leaves the operator as it
    is. After any sequence of calls the operator has the function and the
    name it was made with, and under every keyword the value passed for it
    most recently, be it in a call that was bound or when the operator was
    made. *)
Theorem TrivialPartitionwiseOp_keywords_persist (func : Function)
    (name : option string) (kwargs : Kwargs) (op0 : TrivialPartitionwiseOp)
    (calls : list (Array * Kwargs)) :
  TrivialPartitionwiseOp_init func name kwargs = Ok op0 →
  let op := TrivialPartitionwiseOp_calls op0 calls in
  let stored := mjoin (filter (λ c, bound_call c = true) calls).*2 in
  op_func op = func ∧
  op_name op = default (fn_name func) name ∧
  NoDup (op_kwargs op).*1 ∧
  (∀ k, kwargs_get (op_kwargs op) k = kwargs_get (reverse (kwargs ++ stored)) k) ∧
  (∀ c kwargs', given_twice ["self"; "collection"] kwargs' = true →
     TrivialPartitionwiseOp_call op c kwargs' = (op, MkRun [] (Raise TypeError))).
Proof.
  intros Hinit op stored. unfold TrivialPartitionwiseOp_init in Hinit.
  destruct (given_twice ["self"; "func"; "name"] kwargs); [done|].
  injection Hinit as <-.
  destruct (TrivialPartitionwiseOp_calls_kwargs
              (TrivialPartitionwiseOp_new func name kwargs) calls) as (Hf & Hn & Hk).
  fold op in Hf, Hn, Hk. fold stored in Hk. split_and!.
  - done.
  - rewrite Hn. by destruct name.
  - rewrite Hk. simpl. do 2 apply kwargs_update_NoDup. apply NoDup_nil_2.
  - intros k. rewrite Hk. simpl. rewrite !kwargs_get_update, reverse_app.
    simpl. clear.
    induction (reverse stored) as [|[k1 v1] l IHl]; simpl.
    + by destruct (kwargs_get (reverse kwargs) k).
    + by destruct (decide (k1 = k)).
  - intros c kwargs' Hbound. unfold TrivialPartitionwiseOp_call. by rewrite Hbound.
Qed.


End trivial_op_facts.

Lemma TrivialPartitionwiseOp_keywords_persist_witness :
  let a := Demo.array "x" (Some "form") [None; None] in
  let axis n := [("axis", kw (py_int n))] in
  ∃ op0,
    TrivialPartitionwiseOp_init {| fn_name := "sum" |} None (axis 1) = Ok op0 ∧
    kwargs_get
      (op_kwargs (@TrivialPartitionwiseOp_calls Demo.engine op0
                    [(a, axis 2); (a, ("collection", kw py_None) :: axis 3)]))
      "axis"
    = Some (kw (py_int 2)).
Proof.
  intros a axis. eexists. split; [reflexivity|].
  destruct (@TrivialPartitionwiseOp_keywords_persist Demo.engine {| fn_name := "sum" |}
              None (axis 1) _
              [(a, axis 2); (a, ("collection", kw py_None) :: axis 3)] eq_refl)
    as (_ & _ & _ & Hget & _).
  rewrite Hget. reflexivity.
Defined.


(** ** reducers.py: the module-level operators *)

Section settled_facts.
Context `{Engine}.

Lemma settled_refl (K : list string) (op0 : TrivialPartitionwiseOp) : settled K op0 op0.
Proof. split_and!; [done..|by left]. Qed.

(** A call with the keys [K] on a settled operator leaves it settled and
    builds what the same call builds on the operator as the module made
    it. *)
Lemma settled_call (K : list string) (op0 op op' : TrivialPartitionwiseOp)
    (c : Array) (kwargs : Kwargs) (r : Run Array) :
  NoDup (op_kwargs op0).*1 → settled K op0 op → kwargs.*1 = K →
  given_twice ["self"; "collection"] kwargs = false →
  TrivialPartitionwiseOp_call op c kwargs = (op', r) →
  settled K op0 op' ∧
  ∃ op0', TrivialPartitionwiseOp_call op0 c kwargs = (op0', r).
Proof.
  intros Hnd (Hf & Hn & Hk) HK Hbound Hcall.
  assert (kwargs_update (op_kwargs op) kwargs = kwargs_update (op_kwargs op0) kwargs)
    as Hsame.
  { destruct Hk as [->|(kw1 & Hkw1 & ->)]; [done|].
    apply kwargs_update_same_keys; [done|congruence]. }
  unfold TrivialPartitionwiseOp_call in *. rewrite Hbound in *.
  cbn [op_func op_name op_kwargs] in *.
  rewrite Hf, Hn, Hsame in Hcall. injection Hcall as <- <-. split.
  - split_and!; [done..|]. right. by exists kwargs.
  - by eexists.
Qed.

End settled_facts.

Lemma reducers_module_NoDup :
  NoDup (op_kwargs (_count_trivial reducers_module)).*1 ∧
  NoDup (op_kwargs (_count_nonzero_trivial reducers_module)).*1 ∧
  NoDup (op_kwargs (_min_trivial reducers_module)).*1 ∧
  NoDup (op_kwargs (_max_trivial reducers_module)).*1 ∧
  NoDup (op_kwargs (_sum_trivial reducers_module)).*1 ∧
  NoDup (op_kwargs (_std_trivial reducers_module)).*1.
Proof. split_and!; apply kwargs_update_NoDup, NoDup_nil_2. Qed.

Lemma reducers_module_settled : reducers_settled reducers_module.
Proof. split_and!; apply settled_refl. Qed.

Section reducers_facts.
Context `{Engine} `{Awkward}.

Ltac settle_call K N Hs Hcall :=
  let Hx := fresh in
  pose proof (λ HK HB, settled_call K _ _ _ _ _ _ N Hs HK HB Hcall) as Hx;
  destruct (Hx eq_refl eq_refl) as (? & ? & ->).

Lemma reduce_settled (st : Reducers) (c : reducers.ReducerCall) :
  reducers_settled st →
  reducers_settled (reducers.reduce st c).1 ∧
  (reducers.reduce st c).2 = (reducers.reduce reducers_module c).2.
Proof.
  intros Hst. pose proof Hst as (Hcount & Hnonzero & Hmin & Hmax & Hsum & Hstd).
  destruct reducers_module_NoDup as (Ncount & Nnonzero & Nmin & Nmax & Nsum & Nstd).
  destruct c as [a ax k m f|a ax k m f|a ax k i m f|a ax k i m f|x w d ax k m f|a ax k m f];
    cbn [reducers.reduce].
  - unfold reducers.count. cbv zeta.
    destruct ax as [ax|].
    + destruct (ax =? 1).
      * destruct (TrivialPartitionwiseOp_call (_count_trivial st) _ _) as [op r] eqn:Hcall.
        settle_call count_keys Ncount Hcount Hcall.
        split; [|done]. by split_and!.
      * destruct (ax =? 0); [done|].
        by destruct (reducers.Array_ndim a) as [nd|]; [destruct (ax =? -1 * nd)|].
    + destruct (TrivialPartitionwiseOp_call (_count_trivial st) _ _) as [op r] eqn:Hcall.
      settle_call count_keys Ncount Hcount Hcall.
      split; [|done]. by split_and!.
  - unfold reducers.count_nonzero. cbv zeta.
    destruct ax as [ax|].
    + destruct (ax =? 1).
      * destruct (TrivialPartitionwiseOp_call (_count_nonzero_trivial st) _ _)
          as [op r] eqn:Hcall.
        settle_call count_keys Nnonzero Hnonzero Hcall.
        split; [|done]. by split_and!.
      * destruct (ax =? 0); [done|].
        by destruct (reducers.Array_ndim a) as [nd|]; [destruct (ax =? -1 * nd)|].
    + destruct (TrivialPartitionwiseOp_call (_count_nonzero_trivial st) _ _)
        as [op r] eqn:Hcall.
      settle_call count_keys Nnonzero Hnonzero Hcall.
      split; [|done]. by split_and!.
  - unfold reducers.max, reducers._min_or_max. cbv zeta.
    rewrite bool_decide_eq_false_2 by done.
    destruct (match ax with Some a0 => _ | None => _ end) as [ax'|]; [|done].
    destruct (ax' =? 1).
    + destruct (TrivialPartitionwiseOp_call (_max_trivial st) _ _) as [op r] eqn:Hcall.
      settle_call min_max_keys Nmax Hmax Hcall.
      split; [|done]. by split_and!.
    + by destruct (reducers.Array_ndim a) as [nd|];
        [destruct ((ax' =? 0) || (ax' =? -1 * nd))|].
  - unfold reducers.min, reducers._min_or_max. cbv zeta.
    rewrite bool_decide_eq_true_2 by done.
    destruct (match ax with Some a0 => _ | None => _ end) as [ax'|]; [|done].
    destruct (ax' =? 1).
    + destruct (TrivialPartitionwiseOp_call (_min_trivial st) _ _) as [op r] eqn:Hcall.
      settle_call min_max_keys Nmin Hmin Hcall.
      split; [|done]. by split_and!.
    + by destruct (reducers.Array_ndim a) as [nd|];
        [destruct ((ax' =? 0) || (ax' =? -1 * nd))|].
  - unfold reducers.std. destruct w as [w|]; [done|].
    destruct (bool_decide (ax = Some 1)); [|done].
    destruct (TrivialPartitionwiseOp_call (_std_trivial st) _ _) as [op r] eqn:Hcall.
    settle_call std_keys Nstd Hstd Hcall.
    split; [|done]. by split_and!.
  - unfold reducers.sum. cbv zeta.
    destruct (match ax with Some a0 => _ | None => _ end) as [[ax'|]|e]; [|done..].
    destruct (ax' =? 1).
    + destruct (TrivialPartitionwiseOp_call (_sum_trivial st) _ _) as [op r] eqn:Hcall.
      settle_call sum_keys Nsum Hsum Hcall.
      split; [|done]. by split_and!.
    + by destruct (ax' =? 0).
Qed.

(** The reducers share six module-level operators, and every call that
    goes through one of them leaves its keywords there. Still no call
    sees an earlier one: after any sequence of calls of [count],
    [count_nonzero], [max], [min], [std] and [sum], a call builds what it
    builds in a fresh module. *)
Theorem reducers_history_independent (calls : list reducers.ReducerCall)
    (c : reducers.ReducerCall) :
  (reducers.reduce (reducers.reducers_after calls) c).2
  = (reducers.reduce reducers_module c).2.
Proof.
  assert (reducers_settled (reducers.reducers_after calls)) as Hst.
  { unfold reducers.reducers_after.
    induction calls as [|c' calls IH] using rev_ind; [apply reducers_module_settled|].
    rewrite foldl_app. simpl. by apply reduce_settled. }
  by apply reduce_settled.
Qed.

(** The last axis, [axis=-1]. [sum], [min] and [max] read a negative axis
    as [ndim + axis + 1], [count] and [count_nonzero] compare it with
    [-ndim] only. On a one-dimensional array [sum], [min] and [max] with
    [axis=-1] do what they do with [axis=1], while [count] and
    [count_nonzero] refuse it as not implemented; on an array of two or
    more dimensions all five raise ValueError. *)
Theorem reducers_last_axis (st : Reducers) (array : Array) (nd : Z)
    (k m f : bool) (i : Value) :
  reducers.Array_ndim array = Some nd →
  (nd = 1 →
   reducers.sum st array (Some (-1)) k m f = reducers.sum st array (Some 1) k m f ∧
   reducers.min st array (Some (-1)) k i m f = reducers.min st array (Some 1) k i m f ∧
   reducers.max st array (Some (-1)) k i m f = reducers.max st array (Some 1) k i m f ∧
   reducers.count st array (Some (-1)) k m f
   = (st, pure (Raise DaskAwkwardNotImplemented)) ∧
   reducers.count_nonzero st array (Some (-1)) k m f
   = (st, pure (Raise DaskAwkwardNotImplemented))) ∧
  (2 ≤ nd →
   reducers.sum st array (Some (-1)) k m f = (st, pure (Raise ValueError)) ∧
   reducers.min st array (Some (-1)) k i m f = (st, pure (Raise ValueError)) ∧
   reducers.max st array (Some (-1)) k i m f = (st, pure (Raise ValueError)) ∧
   reducers.count st array (Some (-1)) k m f = (st, pure (Raise ValueError)) ∧
   reducers.count_nonzero st array (Some (-1)) k m f = (st, pure (Raise ValueError))).
Proof.
  intros Hnd. split.
  - intros ->.
    unfold reducers.sum, reducers.min, reducers.max, reducers._min_or_max,
      reducers.count, reducers.count_nonzero.
    rewrite Hnd. split_and!; reflexivity.
  - intros Hn.
    unfold reducers.sum, reducers.min, reducers.max, reducers._min_or_max,
      reducers.count, reducers.count_nonzero.
    rewrite Hnd. change (-1 <? 0) with true. change (-1 =? 1) with false.
    change (-1 =? 0) with false. cbv iota.
    split_and!; zbool; reflexivity.
Qed.

End reducers_facts.

Lemma reducers_last_axis_witness :
  let flat := Demo.array "x" (Some "flat") [None; None] in
  let nested := Demo.array "y" (Some "nested") [None; None] in
  @reducers.sum Demo.engine Examples.awkward reducers_module flat (Some (-1))
     false false false
  = @reducers.sum Demo.engine Examples.awkward reducers_module flat (Some 1)
      false false false ∧
  @reducers.sum Demo.engine Examples.awkward reducers_module nested (Some (-1))
     false false false
  = (reducers_module, pure (Raise ValueError)).
Proof.
  intros flat nested. split.
  - destruct (@reducers_last_axis Demo.engine Examples.awkward reducers_module flat 1
                false false false py_None eq_refl) as [Hflat _].
    by destruct (Hflat eq_refl) as (Hsum & _).
  - destruct (@reducers_last_axis Demo.engine Examples.awkward reducers_module nested 2
                false false false py_None eq_refl) as [_ Hnested].
    destruct Hnested as (Hsum & _); [lia|]. exact Hsum.
Defined.

(** ** core.py: [_finalize_array] and [calculate_known_divisions] *)

Lemma int64_bounds (n : Z) : int64 n = true ↔ - 2 ^ 63 ≤ n < 2 ^ 63.
Proof. unfold int64. rewrite andb_true_iff, Z.leb_le, Z.ltb_lt. done. Qed.

Lemma finalize_array_ints (ns : list Z) :
  _finalize_array (ResInt <$> ns)
  = match ns with
    | [n] => Ok (FinInt n)
    | _ => if forallb int64 ns then Ok (FinArray ns) else Raise RuntimeError
    end.
Proof.
  unfold _finalize_array.
  assert (existsb is_ak_array (ResInt <$> ns) = false) as ->.
  { induction ns as [|n ns IH]; [done|]. by rewrite fmap_cons. }
  assert (forallb (λ r, bool_decide (is_Some (as_int r))) (ResInt <$> ns) = true) as Hall.
  { induction ns as [|n ns IH]; [done|]. rewrite fmap_cons. cbn [forallb].
    rewrite IH. rewrite bool_decide_eq_true_2; [done|]. by eexists. }
  assert (omap as_int (ResInt <$> ns) = ns) as Hints.
  { induction ns as [|n ns IH]; [done|]. rewrite fmap_cons.
    cbn [omap list_omap as_int]. by rewrite IH. }
  destruct ns as [|n [|n' ns]]; [done|done|].
  rewrite !fmap_cons in *. by rewrite Hall, Hints.
Qed.

Lemma finalize_array_ints_Ok (ns : list Z) (nums : Finalized) :
  _finalize_array (ResInt <$> ns) = Ok nums →
  nums = match ns with [n] => FinInt n | _ => FinArray ns end.
Proof.
  rewrite finalize_array_ints. intros Hnums.
  destruct ns as [|n [|n' ns]]; [|by injection Hnums|];
    by destruct (forallb int64 _); simplify_eq.
Qed.

(** With an Awkward array among the results [_finalize_array] hands all
    of them to [ak.concatenate]. Otherwise it raises RuntimeError, and
    nothing else, exactly when some result is not an integer, or when
    there is not exactly one result and some integer does not fit 64 bits,
    which [ak.Array] cannot hold; the message for a result that is not an
    integer reads [results[0]], which is there in that case. A single
    integer is returned bare, whatever its size; several integers that fit
    come back as the array of all of them, no result as the empty array. *)
Theorem finalize_array_outcomes (results : list PartitionResult) :
  (existsb is_ak_array results = true →
   _finalize_array results = Ok (FinConcatenate results)) ∧
  (existsb is_ak_array results = false →
   (∀ e, _finalize_array results = Raise e → e = RuntimeError) ∧
   (_finalize_array results = Raise RuntimeError ↔
    (∃ r, r ∈ results ∧ as_int r = None) ∨
    (length results ≠ 1%nat ∧ ∃ n, ResInt n ∈ results ∧ ¬ (- 2 ^ 63 ≤ n < 2 ^ 63)))) ∧
  (∀ ns, results = ResInt <$> ns →
         length ns = 1%nat ∨ (∀ n, n ∈ ns → - 2 ^ 63 ≤ n < 2 ^ 63) →
         _finalize_array results
         = Ok (match ns with [n] => FinInt n | _ => FinArray ns end)).
Proof.
  assert (forallb (λ r, bool_decide (is_Some (as_int r))) results = false ↔
          ∃ r, r ∈ results ∧ as_int r = None) as Hsome.
  { induction results as [|r results IH].
    - split; [done|]. by intros (r & ?%elem_of_nil & _).
    - simpl. rewrite andb_false_iff, IH, bool_decide_eq_false.
      split.
      + intros [Hr|(r' & Hin & Hr')].
        * exists r. split; [left|]. destruct (as_int r); [|done].
          exfalso. apply Hr. by eexists.
        * exists r'. split; [by right|done].
      + intros (r' & [->|Hin]%elem_of_cons & Hr').
        * left. rewrite Hr'. by intros [? ?].
        * right. eauto. }
  assert (forallb int64 (omap as_int results) = false ↔
          ∃ n, ResInt n ∈ results ∧ ¬ (- 2 ^ 63 ≤ n < 2 ^ 63)) as Hwide.
  { setoid_rewrite <- int64_bounds. setoid_rewrite not_true_iff_false.
    clear Hsome. induction results as [|r results IH].
    - split; [done|]. by intros (n & ?%elem_of_nil & _).
    - destruct r as [m|n|].
      + change (omap as_int (ResAk m :: results)) with (omap as_int results).
        rewrite IH. split; intros (n & Hin & Hn); exists n; (split; [|done]).
        * by right.
        * by apply elem_of_cons in Hin as [[=]|Hin].
      + change (omap as_int (ResInt n :: results)) with (n :: omap as_int results).
        cbn [forallb]. rewrite andb_false_iff, IH. split.
        * intros [Hn|(n' & Hin & Hn')]; [exists n; split; [left|done]|].
          exists n'. split; [by right|done].
        * intros (n' & [[= ->]|Hin]%elem_of_cons & Hn'); [by left|right; eauto].
      + change (omap as_int (ResOther :: results)) with (omap as_int results).
        rewrite IH. split; intros (n & Hin & Hn); exists n; (split; [|done]).
        * by right.
        * by apply elem_of_cons in Hin as [[=]|Hin]. }
  assert (forallb (λ r, bool_decide (is_Some (as_int r))) results = false →
          ∃ r0, getitem results 0 = Ok r0) as Hfirst.
  { clear Hsome Hwide. destruct results as [|r results]; [done|]. intros _. exists r.
    unfold getitem, len. simpl.
    by replace (Z.of_nat (S (length results)) <=? 0) with false
      by (symmetry; apply Z.leb_gt; lia). }
  split_and!.
  - intros Hak. unfold _finalize_array. by rewrite Hak.
  - intros Hak. unfold _finalize_array. rewrite Hak.
    destruct (forallb (λ r, bool_decide (is_Some (as_int r))) results) eqn:Hall.
    + assert (¬ ∃ r, r ∈ results ∧ as_int r = None) as Hints.
      { intros Hex. apply Hsome in Hex. congruence. }
      destruct (decide (length results = 1%nat)) as [Hone|Hmany].
      * destruct results as [|[m|n|] [|]]; try done.
        split; [done|]. split; [done|]. intros [?|[? _]]; done.
      * assert (match results with
                | [ResInt n] => Ok (FinInt n)
                | _ => if forallb int64 (omap as_int results)
                       then Ok (FinArray (omap as_int results))
                       else Raise RuntimeError
                end
                = if forallb int64 (omap as_int results)
                  then Ok (FinArray (omap as_int results))
                  else @Raise Finalized RuntimeError) as ->.
        { by destruct results as [|[m|n|] [|]]. }
        destruct (forallb int64 (omap as_int results)) eqn:Hfit.
        -- split; [done|]. split; [done|].
           intros [?|[_ Hex]]; [done|]. apply Hwide in Hex. congruence.
        -- split; [by intros e [= <-]|]. split; [|done].
           intros _. right. split; [done|]. by apply Hwide.
    + destruct (Hfirst eq_refl) as [r0 Hr0].
      assert (match results with
              | [ResInt n] => Ok (FinInt n)
              | _ => _ ← getitem results 0; Raise RuntimeError
              end = @Raise Finalized RuntimeError) as ->.
      { rewrite Hr0, bind_Ok.
        by destruct results as [|[m|n|] [|]]. }
      split; [by intros e [= <-]|]. split; [|done].
      intros _. left. by apply Hsome.
  - intros ns -> Hfit. rewrite finalize_array_ints.
    destruct ns as [|n [|n' ns]]; [done|done|].
    destruct Hfit as [?|Hfit]; [done|].
    rewrite (proj2 (forallb_forall int64 _)); [done|].
    intros x Hx%list_elem_of_In. by apply int64_bounds, Hfit.
Qed.

Lemma Run_bind_Ok_inv {A B} (m : Run A) (k : A → Run B) (b : B) :
  outcome (m ≫= k) = Ok b →
  ∃ a, outcome m = Ok a ∧ outcome (k a) = Ok b ∧
       requests (m ≫= k) = requests m ++ requests (k a).
Proof.
  unfold mbind, Run_bind. destruct (outcome m) as [a|e]; [|done].
  intros Hk. by exists a.
Qed.

Lemma cumsum_from_length (acc : Z) (l : list Z) :
  length (cumsum_from acc l) = length l.
Proof. revert acc. induction l as [|x l IH]; intros acc; [done|]. simpl. by rewrite IH. Qed.

(** Consecutive entries of [(acc, *cumsum)] differ by the summand. *)
Lemma cumsum_from_steps (acc : Z) (l : list Z) (i : nat) (n : Z) :
  l !! i = Some n →
  ∃ lo, (acc :: cumsum_from acc l) !! i = Some lo ∧
        (acc :: cumsum_from acc l) !! S i = Some (lo + n).
Proof.
  revert acc i. induction l as [|x l IH]; intros acc i Hi; [done|].
  destruct i as [|i].
  - injection Hi as ->. by exists acc.
  - simpl in Hi. destruct (IH (acc + x) i Hi) as (lo & Hlo & Hhi). by exists lo.
Qed.

Lemma cumsum_from_nondecreasing (acc : Z) (l : list Z) :
  (∀ n, n ∈ l → 0 ≤ n) → Numpy.nondecreasing (acc :: cumsum_from acc l) = true.
Proof.
  revert acc. induction l as [|x l IH]; intros acc Hpos; [done|].
  cbn [cumsum_from Numpy.nondecreasing].
  apply andb_true_intro. split.
  - apply Z.leb_le. assert (0 ≤ x) by (apply Hpos; left). lia.
  - apply IH. intros n Hn. apply Hpos. by right.
Qed.

Section divisions_facts.
Context `{Engine} `{Scheduler}.

Lemma known_values_known (array : Array) :
  known_divisions array = true → Some <$> known_values (divisions array) = divisions array.
Proof.
  unfold known_divisions, known_values. intros [_ Hall]%andb_prop.
  induction (divisions array) as [|[x|] d IH]; [done| |done].
  cbn [forallb] in Hall. apply andb_prop in Hall as [_ Hall].
  change (omap id (Some x :: d)) with (x :: omap id d).
  by rewrite fmap_cons, IH.
Qed.

Lemma compute_results_spec (g : HighLevelGraph) (ks : list Key) (rs : list PartitionResult) :
  outcome (foldr (λ k rest,
                    n ← MkRun [(g, k)] (partition_len g k);
                    ns ← rest;
                    mret (ResInt n :: ns))
                 (mret []) ks) = Ok rs →
  ∃ ns, rs = ResInt <$> ns ∧ Forall2 (λ k n, partition_len g k = Ok n) ks ns.
Proof.
  revert rs. induction ks as [|k ks IH]; intros rs Hrs.
  - injection Hrs as <-. by exists [].
  - cbn [foldr] in Hrs.
    apply Run_bind_Ok_inv in Hrs as (n & Hn & Hrs & _). cbn [outcome] in Hn.
    apply Run_bind_Ok_inv in Hrs as (rs' & Hrs' & Hrs & _).
    injection Hrs as <-.
    destruct (IH rs' Hrs') as (ns & -> & Hall).
    exists (n :: ns). split; [done|]. by constructor.
Qed.

(** With an [Array] first and no other collection among the positional
    arguments, [map_partitions] ends in the call of [new_array_object] on
    the divisions of that array. *)
Lemma map_partitions_array_unfold (func : Callable) (a0 : Array) (rest : list PyArg)
    (name : option string) (meta : option Meta) (kwargs : list (string * PyArg)) :
  function_keywords kwargs = true →
  existsb is_other_collection rest = false →
  ∃ hlg lname,
    map_partitions func (ArgArray a0 :: rest) name meta kwargs
    = new_array_object hlg lname meta None (Some (divisions a0)).
Proof.
  intros Hkw Hrest. unfold map_partitions.
  destruct (function_keywords_bound kwargs Hkw) as (-> & _).
  rewrite partitionwise_layer_unfold by done. simpl existsb. rewrite Hrest.
  rewrite Run_bind_pure_Ok.
  change (getitem (ArgArray a0 :: rest) 0) with
    (if len (ArgArray a0 :: rest) <=? 0 then @Raise PyArg IndexError else Ok (ArgArray a0)).
  replace (len (ArgArray a0 :: rest) <=? 0) with false
    by (symmetry; apply Z.leb_gt; unfold len; simpl; lia).
  rewrite Run_bind_pure_Ok. simpl arg_divisions. rewrite Run_bind_pure_Ok.
  by eexists _, _.
Qed.

Lemma calculate_known_divisions_unfold (array : Array) :
  known_divisions array = false →
  ∀ d, outcome (calculate_known_divisions array) = Ok d →
    ∃ lens ns,
      outcome (map_partitions (Fn builtin_len) [ArgArray array] None None []) = Ok lens ∧
      Forall2 (λ k n, partition_len (a_dask lens) k = Ok n) (Array_dask_keys lens) ns ∧
      1 ≤ npartitions array ∧ len ns = npartitions array ∧
      d = 0 :: cumsum ns.
Proof.
  intros Hknown d Hd. unfold calculate_known_divisions in Hd. rewrite Hknown in Hd.
  apply Run_bind_Ok_inv in Hd as (lens & Hlens & Hd & _).
  apply Run_bind_Ok_inv in Hd as (nums & Hnums & Hd & _).
  unfold compute_lengths in Hnums.
  apply Run_bind_Ok_inv in Hnums as (rs & Hrs & Hnums & _).
  apply compute_results_spec in Hrs as (ns & -> & Hall).
  cbn [pure outcome] in Hnums. apply finalize_array_ints_Ok in Hnums as ->.
  destruct (map_partitions_array_unfold (Fn builtin_len) array [] None None [] eq_refl
              eq_refl) as (hlg & lname & Hmp).
  assert (divisions lens = divisions array ∧ 1 ≤ npartitions array) as [Hdiv Hn].
  { rewrite Hmp in Hlens. split.
    - by apply new_array_object_divisions in Hlens as (? & _).
    - destruct (decide (1 ≤ npartitions array)) as [|Hsmall]; [done|].
      rewrite new_array_object_fallback_empty in Hlens; [done|].
      unfold npartitions in Hsmall. lia. }
  assert (len ns = npartitions array) as Hlen.
  { apply Forall2_length in Hall. unfold Array_dask_keys in Hall.
    rewrite length_fmap, length_seqZ in Hall.
    unfold len. rewrite <- Hall. unfold npartitions in *. rewrite Hdiv. lia. }
  exists lens, ns. split_and!; [done..|].
  destruct (1 <? npartitions array) eqn:Hmany.
  - apply Z.ltb_lt in Hmany.
    destruct ns as [|n [|n' ns]]; simpl in Hd; [|unfold len in Hlen; simpl in Hlen; lia|];
      by injection Hd as <-.
  - apply Z.ltb_ge in Hmany.
    destruct ns as [|n [|n' ns]]; simpl in Hd; [done| |done].
    injection Hd as <-. unfold cumsum. simpl. by rewrite Z.add_0_l.
Qed.

(** [calculate_known_divisions] returns known divisions as they are,
    without asking for anything. Otherwise, when it returns, the
    collection has at least one partition, every partition's length has
    been computed, and the result is 0 followed by the running totals of
    the lengths: entry [i + 1] minus entry [i] is the length of partition
    [i], and with lengths that are not negative the result is a valid
    divisions sequence. *)
Theorem calculate_known_divisions_spec (array : Array) :
  (known_divisions array = true →
   calculate_known_divisions array = MkRun [] (Ok (known_values (divisions array))) ∧
   Some <$> known_values (divisions array) = divisions array) ∧
  (known_divisions array = false →
   ∀ d, outcome (calculate_known_divisions array) = Ok d →
     ∃ lens ns,
       outcome (map_partitions (Fn builtin_len) [ArgArray array] None None []) = Ok lens ∧
       Forall2 (λ k n, partition_len (a_dask lens) k = Ok n) (Array_dask_keys lens) ns ∧
       1 ≤ npartitions array ∧ len ns = npartitions array ∧
       d = 0 :: cumsum ns ∧
       (∀ i n, ns !! i = Some n → ∃ lo, d !! i = Some lo ∧ d !! S i = Some (lo + n)) ∧
       ((∀ n, n ∈ ns → 0 ≤ n) → valid_divisions d)).
Proof.
  split.
  - intros Hknown. unfold calculate_known_divisions. rewrite Hknown.
    split; [done|]. by apply known_values_known.
  - intros Hknown d Hd.
    destruct (calculate_known_divisions_unfold array Hknown d Hd)
      as (lens & ns & Hlens & Hall & Hn & Hlen & ->).
    exists lens, ns. split_and!; [done..| |].
    + intros i n Hi. by apply cumsum_from_steps.
    + intros Hpos. split_and!.
      * by apply cumsum_from_nondecreasing.
      * done.
      * simpl. unfold cumsum. rewrite cumsum_from_length. unfold len in Hlen. lia.
Qed.

End divisions_facts.

Lemma calculate_known_divisions_spec_witness :
  outcome (@calculate_known_divisions Demo.engine Examples.scheduler
             (Demo.array "x" None [None; None; None]))
  = Ok [0; 2; 5] ∧
  valid_divisions [0; 2; 5].
Proof.
  split; [vm_compute; reflexivity|].
  destruct (@calculate_known_divisions_spec Demo.engine Examples.scheduler
              (Demo.array "x" None [None; None; None])) as [_ Hunknown].
  destruct (Hunknown eq_refl [0; 2; 5]) as (lens & ns & _ & _ & _ & _ & Hd & _ & Hvalid).
  { vm_compute. reflexivity. }
  apply Hvalid. intros n Hn.
  assert (ns = [2; 3]) as ->.
  { unfold cumsum in Hd. destruct ns as [|a [|b [|c ns]]]; simpl in Hd; try done.
    injection Hd as ? ?. f_equal; [lia|f_equal; lia]. }
  apply elem_of_cons in Hn as [->|Hn]; [lia|].
  apply list_elem_of_singleton in Hn as ->. lia.
Defined.

(** ** core.py: selections *)

(** A graph without field selection comes back from the optimizer as it
    is. *)
Lemma optimize_without_getitem (dsk g' : HighLevelGraph) :
  (∀ k l, layers dsk !! k = Some l → _is_getitem l = false) →
  optimize_iolayer_columns dsk = Ok g' → g' = dsk.
Proof.
  intros Hnone Hrun.
  destruct (optimize_iolayer_columns_narrows dsk g' Hrun) as (Hdeps & Hlay & _).
  destruct dsk as [lay deps], g' as [lay' deps']. simpl in *. f_equal; [|done].
  apply map_eq. intros n. rewrite Hlay.
  destruct (lay !! n) as [l|] eqn:Hl; [|done]. simpl. f_equal.
  destruct l as [d|b|io]; try done. simpl.
  destruct (io_projectable io); [|done].
  destruct (seed_columns _ n) as [S|] eqn:HS; [|done].
  rewrite decide_True; [done|].
  apply set_eq. intros c. rewrite (seed_columns_spec _ n S HS c).
  split; [|by intros ?%not_elem_of_empty].
  intros (k & vs & b & cols & _ & _ & Hk & Hhead & _). simpl in Hk.
  specialize (Hnone k _ Hk). simpl in Hnone. congruence.
Qed.

Section getitem_facts.
Context `{Engine} `{Awkward} `{Scheduler}.

Lemma getitem_trivial_inner_unfold (self : Array) (key : GetitemKey) (r : Array) :
  outcome (_getitem_trivial_inner self key) = Ok r →
  let name := "getitem-" +:+ tokenize (a_name self, key) in
  let lay := blockwise_layer lambda_getitem name [(BwLayer (a_name self), Some "i")]
               (<[a_name self := npartitions self]> ∅) [("gikey", key_arg key)] in
  divisions r = divisions self ∧ a_name r = name ∧
  a_dask r = from_collections name (BlockwiseLayer lay) [Array_collection self] ∧
  (∀ m, a_meta self = Some m → ∃ m', meta_getitem m key = Ok (MetaArray m') ∧
                                     a_meta r = Some m').
Proof.
  intros Hr name lay. unfold _getitem_trivial_inner in Hr. fold name in Hr.
  rewrite partitionwise_layer_unfold in Hr by done.
  cbn [existsb is_other_collection orb] in Hr.
  rewrite Run_bind_pure_Ok in Hr.
  change (blockwise_layer _ _ _ _ _) with lay in Hr.
  destruct (a_meta self) as [m|] eqn:Hm.
  - destruct (meta_getitem m key) as [v|e] eqn:Hv; [|done].
    rewrite bind_Ok, Run_bind_pure_Ok in Hr.
    destruct v; try done.
    rewrite new_array_object_meta in Hr. injection Hr as <-.
    split_and!; [done..|]. intros ? [= <-]. eauto.
  - rewrite Run_bind_pure_Ok in Hr.
    apply new_array_object_divisions in Hr as (? & ? & ?). by split_and!.
Qed.

(** A selection by field name, field list, empty slice or ellipsis keeps
    the divisions of the array. The layer it adds is a call of a lambda
    with the key as a keyword, so the head of its task is [apply], not
    [operator.getitem]: the column optimizer does not take it for a field
    selection, and on a graph that has no other field selection it
    narrows nothing. *)
Theorem getitem_trivial_inner_not_a_field_selection (self : Array) (key : GetitemKey)
    (r : Array) :
  outcome (_getitem_trivial_inner self key) = Ok r →
  divisions r = divisions self ∧
  a_name r = "getitem-" +:+ tokenize (a_name self, key) ∧
  (∃ lay, layers (a_dask r) !! a_name r = Some (BlockwiseLayer lay) ∧
          bw_head lay = dask_apply ∧ bw_func lay = lambda_getitem ∧
          bw_indices lay = [(BwLayer (a_name self), Some "i")] ∧
          bw_kwargs lay = [("gikey", arg_bw (key_arg key))] ∧
          _is_getitem (BlockwiseLayer lay) = false) ∧
  ((∀ k l, layers (a_dask self) !! k = Some l → _is_getitem l = false) →
   ∀ g', optimize_iolayer_columns (a_dask r) = Ok g' → g' = a_dask r).
Proof.
  intros Hr.
  destruct (getitem_trivial_inner_unfold self key r Hr) as (Hd & Hn & Hdask & _).
  split_and!; [done..| |].
  - eexists. rewrite Hdask, Hn. cbn [from_collections layers].
    rewrite lookup_insert_eq. by split_and!.
  - intros Hnone g'. apply optimize_without_getitem.
    intros k l. rewrite Hdask. cbn [from_collections layers].
    intros [[_ <-]|[_ Hk]]%lookup_insert_Some; [done|]. by eapply Hnone.
Qed.

(** [Record.__getitem__] asks the scheduler for nothing. Without metadata
    it raises TypeError. An array it returns has one partition with
    unknown divisions and the single key [(name, 0)]; the one task of the
    new layer applies [operator.getitem] to the key of the record and the
    field name, whatever is returned. *)
Theorem Record_getitem_result (self : RecordObject) (key : string) :
  let name := "getitem-" +:+ tokenize (r_name self, key) in
  let task := TCall operator_getitem [AKey (KStr (r_name self)); AVal (VStr key)] in
  requests (Record_getitem self key) = [] ∧
  (r_meta self = None → outcome (Record_getitem self key) = Raise TypeError) ∧
  ∀ res, outcome (Record_getitem self key) = Ok res →
    match res with
    | GotArray a =>
        a_name a = name ∧ npartitions a = 1 ∧ divisions a = [None; None] ∧
        Array_dask_keys a = [KPart name 0] ∧
        layers (a_dask a) !! name = Some (MaterializedLayer [(KPart name 0, task)])
    | GotRecord r =>
        r_name r = name ∧
        layers (r_dask r) !! name = Some (MaterializedLayer [(KStr name, task)])
    | GotScalar s =>
        so_name s = name ∧
        layers (so_dask s) !! name = Some (MaterializedLayer [(KStr name, task)])
    end.
Proof.
  intros name task. unfold Record_getitem. fold name. fold task.
  destruct (r_meta self) as [m|]; [|by split_and!].
  destruct (meta_getitem m (KeyStr key)) as [v|e]; [|by split_and!].
  rewrite Run_bind_pure_Ok.
  destruct v as [m'|m'| | | |].
  - rewrite new_array_object_of_npartitions, new_array_object_meta.
    split_and!; [done..|]. intros res [= <-].
    split_and!; [done..|]. cbn [a_dask from_collections layers].
    by rewrite lookup_insert_eq.
  - split_and!; [done..|]. intros res [= <-]. split; [done|].
    cbn [r_dask from_collections layers]. by rewrite lookup_insert_eq.
  - split_and!; [done..|]. intros res [= <-]. split; [done|].
    cbn [so_dask from_collections layers]. by rewrite lookup_insert_eq.
  - split_and!; [done..|]. intros res [= <-]. split; [done|].
    cbn [so_dask from_collections layers]. by rewrite lookup_insert_eq.
  - split_and!; [done..|]. intros res [= <-]. split; [done|].
    cbn [so_dask from_collections layers]. by rewrite lookup_insert_eq.
  - split_and!; [done..|]. intros res [= <-]. split; [done|].
    cbn [so_dask from_collections layers]. by rewrite lookup_insert_eq.
Qed.


End getitem_facts.

(** ** core.py: selection of a single row *)

Lemma Run_bind_outcome {A B} (m : Run A) (k : A → Run B) :
  outcome (m ≫= k) = match outcome m with
                     | Ok a => outcome (k a)
                     | Raise e => Raise e
                     end.
Proof. unfold mbind, Run_bind. by destruct (outcome m). Qed.

(** An index inside the collection, counted from either end, resolves to
    the partition that holds the row and to the offset of the row in it. *)
Lemma normalize_locates (d : list Z) (total i : Z) :
  valid_divisions d → last d = Some total → - total ≤ i < total →
  let j := if i <? 0 then i + total else i in
  ∃ p r lo hi,
    normalize_single_outer_inner_index d i = Ok (p, r) ∧
    0 ≤ p < len d - 1 ∧ d !! Z.to_nat p = Some lo ∧ d !! Z.to_nat (p + 1) = Some hi ∧
    lo ≤ j < hi ∧ r = j - lo.
Proof.
  intros Hv Hlast Hi j.
  assert (normalize_single_outer_inner_index d i
          = normalize_single_outer_inner_index d j ∧ 0 ≤ j < total) as [-> Hj].
  { unfold j. destruct (i <? 0) eqn:Hneg.
    - apply Z.ltb_lt in Hneg. split; [|lia].
      unfold normalize_single_outer_inner_index.
      rewrite (getitem_last d total Hlast). zbool.
      rewrite !bind_Ok. by rewrite (Z.add_comm total i).
    - apply Z.ltb_ge in Hneg. split; [done|lia]. }
  clearbody j. clear i Hi.
  destruct Hv as (Hsorted & Hzero & Hlen).
  destruct (decide (len d = 2)) as [H2|H2].
  - unfold len in H2.
    destruct d as [|a [|b [|c d]]]; simpl in H2; try lia.
    simpl in Hzero, Hlast. simplify_eq.
    exists 0, j, 0, total. unfold normalize_single_outer_inner_index.
    zbool. rewrite bind_Ok. change (len [0; total] =? 2) with true.
    change (len [0; total]) with 2.
    repeat split; try done; lia.
  - rewrite normalize_nonneg by (done || lia).
    rewrite NumpyFacts.digitize_nondecreasing by done.
    destruct (NumpyFacts.searchsorted_right_spec d j Hsorted)
      as (r & -> & Hr & Hbelow & Habove).
    rewrite last_lookup in Hlast.
    assert (r ≠ 0)%nat as Hr0.
    { intros ->. specialize (Habove 0%nat).
      rewrite (nth_lookup_Some _ _ _ _ Hzero) in Habove. lia. }
    assert (r ≠ length d) as Hr1.
    { intros ->. specialize (Hbelow (pred (length d))).
      rewrite (nth_lookup_Some _ _ _ _ Hlast) in Hbelow. lia. }
    destruct (lookup_lt_is_Some_2 d (pred r)) as [lo Hlo]; [lia|].
    destruct (lookup_lt_is_Some_2 d r) as [hi Hhi]; [lia|].
    exists (Z.of_nat r - 1), (j - lo), lo, hi.
    replace (Z.to_nat (Z.of_nat r - 1)) with (pred r) by lia.
    replace (Z.to_nat (Z.of_nat r - 1 + 1)) with r by lia.
    rewrite bind_Ok, (getitem_nonneg d (Z.of_nat r - 1) lo), bind_Ok;
      [|lia|by replace (Z.to_nat (Z.of_nat r - 1)) with (pred r) by lia].
    specialize (Hbelow (pred r)). specialize (Habove r).
    rewrite (nth_lookup_Some _ _ _ _ Hlo) in Hbelow.
    rewrite (nth_lookup_Some _ _ _ _ Hhi) in Habove.
    unfold len. repeat split; try done; lia.
Qed.

Lemma normalize_past_the_end (d : list Z) (total i : Z) :
  valid_divisions d → last d = Some total → total ≤ i → len d ≠ 2 →
  normalize_single_outer_inner_index d i = Ok (len d - 1, i - total).
Proof.
  intros Hv Hlast Hi H2. pose proof Hv as (Hs & Hzero & Hlen).
  pose proof (λ j, valid_divisions_bounds d total j Hv Hlast) as Hb.
  assert (0 ≤ total) as Htotal.
  { specialize (Hb 0%nat). lia. }
  unfold normalize_single_outer_inner_index.
  replace (i <? 0) with false by (symmetry; apply Z.ltb_ge; lia).
  rewrite bind_Ok. replace (len d =? 2) with false by (symmetry; by apply Z.eqb_neq).
  rewrite NumpyFacts.digitize_nondecreasing, bind_Ok by done.
  rewrite searchsorted_right_all_le by (done || intros j Hj; specialize (Hb j); lia).
  rewrite last_lookup in Hlast.
  rewrite (getitem_nonneg d (len d - 1) total), bind_Ok; [done|unfold len; lia|].
  unfold len. by replace (Z.to_nat (Z.of_nat (length d) - 1)) with (pred (length d)) by lia.
Qed.

Lemma normalize_before_the_start (d : list Z) (total i : Z) :
  valid_divisions d → last d = Some total → i < - total → len d ≠ 2 →
  normalize_single_outer_inner_index d i = Ok (-1, i).
Proof.
  intros Hv Hlast Hi H2. pose proof Hv as (Hs & Hzero & Hlen).
  pose proof (λ j, valid_divisions_bounds d total j Hv Hlast) as Hb.
  assert (0 ≤ total) as Htotal.
  { specialize (Hb 0%nat). lia. }
  unfold normalize_single_outer_inner_index.
  replace (i <? 0) with true by (symmetry; apply Z.ltb_lt; lia).
  rewrite (getitem_last d total Hlast), !bind_Ok.
  replace (len d =? 2) with false by (symmetry; by apply Z.eqb_neq).
  rewrite NumpyFacts.digitize_nondecreasing, bind_Ok by done.
  rewrite searchsorted_right_all_gt by (done || intros j Hj; specialize (Hb j); lia).
  change (0 - 1) with (-1).
  rewrite (getitem_last d total Hlast), bind_Ok. do 2 f_equal. lia.
Qed.

Section single_int.
Context `{Engine} `{Awkward} `{Scheduler}.

(** What [partitions[p]] is, when it returns. *)
Lemma partitions_int_alias (self : Array) (p : Z) (partition : Array) :
  outcome (_partitions self (SelInt p)) = Ok partition →
  let k := if p <? 0 then p + npartitions self else p in
  0 ≤ k < npartitions self ∧ is_partition_of self k partition ∧
  (known_divisions self = true →
   ∃ lo hi, divisions self !! Z.to_nat k = Some (Some lo) ∧
            divisions self !! Z.to_nat (k + 1) = Some (Some hi) ∧
            divisions partition = [Some 0; Some (hi - lo)]).
Proof.
  intros Hr k.
  destruct (normalize_index (SelInt p) (npartitions self)) as [raw|e] eqn:Hraw;
    [|by rewrite (partitions_raises _ _ _ Hraw) in Hr].
  destruct (partitions_unfold self (SelInt p) raw Hraw) as (nd & Hnd & Hlen & Heq).
  apply normalize_index_int in Hraw as [Hp ->]. fold k in Hnd, Hlen, Heq.
  assert (0 ≤ k < npartitions self) as Hk
    by (unfold k; destruct (p <? 0) eqn:?; lia).
  rewrite take_keys_int in Hnd, Hlen, Heq by done.
  rewrite Heq in Hr. apply new_array_object_divisions in Hr as (Hd & Hname & Hdask).
  split; [done|]. split.
  - split.
    + rewrite Hdask, Hname. cbn [from_collections layers]. by rewrite lookup_insert_eq.
    + unfold npartitions. rewrite Hd. unfold len in *. simpl in Hlen. lia.
  - intros Hknown.
    destruct (partitions_new_divisions_int self k [KPart (a_name self) k] Hknown Hk)
      as (lo & hi & Hlo & Hhi & Hnd').
    rewrite Hnd' in Hnd. injection Hnd as <-. rewrite Hd. eauto.
Qed.

Lemma partitions_int_raises (self : Array) (p : Z) :
  ¬ (- npartitions self ≤ p < npartitions self) →
  _partitions self (SelInt p) = MkRun [] (Raise IndexError).
Proof.
  intros Hout. apply partitions_raises. unfold normalize_index.
  destruct ((- npartitions self <=? p) && (p <? npartitions self)) eqn:Hr; [|done].
  apply andb_prop in Hr as [?%Z.leb_le ?%Z.ltb_lt]. lia.
Qed.

(** [_getitem_single_int] step by step: the divisions are calculated and
    kept, the index is resolved, the partition is selected, and the row is
    selected in it. *)
Lemma getitem_single_int_unfold (self : Array) (i : Z) (d : list Z) :
  outcome (calculate_known_divisions self) = Ok d →
  let self' := with_divisions self (Some <$> d) in
  (_getitem_single_int self i).1 = self' ∧
  ∀ p r, normalize_single_outer_inner_index d i = Ok (p, r) →
    (∀ e, outcome (_partitions self' (SelInt p)) = Raise e →
          outcome (_getitem_single_int self i).2 = Raise e) ∧
    (∀ partition e, outcome (_partitions self' (SelInt p)) = Ok partition →
                    match a_meta partition with
                    | Some m => meta_getitem m (KeyInt r)
                    | None => Raise TypeError
                    end = Raise e →
                    outcome (_getitem_single_int self i).2 = Raise e) ∧
    (∀ res, outcome (_getitem_single_int self i).2 = Ok res →
            ∃ partition, outcome (_partitions self' (SelInt p)) = Ok partition ∧
                         selects partition r res).
Proof.
  intros Hcalc self'. unfold _getitem_single_int. rewrite Hcalc. cbn [fst snd].
  fold self'. split; [done|]. intros p r Hpr. rewrite Hpr. split_and!.
  - intros e He. rewrite Run_bind_outcome. cbn [outcome].
    rewrite Run_bind_outcome. cbn [outcome pure].
    rewrite Run_bind_outcome. by rewrite He.
  - intros partition e Hpart Hmeta. rewrite Run_bind_outcome. cbn [outcome].
    rewrite Run_bind_outcome. cbn [outcome pure].
    rewrite Run_bind_outcome, Hpart, Run_bind_outcome. cbn [outcome pure].
    by rewrite Hmeta.
  - intros res Hres.
    rewrite Run_bind_outcome in Hres. cbn [outcome] in Hres.
    rewrite Run_bind_outcome in Hres. cbn [outcome pure] in Hres.
    apply Run_bind_Ok_inv in Hres as (partition & Hpart & Hres & _).
    exists partition. split; [done|].
    destruct (partitions_int_alias self' p partition Hpart) as (_ & [_ Hone] & _).
    rewrite Run_bind_outcome in Hres. cbn [outcome pure] in Hres.
    destruct (a_meta partition) as [m|]; [|done].
    destruct (meta_getitem m (KeyInt r)) as [v|e]; [|done].
    assert (getitem (Array_dask_keys partition) 0 = Ok (KPart (a_name partition) 0))
      as Hfirst.
    { unfold Array_dask_keys. apply getitem_keys_first. lia. }
    destruct v as [m'|m'| | | |]; cbn [is_scalar_like] in Hres.
    + apply Run_bind_Ok_inv in Hres as (result & Hresult & Hres & _).
      injection Hres as <-.
      destruct (getitem_trivial_inner_unfold partition (KeyInt r) result Hresult)
        as (_ & Hn & Hdask & _).
      split; [done|]. eexists. cbn [with_divisions a_dask a_name].
      rewrite Hdask, Hn. cbn [from_collections layers].
      rewrite lookup_insert_eq. by split_and!.
    + rewrite Hfirst, Run_bind_pure_Ok in Hres. injection Hres as <-.
      cbn [selects r_dask r_name from_collections layers].
      by rewrite lookup_insert_eq.
    + rewrite Hfirst, Run_bind_pure_Ok in Hres. injection Hres as <-.
      cbn [selects so_dask so_name from_collections layers].
      by rewrite lookup_insert_eq.
    + rewrite Hfirst, Run_bind_pure_Ok in Hres. injection Hres as <-.
      cbn [selects so_dask so_name from_collections layers].
      by rewrite lookup_insert_eq.
    + rewrite Hfirst, Run_bind_pure_Ok in Hres. injection Hres as <-.
      cbn [selects so_dask so_name from_collections layers].
      by rewrite lookup_insert_eq.
    + done.
Qed.

Lemma with_divisions_known (self : Array) (d : list Z) :
  (2 ≤ length d)%nat →
  known_divisions (with_divisions self (Some <$> d)) = true ∧
  npartitions (with_divisions self (Some <$> d)) = len d - 1.
Proof.
  intros Hlen. split.
  - unfold known_divisions. cbn [with_divisions divisions].
    rewrite known_all_Some, andb_true_r. apply Z.ltb_lt.
    unfold len. rewrite length_fmap. lia.
  - unfold npartitions, len. cbn [with_divisions divisions]. by rewrite length_fmap.
Qed.

(** A row index inside the collection, counted from either end, selects
    the partition that holds the row, and in it the row: with [d] the
    divisions as calculated, that is partition [p] with
    [d[p] <= j < d[p+1]] for the row number [j] (the index, or the index
    plus the number of rows when it is negative), and the key applied to
    that partition is [j - d[p]]. The array keeps the calculated
    divisions. *)
Theorem getitem_single_int_locates (self : Array) (i : Z) (d : list Z) (total : Z)
    (res : GetitemResult) :
  outcome (calculate_known_divisions self) = Ok d →
  valid_divisions d → last d = Some total → - total ≤ i < total →
  outcome (_getitem_single_int self i).2 = Ok res →
  let j := if i <? 0 then i + total else i in
  ∃ p lo hi partition,
    0 ≤ p < len d - 1 ∧ d !! Z.to_nat p = Some lo ∧ d !! Z.to_nat (p + 1) = Some hi ∧
    lo ≤ j < hi ∧
    divisions (_getitem_single_int self i).1 = Some <$> d ∧
    is_partition_of self p partition ∧
    divisions partition = [Some 0; Some (hi - lo)] ∧
    selects partition (j - lo) res.
Proof.
  intros Hcalc Hv Hlast Hi Hres j.
  destruct (normalize_locates d total i Hv Hlast Hi)
    as (p & r & lo & hi & Hnorm & Hp & Hlo & Hhi & Hj & ->).
  destruct (getitem_single_int_unfold self i d Hcalc) as (Hself & Hok).
  destruct (Hok p _ Hnorm) as (_ & _ & Hok').
  destruct (Hok' res Hres) as (partition & Hpart & Hsel).
  destruct (with_divisions_known self d) as [Hknown Hn]; [by destruct Hv as (_ & _ & ?)|].
  destruct (partitions_int_alias _ p partition Hpart) as (Hk & Halias & Hdiv).
  replace (p <? 0) with false in * by (symmetry; apply Z.ltb_ge; lia).
  destruct (Hdiv Hknown) as (lo' & hi' & Hlo' & Hhi' & Hdp).
  cbn [divisions with_divisions] in Hlo', Hhi'.
  rewrite list_lookup_fmap, Hlo in Hlo'. rewrite list_lookup_fmap, Hhi in Hhi'.
  injection Hlo' as <-. injection Hhi' as <-.
  exists p, lo, hi, partition. rewrite Hself.
  split_and!; [lia|lia|exact Hlo|exact Hhi|lia|lia|reflexivity|exact Halias
              |exact Hdp|exact Hsel].
Qed.

(** Outside the collection the two ends differ. With more than one
    partition, an index at or past the number of rows raises IndexError
    when the partition is selected (the array has the calculated divisions
    all the same). An index below minus the number of rows is not caught
    there: the last partition is selected, the index reaches the
    placeholder of that partition as it is, and the call raises what
    indexing the placeholder with it raises. *)
Theorem getitem_single_int_out_of_range (self : Array) (i : Z) (d : list Z) (total : Z) :
  outcome (calculate_known_divisions self) = Ok d →
  valid_divisions d → last d = Some total → len d ≠ 2 →
  let self' := (_getitem_single_int self i).1 in
  divisions self' = Some <$> d ∧
  (total ≤ i → outcome (_getitem_single_int self i).2 = Raise IndexError) ∧
  (i < - total →
   ∀ partition, outcome (_partitions self' (SelInt (-1))) = Ok partition →
     is_partition_of self (len d - 2) partition ∧
     ∀ e, match a_meta partition with
          | Some m => meta_getitem m (KeyInt i)
          | None => Raise TypeError
          end = Raise e →
          outcome (_getitem_single_int self i).2 = Raise e).
Proof.
  intros Hcalc Hv Hlast H2 self'.
  destruct (getitem_single_int_unfold self i d Hcalc) as (Hself & Hok).
  destruct (with_divisions_known self d) as [Hknown Hn]; [by destruct Hv as (_ & _ & ?)|].
  assert (3 ≤ len d) as Hlen.
  { destruct Hv as (_ & _ & ?). unfold len in *. lia. }
  subst self'. rewrite Hself. split_and!.
  - done.
  - intros Hi.
    destruct (Hok _ _ (normalize_past_the_end d total i Hv Hlast Hi H2)) as [Hraise _].
    apply Hraise. rewrite partitions_int_raises; [done|]. rewrite Hn. lia.
  - intros Hi partition Hpart.
    destruct (Hok _ _ (normalize_before_the_start d total i Hv Hlast Hi H2))
      as (_ & Hmeta & _).
    destruct (partitions_int_alias _ (-1) partition Hpart) as (_ & Halias & _).
    change (-1 <? 0) with true in Halias. cbv iota in Halias. rewrite Hn in Halias.
    replace (-1 + (len d - 1)) with (len d - 2) in Halias by lia.
    split; [done|]. intros e He. by apply (Hmeta partition).
Qed.

(** Only a selection by integer changes the array it is applied to, and
    only in its divisions: whatever the key, graph, name and metadata of
    the array are afterwards what they were, and so is the number of
    partitions; an array with known divisions is left as it is. *)
Theorem Array_getitem_afterwards (self : Array) (key : GetitemKey) :
  let self' := (Array_getitem self key).1 in
  a_dask self' = a_dask self ∧ a_name self' = a_name self ∧ a_meta self' = a_meta self ∧
  (known_divisions self = true → self' = self) ∧
  (self' ≠ self →
   ∃ i d, key = KeyInt i ∧ outcome (calculate_known_divisions self) = Ok d ∧
          divisions self' = Some <$> d ∧ npartitions self' = npartitions self).
Proof.
  assert (∀ r : Run GetitemResult,
            let self' := (self, r).1 in
            a_dask self' = a_dask self ∧ a_name self' = a_name self ∧
            a_meta self' = a_meta self ∧
            (known_divisions self = true → self' = self) ∧
            (self' ≠ self →
             ∃ i d, key = KeyInt i ∧ outcome (calculate_known_divisions self) = Ok d ∧
                    divisions self' = Some <$> d ∧
                    npartitions self' = npartitions self)) as Hsame.
  { intros r. simpl. by split_and!. }
  destruct key as [s|items|start stop step| |i|k|r|r]; cbn [Array_getitem];
    try apply Hsame.
  - destruct (existsb is_int_item items); apply Hsame.
  - destruct (is_empty_slice _); apply Hsame.
  - unfold _getitem_single_int.
    destruct (outcome (calculate_known_divisions self)) as [d|e] eqn:Hcalc;
      [|apply Hsame].
    cbn [fst]. split_and!; [done..| |].
    + intros Hknown. unfold calculate_known_divisions in Hcalc.
      rewrite Hknown in Hcalc. injection Hcalc as <-.
      rewrite known_values_known by done. by destruct self.
    + intros _. exists i, d. split_and!; [done..|].
      destruct (known_divisions self) eqn:Hknown.
      * unfold calculate_known_divisions in Hcalc.
        rewrite Hknown in Hcalc. injection Hcalc as <-.
        by rewrite known_values_known by done.
      * destruct (calculate_known_divisions_unfold self Hknown d Hcalc)
          as (lens & ns & _ & _ & _ & Hlen & ->).
        unfold npartitions at 1. cbn [with_divisions divisions].
        unfold len in *. rewrite length_fmap. simpl.
        unfold cumsum. rewrite cumsum_from_length. lia.
  - destruct (a_meta k) as [m|]; [|apply Hsame].
    destruct (boolean_content m) as [[|]|e]; apply Hsame.
Qed.


End single_int.

(** ** The selections on a two-partition example *)

Lemma finalize_array_outcomes_witness :
  _finalize_array [ResInt 1; ResOther] = Raise RuntimeError ∧
  _finalize_array [ResInt (2 ^ 63); ResInt 1] = Raise RuntimeError ∧
  _finalize_array [ResInt (2 ^ 63)] = Ok (FinInt (2 ^ 63)) ∧
  _finalize_array [ResInt (2 ^ 63 - 1); ResInt (- 2 ^ 63)]
  = Ok (FinArray [2 ^ 63 - 1; - 2 ^ 63]).
Proof.
  split_and!.
  - destruct (finalize_array_outcomes [ResInt 1; ResOther]) as (_ & Hnone & _).
    destruct (Hnone eq_refl) as [_ Hiff].
    apply Hiff. left. exists ResOther. split; [|reflexivity].
    right. left.
  - destruct (finalize_array_outcomes [ResInt (2 ^ 63); ResInt 1]) as (_ & Hnone & _).
    destruct (Hnone eq_refl) as [_ Hiff].
    apply Hiff. right. split; [simpl; lia|]. exists (2 ^ 63). split; [left|lia].
  - destruct (finalize_array_outcomes [ResInt (2 ^ 63)]) as (_ & _ & Hints).
    apply (Hints [2 ^ 63]); [reflexivity|by left].
  - destruct (finalize_array_outcomes [ResInt (2 ^ 63 - 1); ResInt (- 2 ^ 63)])
      as (_ & _ & Hints).
    apply (Hints [2 ^ 63 - 1; - 2 ^ 63]); [reflexivity|]. right.
    intros n [->|Hn]%elem_of_cons; [lia|].
    apply list_elem_of_singleton in Hn as ->. lia.
Defined.

Lemma Demo_source_graph_no_getitem (name k : string) (l : Layer) :
  layers (Demo.source_graph name) !! k = Some l → _is_getitem l = false.
Proof.
  unfold Demo.source_graph. cbn [layers].
  by intros [_ <-]%lookup_singleton_Some.
Qed.

Lemma getitem_trivial_inner_not_a_field_selection_witness :
  let self := Demo.array "x" (Some "form") [None; None; None] in
  ∃ r, outcome (@_getitem_trivial_inner Demo.engine Examples.awkward self (KeyStr "a"))
       = Ok r ∧
       divisions r = [None; None; None] ∧
       ∀ g', optimize_iolayer_columns (a_dask r) = Ok g' → g' = a_dask r.
Proof.
  intros self. eexists. split; [reflexivity|].
  destruct (@getitem_trivial_inner_not_a_field_selection Demo.engine Examples.awkward
              self (KeyStr "a") _ eq_refl) as (Hd & _ & _ & Hopt).
  split; [exact Hd|]. apply Hopt. apply Demo_source_graph_no_getitem.
Defined.

Lemma Record_getitem_result_witness :
  let self := {| r_dask := Demo.source_graph "rec"; r_name := "rec";
                 r_meta := Some "form" |} in
  ∃ a, outcome (@Record_getitem Demo.engine Examples.awkward self "a") = Ok (GotArray a) ∧
       npartitions a = 1 ∧ Array_dask_keys a = [KPart "getitem-t" 0].
Proof.
  intros self. eexists. split; [reflexivity|].
  destruct (@Record_getitem_result Demo.engine Examples.awkward self "a")
    as (_ & _ & Hres).
  destruct (Hres _ eq_refl) as (_ & Hn & _ & Hk & _). by split.
Defined.


Lemma Demo_valid_divisions : valid_divisions [0; 3; 6].
Proof. split_and!; [reflexivity|reflexivity|simpl; lia]. Qed.

Lemma getitem_single_int_locates_witness :
  let self := Demo.array "x" (Some "form") [Some 0; Some 3; Some 6] in
  ∃ res partition,
    outcome (@_getitem_single_int Demo.engine Examples.awkward Examples.scheduler self 4).2
    = Ok res ∧
    is_partition_of self 1 partition ∧ selects partition 1 res.
Proof.
  intros self.
  destruct (@getitem_single_int_locates Demo.engine Examples.awkward Examples.scheduler
              self 4 [0; 3; 6] 6 _ eq_refl Demo_valid_divisions eq_refl
              ltac:(lia) eq_refl)
    as (p & lo & hi & partition & Hp & Hlo & Hhi & Hj & _ & Halias & _ & Hsel).
  eexists _, partition. split; [reflexivity|].
  unfold len in Hp. simpl in Hp, Hj.
  assert (p = 0 ∨ p = 1) as [->| ->] by lia.
  - simpl in Hlo, Hhi. injection Hlo as <-. injection Hhi as <-. lia.
  - simpl in Hlo. injection Hlo as <-. by split.
Defined.

Lemma getitem_single_int_out_of_range_witness :
  let self := Demo.array "x" (Some "form") [Some 0; Some 3; Some 6] in
  outcome (@_getitem_single_int Demo.engine Examples.awkward Examples.scheduler self 6).2
  = Raise IndexError ∧
  outcome (@_getitem_single_int Demo.engine Examples.awkward Examples.scheduler self (-7)).2
  = Raise IndexError.
Proof.
  intros self. split.
  - destruct (@getitem_single_int_out_of_range Demo.engine Examples.awkward
                Examples.scheduler self 6 [0; 3; 6] 6 eq_refl Demo_valid_divisions eq_refl)
      as (_ & Hpast & _).
    + unfold len. simpl. lia.
    + apply Hpast. lia.
  - destruct (@getitem_single_int_out_of_range Demo.engine Examples.awkward
                Examples.scheduler self (-7) [0; 3; 6] 6 eq_refl Demo_valid_divisions
                eq_refl) as (_ & _ & Hbefore).
    + unfold len. simpl. lia.
    + eapply Hbefore; [lia|vm_compute; reflexivity|vm_compute; reflexivity].
Defined.

Lemma Array_getitem_afterwards_witness :
  let self := Demo.array "x" (Some "form") [Some 0; Some 3; Some 6] in
  (@Array_getitem Demo.engine Examples.awkward Examples.scheduler self (KeyInt 4)).1 = self.
Proof.
  intros self.
  destruct (@Array_getitem_afterwards Demo.engine Examples.awkward Examples.scheduler
              self (KeyInt 4)) as (_ & _ & _ & Hknown & _).
  apply Hknown. reflexivity.
Defined.


(** ** io.py: [from_json] *)

(** How [from_json] reads follows from [blocksize] and [delimiter] alone.
    It raises TypeError, and nothing else at that point, exactly when a
    delimiter other than the newline comes without a blocksize; it reads
    whole files exactly when neither is given; in every other case it
    reads blocks of bytes, with the newline as delimiter and ["128 MiB"]
    as blocksize where they were left out. *)
Theorem from_json_mode_cases (blocksize : option Blocksize) (delimiter : option string) :
  (from_json_mode blocksize delimiter = Raise TypeError ↔
   blocksize = None ∧ ∃ d, delimiter = Some d ∧ d ≠ newline) ∧
  (∀ e, from_json_mode blocksize delimiter = Raise e → e = TypeError) ∧
  (from_json_mode blocksize delimiter = Ok JsonFiles ↔
   blocksize = None ∧ delimiter = None) ∧
  (∀ d b, from_json_mode blocksize delimiter = Ok (JsonBytes d b) ↔
          (is_Some blocksize ∨ delimiter = Some newline) ∧
          d = default newline delimiter ∧
          b = default (BlockString "128 MiB") blocksize).
Proof.
  unfold from_json_mode.
  destruct blocksize as [b0|], delimiter as [d0|]; cbn.
  - split_and!; try done.
    + split; [done|]. by intros [? _].
    + split; [done|]. by intros [? _].
    + intros d b. split; [intros [= <- <-]; split; [left; by eexists|done]|].
      by intros (_ & -> & ->).
  - split_and!; try done.
    + split; [done|]. by intros [? _].
    + split; [done|]. by intros [? _].
    + intros d b. split; [intros [= <- <-]; split; [left; by eexists|done]|].
      by intros (_ & -> & ->).
  - case_bool_decide as Hnl; cbn.
    + injection Hnl as ->. split_and!; try done.
      * split; [done|]. by intros (_ & d & [= <-] & ?).
      * split; [done|]. by intros [_ ?].
      * intros d b. split; [intros [= <- <-]; split; [by right|done]|].
        by intros (_ & -> & ->).
    + split_and!; try done.
      * split; [|done]. intros _. split; [done|]. exists d0. split; [done|].
        intros ->. by apply Hnl.
      * by intros e [= <-].
      * split; [done|]. by intros [_ ?].
      * intros d b. split; [done|]. intros ([[? ?]|?] & _); [done|].
        exfalso. by apply Hnl.
  - split_and!; try done.
    + split; [done|]. by intros (_ & d & ? & _).
    + intros d b. split; [done|]. by intros ([[? ?]|?] & _).
Qed.

Section from_json_facts.
Context `{Engine} `{JsonIO}.

(** Reading whole files (neither [blocksize] nor [delimiter]) asks the
    scheduler for nothing, whatever happens. With no path resolved it
    raises IndexError when the compression is to be inferred or the
    metadata to be derived. What it returns has one partition per resolved
    path, with unknown divisions, and task [i] of its layer applies the
    wrapper to path [i]; its name is made from [urlpath] and
    [one_obj_per_file] and from neither the compression nor the
    metadata. *)
Theorem from_json_whole_files (urlpath : Urlpath) (one_obj_per_file : bool)
    (compression : option string) (meta : option Meta)
    (derive_meta_kwargs : option DeriveKwargs) (paths : list string) :
  let run := from_json urlpath None None one_obj_per_file compression meta
               derive_meta_kwargs in
  let name := "from-json-" +:+ tokenize (urlpath, @None string, @None Blocksize,
                                          one_obj_per_file) in
  get_fs_token_paths (match urlpath with
                      | OnePath s => if is_file_path s then ManyPaths [s] else urlpath
                      | ManyPaths _ => urlpath
                      end) = Ok paths →
  requests run = [] ∧
  (paths = [] → compression = Some "infer" ∨ meta = None →
   outcome run = Raise IndexError) ∧
  ∀ r, outcome run = Ok r →
    a_name r = name ∧ npartitions r = len paths ∧ unknown_divisions (divisions r) ∧
    ∃ f, funcname f = (if one_obj_per_file then "FromJsonSingleObjInFileWrapper"
                       else "FromJsonLineDelimitedWrapper") ∧
         layers (a_dask r) !! name
         = Some (MaterializedLayer
                   ((λ ip, (KPart name ip.1, TCall f [AVal (VStr ip.2)]))
                      <$> enumerate paths)).
Proof.
  intros run name Hpaths. subst run. unfold from_json. fold name.
  change (from_json_mode None None) with (Ok JsonFiles).
  rewrite Run_bind_pure_Ok, Hpaths, Run_bind_pure_Ok.
  set (f c := Partial {| fn_name := if one_obj_per_file
                                    then "FromJsonSingleObjInFileWrapper"
                                    else "FromJsonLineDelimitedWrapper" |}
                [("compression", compression_value c)]).
  assert (∀ c m,
            let dsk := dict_comprehension
                         ((λ ip, (KPart name ip.1, TCall (f c) [AVal (VStr ip.2)]))
                            <$> enumerate paths) in
            let r := new_array_object
                       (from_collections name (MaterializedLayer dsk) [])
                       name (Some m) (Some (len dsk)) None in
            requests r = [] ∧
            ∀ a, outcome r = Ok a →
              a_name a = name ∧ npartitions a = len paths ∧
              unknown_divisions (divisions a) ∧
              ∃ f, funcname f = (if one_obj_per_file
                                 then "FromJsonSingleObjInFileWrapper"
                                 else "FromJsonLineDelimitedWrapper") ∧
                   layers (a_dask a) !! name
                   = Some (MaterializedLayer
                             ((λ ip, (KPart name ip.1, TCall f [AVal (VStr ip.2)]))
                                <$> enumerate paths))) as Hbuilt.
  { intros c m dsk r. subst r dsk.
    rewrite (enumerate_comprehension name (λ ip, TCall (f c) [AVal (VStr ip.2)])).
    rewrite new_array_object_of_npartitions, new_array_object_meta.
    split; [done|]. intros a [= <-].
    assert (len ((λ ip : Z * string, (KPart name ip.1, TCall (f c) [AVal (VStr ip.2)]))
                   <$> enumerate paths) = len paths) as Hlen.
    { unfold len. by rewrite length_fmap, length_enumerate. }
    rewrite Hlen.
    assert (Z.to_nat (len paths + 1) = S (length paths)) as Hnat by (unfold len; lia).
    split_and!.
    - done.
    - unfold npartitions, len. cbn [divisions]. rewrite length_replicate. lia.
    - cbn [divisions]. rewrite Hnat. apply unknown_replicate.
    - exists (f c). split; [done|]. cbn [a_dask from_collections foldl layers].
      by rewrite lookup_singleton_eq. }
  destruct (bool_decide (compression = Some "infer")) eqn:Hinfer.
  - apply bool_decide_eq_true in Hinfer as ->.
    destruct paths as [|p0 paths'].
    + by split_and!.
    + change (getitem (p0 :: paths') 0) with
        (if len (p0 :: paths') <=? 0 then @Raise string IndexError else Ok p0).
      replace (len (p0 :: paths') <=? 0) with false
        by (symmetry; apply Z.leb_gt; unfold len; simpl; lia).
      rewrite ?bind_Ok. cbv beta. rewrite Run_bind_pure_Ok.
      destruct meta as [m|].
      * rewrite Run_bind_pure_Ok. destruct (Hbuilt (infer_compression p0) m) as [? ?].
        by split_and!.
      * rewrite ?bind_Ok. cbv beta.
        destruct (derive_json_meta p0 (default no_kwargs derive_meta_kwargs)) as [m|e].
        -- rewrite Run_bind_pure_Ok.
           destruct (Hbuilt (infer_compression p0) m) as [? ?]. by split_and!.
        -- by split_and!.
  - apply bool_decide_eq_false in Hinfer. rewrite Run_bind_pure_Ok.
    destruct meta as [m|].
    + rewrite Run_bind_pure_Ok. destruct (Hbuilt compression m) as [? ?].
      split_and!; [done| |done]. intros _ [?|?]; done.
    + destruct paths as [|p0 paths'].
      * by split_and!.
      * change (getitem (p0 :: paths') 0) with
          (if len (p0 :: paths') <=? 0 then @Raise string IndexError else Ok p0).
        replace (len (p0 :: paths') <=? 0) with false
          by (symmetry; apply Z.leb_gt; unfold len; simpl; lia).
        rewrite ?bind_Ok. cbv beta.
        destruct (derive_json_meta p0 (default no_kwargs derive_meta_kwargs)) as [m|e].
        -- rewrite Run_bind_pure_Ok. destruct (Hbuilt compression m) as [? ?].
           by split_and!.
        -- by split_and!.
Qed.

End from_json_facts.

Lemma from_json_mode_cases_witness :
  from_json_mode None (Some ";") = Raise TypeError ∧
  from_json_mode (Some (BlockBytes 1024)) None = Ok (JsonBytes newline (BlockBytes 1024)).
Proof.
  split.
  - destruct (from_json_mode_cases None (Some ";")) as (Hraise & _).
    apply Hraise. split; [done|]. exists ";". split; [done|]. intros [=].
  - destruct (from_json_mode_cases (Some (BlockBytes 1024)) None) as (_ & _ & _ & Hbytes).
    apply Hbytes. split_and!; [left; by eexists|done|done].
Defined.

Lemma from_json_whole_files_witness :
  ∃ r, outcome (@from_json Demo.engine Examples.json_io (OnePath "*.json") None None
                  false (Some "infer") None None) = Ok r ∧
       npartitions r = 2 ∧ a_name r = "from-json-t".
Proof.
  eexists. split; [reflexivity|].
  destruct (@from_json_whole_files Demo.engine Examples.json_io (OnePath "*.json")
              false (Some "infer") None None ["a.json"; "b.json"] eq_refl)
    as (_ & _ & Hok).
  destruct (Hok _ eq_refl) as (Hname & Hn & _). by split.
Defined.

(** ** core.py: the length of a collection *)

Lemma cumsum_from_last (acc : Z) (l : list Z) :
  last (acc :: cumsum_from acc l) = Some (acc + foldr Z.add 0 l).
Proof.
  revert acc. induction l as [|x l IH]; intros acc.
  - simpl. f_equal. lia.
  - cbn [cumsum_from foldr]. rewrite last_cons_cons, IH. f_equal. lia.
Qed.

Section length_facts.
Context `{Engine} `{Scheduler}.

(** The length of a collection with unknown divisions is the sum of the
    lengths of its partitions, each computed once; taking it leaves the
    collection with known divisions and as many partitions as before. With
    known divisions it is the last division, and nothing is computed. *)
Theorem Array_len_sum (self : Array) :
  (known_divisions self = true →
   requests (Array_len self).2 = [] ∧
   outcome (Array_len self).2 = getitem (known_values (divisions self)) (-1) ∧
   (Array_len self).1 = self) ∧
  (known_divisions self = false →
   ∀ n, outcome (Array_len self).2 = Ok n →
     ∃ lens ns,
       outcome (map_partitions (Fn builtin_len) [ArgArray self] None None []) = Ok lens ∧
       Forall2 (λ k m, partition_len (a_dask lens) k = Ok m) (Array_dask_keys lens) ns ∧
       n = foldr Z.add 0 ns ∧
       known_divisions (Array_len self).1 = true ∧
       npartitions (Array_len self).1 = npartitions self).
Proof.
  split.
  - intros Hknown. unfold Array_len, calculate_known_divisions. rewrite Hknown.
    cbn [outcome requests fst snd mret Run_ret].
    split_and!; [done|done|].
    rewrite known_values_known by done. by destruct self.
  - intros Hknown n Hn. unfold Array_len in *.
    destruct (outcome (calculate_known_divisions self)) as [d|e] eqn:Hcalc; [|done].
    cbn [fst snd] in *.
    destruct (calculate_known_divisions_unfold self Hknown d Hcalc)
      as (lens & ns & Hlens & Hall & Hpos & Hlen & ->).
    rewrite Run_bind_outcome in Hn. cbn [outcome pure] in Hn.
    rewrite getitem_last with (x := 0 + foldr Z.add 0 ns) in Hn
      by apply cumsum_from_last.
    injection Hn as <-.
    destruct (with_divisions_known self (0 :: cumsum ns)) as [Hk Hnp].
    { simpl. unfold cumsum. rewrite cumsum_from_length. unfold len in Hlen. lia. }
    exists lens, ns. split_and!; [done|done|lia|done|].
    rewrite Hnp. unfold len in *. simpl. unfold cumsum.
    rewrite cumsum_from_length. lia.
Qed.

End length_facts.

Lemma Array_len_sum_witness :
  let self := Demo.array "x" None [None; None; None] in
  outcome (@Array_len Demo.engine Examples.scheduler self).2 = Ok 5 ∧
  ∃ ns, 5 = foldr Z.add 0 ns ∧
        known_divisions (@Array_len Demo.engine Examples.scheduler self).1 = true.
Proof.
  intros self.
  assert (outcome (@Array_len Demo.engine Examples.scheduler self).2 = Ok 5) as Hlen.
  { vm_compute. reflexivity. }
  split; [exact Hlen|].
  destruct (@Array_len_sum Demo.engine Examples.scheduler self) as [_ Hunknown].
  destruct (Hunknown eq_refl 5 Hlen) as (lens & ns & _ & _ & Hsum & Hk & _).
  by exists ns.
Defined.

(** ** The placeholder of a JSON data set *)

Section derive_json_meta_facts.
Context `{JsonIO}.

Lemma loads_all_rows (lines : list string) (rows : list JsonValue) :
  Forall2 (λ ln v, json_loads ln = Ok v) lines rows →
  loads_all lines = Ok rows.
Proof.
  induction 1 as [|ln v lines rows Hv _ IH]; [done|].
  cbn [loads_all]. by rewrite Hv, bind_Ok, IH, bind_Ok.
Qed.

Lemma sample_lines_rows (sample_rows i : Z) (f : list string) (rows : list JsonValue) :
  Forall2 (λ ln v, json_loads ln = Ok v)
          (take (Z.to_nat (Z.max (sample_rows - i) 0) + 1) f) rows →
  sample_lines sample_rows i f = Ok rows.
Proof.
  revert i rows. induction f as [|line f IH]; intros i rows Hrows.
  - rewrite take_nil in Hrows. by inversion Hrows.
  - replace (Z.to_nat (Z.max (sample_rows - i) 0) + 1)%nat
      with (S (Z.to_nat (Z.max (sample_rows - i) 0))) in Hrows by lia.
    cbn [take] in Hrows. inversion Hrows as [|? v ? rows' Hv Hrest]; subst.
    cbn [sample_lines]. rewrite Hv, bind_Ok.
    destruct (sample_rows <=? i) eqn:Hi.
    + apply Z.leb_le in Hi.
      replace (Z.to_nat (Z.max (sample_rows - i) 0)) with 0%nat in Hrest by lia.
      rewrite take_0 in Hrest. by inversion Hrest.
    + apply Z.leb_gt in Hi.
      rewrite (IH (i + 1) rows'), bind_Ok; [done|].
      replace (Z.to_nat (Z.max (sample_rows - (i + 1)) 0) + 1)%nat
        with (Z.to_nat (Z.max (sample_rows - i) 0)) by lia.
      exact Hrest.
Qed.

Lemma slice_to_length {A} (n : Z) (l : list A) : 0 ≤ n → len (slice_to n l) ≤ n.
Proof.
  intros Hn. unfold slice_to, len.
  destruct (0 <=? n) eqn:Hle; [|apply Z.leb_gt in Hle; lia].
  rewrite length_take. lia.
Qed.

(** The two ways of sampling rows do not agree on how many they take.
    Read from one chunk of bytes of an uncompressed source, the rows are
    those of the first [sample_rows] pieces between newlines, so at most
    [sample_rows] of them. Read line by line (a compressed source,
    [force_by_lines], or after a [ValueError] of the first way), the rows
    are those of the first [sample_rows + 1] lines: one more than asked,
    whenever the source has that many. *)
Theorem derive_json_meta_rows_sampled (source : string) (kwargs : DeriveKwargs) (n : Z) :
  let sample_rows := default 5 (dk_sample_rows kwargs) in
  let given := default (Some "infer") (dk_compression kwargs) in
  let compression := if bool_decide (given = Some "infer")
                     then infer_compression source else given in
  let one_chunk := bool_decide (compression = None)
                   && negb (default false (dk_force_by_lines kwargs)) in
  parse_bytes (default (BlockString "16 KiB") (dk_bytechunks kwargs)) = Ok n →
  (one_chunk = true →
   ∀ bytes rows,
     storage_cat source n = Ok bytes →
     Forall2 (λ ln v, json_loads ln = Ok v)
             (slice_to sample_rows (split_newline bytes)) rows →
     derive_json_meta source kwargs = Ok (rows_meta rows) ∧
     (0 ≤ sample_rows → len rows ≤ sample_rows)) ∧
  (one_chunk = false ∨
   storage_cat source n = Raise ValueError ∨
   (∃ bytes, storage_cat source n = Ok bytes ∧
             loads_all (slice_to sample_rows (split_newline bytes)) = Raise ValueError) →
   ∀ f rows,
     storage_open source compression = Ok f →
     Forall2 (λ ln v, json_loads ln = Ok v)
             (take (Z.to_nat (Z.max sample_rows 0) + 1) f) rows →
     derive_json_meta source kwargs = Ok (rows_meta rows) ∧
     (Z.max sample_rows 0 < len f → len rows = Z.max sample_rows 0 + 1)).
Proof.
  intros sample_rows given compression one_chunk Hparse. split.
  - intros Hone bytes rows Hcat Hrows. split.
    + unfold derive_json_meta. fold sample_rows given. fold compression.
      rewrite Hparse, bind_Ok. fold one_chunk. rewrite Hone.
      by rewrite Hcat, bind_Ok, (loads_all_rows _ _ Hrows), bind_Ok.
    + intros Hpos. rewrite <- (slice_to_length sample_rows (split_newline bytes) Hpos).
      unfold len. by rewrite (Forall2_length _ _ _ Hrows).
  - intros Hway f rows Hopen Hrows.
    assert (sample_lines sample_rows 0 f = Ok rows) as Hlines.
    { apply sample_lines_rows. by rewrite Z.sub_0_r. }
    split.
    + unfold derive_json_meta. fold sample_rows given. fold compression.
      rewrite Hparse, bind_Ok. fold one_chunk.
      destruct Hway as [->|Hway].
      { by rewrite Hopen, bind_Ok, Hlines, bind_Ok. }
      destruct one_chunk; [|by rewrite Hopen, bind_Ok, Hlines, bind_Ok].
      destruct Hway as [->|(bytes & -> & Hbad)].
      * cbn [mbind]. by rewrite Hopen, bind_Ok, Hlines, bind_Ok.
      * rewrite bind_Ok, Hbad. cbn [mbind].
        by rewrite Hopen, bind_Ok, Hlines, bind_Ok.
    + intros Hmany. unfold len in *.
      rewrite <- (Forall2_length _ _ _ Hrows), length_take. lia.
Qed.

End derive_json_meta_facts.

Lemma derive_json_meta_rows_sampled_witness :
  let kwargs := {| dk_compression := None; dk_sample_rows := Some 5;
                   dk_bytechunks := None; dk_force_by_lines := Some true |} in
  @derive_json_meta Examples.json_io "a.json" kwargs
  = Ok (@rows_meta Examples.json_io ["1"; "2"; "3"; "4"; "5"; "6"]) ∧
  len ["1"; "2"; "3"; "4"; "5"; "6"] = 5 + 1.
Proof.
  intros kwargs.
  destruct (@derive_json_meta_rows_sampled Examples.json_io "a.json" kwargs 16384 eq_refl)
    as [_ Hlines].
  destruct (Hlines (or_introl eq_refl) ["1"; "2"; "3"; "4"; "5"; "6"; "7"]
                   ["1"; "2"; "3"; "4"; "5"; "6"] eq_refl) as [Hmeta Hlen].
  { vm_compute. repeat constructor. }
  split; [exact Hmeta|]. apply Hlen. vm_compute. reflexivity.
Defined.
